(** * The recommendation route: a shallow embedding of
      [app/api/recommendations/route.ts]

    The handler [POST] is a single asynchronous function that talks to three
    collaborators: the request (its JSON body), the Supabase store (table
    [profiles], table [role_recommendations]) and the chat-completions
    client.  The embedding keeps the structure of the source:

    - JavaScript values are an inductive type [JsVal]; strings are lists of
      UTF-16 code units ([list N]);
    - the string built-ins the handler calls ([trim], [startsWith],
      [replace], [match] with the four regular expressions of the source,
      [join], [JSON.parse]) are executable functions;
    - exceptions are a result type, [try]/[catch] is [try_catch];
    - the store is explicit state, every call to a collaborator is logged in
      a trace, and what the code cannot control (errors, the time the
      model takes, the text it sends back) is a field of an environment
      [Env]. *)

From Stdlib Require Import List NArith ZArith Bool String Ascii Lia.
From Stdlib Require Import DecimalString Sorted Permutation.
Import ListNotations.

(* ================================================================== *)
(** * Strings as sequences of UTF-16 code units *)
(* ================================================================== *)

Definition jsstring := list N.

(** The code units of a (7-bit) literal of the source text. *)
Definition codes (s : string) : jsstring :=
  map N_of_ascii (list_ascii_of_string s).

Fixpoint str_eqb (a b : jsstring) : bool :=
  match a, b with
  | [], [] => true
  | x :: a', y :: b' => N.eqb x y && str_eqb a' b'
  | _, _ => false
  end.

(** ECMAScript [WhiteSpace] and [LineTerminator] code points: what
    [String.prototype.trim] removes and what [\s] matches. *)
Definition is_js_ws (c : N) : bool :=
  ((9 <=? c) && (c <=? 13) || (c =? 32) || (c =? 160) || (c =? 5760)
   || (8192 <=? c) && (c <=? 8202) || (c =? 8232) || (c =? 8233)
   || (c =? 8239) || (c =? 8287) || (c =? 12288) || (c =? 65279))%N.

(** The four characters JSON allows between tokens. *)
Definition is_json_ws (c : N) : bool :=
  ((c =? 32) || (c =? 9) || (c =? 10) || (c =? 13))%N.

Fixpoint drop_ws (s : jsstring) : jsstring :=
  match s with
  | c :: t => if is_js_ws c then drop_ws t else s
  | [] => []
  end.

(** [String.prototype.trim] *)
Definition trim (s : jsstring) : jsstring :=
  rev (drop_ws (rev (drop_ws s))).

(** [String.prototype.startsWith] *)
Fixpoint startsWith (s prefix : jsstring) : bool :=
  match prefix, s with
  | [], _ => true
  | p :: prefix', c :: s' => N.eqb c p && startsWith s' prefix'
  | _ :: _, [] => false
  end.

(** [Array.prototype.join] on strings that are already rendered. *)
Fixpoint join_strings (sep : jsstring) (l : list jsstring) : jsstring :=
  match l with
  | [] => []
  | [x] => x
  | x :: rest => x ++ sep ++ join_strings sep rest
  end.

(* ================================================================== *)
(** * JavaScript values *)
(* ================================================================== *)

(** The values the handler manipulates are those of JSON plus
    [undefined].  A number is kept as the decimal [m * 10^e] it was read
    from; where the code looks at a number (its truthiness, its text in
    [join]) it sees the binary64 value of that decimal,
    [Number_of_decimal]. *)
#[local] Unset Elimination Schemes.
Inductive JsVal : Type :=
| JUndef
| JNull
| JBool (b : bool)
| JNum (m e : Z)
| JStr (s : jsstring)
| JArr (items : list JsVal)
| JObj (fields : list (jsstring * JsVal)).
#[local] Set Elimination Schemes.

Inductive JsError : Type :=
| TypeError
| SyntaxError
| AbortError
| NetworkError
| Error (message : string).

(** A computation that returns or throws. *)
Inductive result (A : Type) : Type :=
| Ok (a : A)
| Throw (e : JsError).
Arguments Ok {A} a.
Arguments Throw {A} e.

Definition rbind {A B} (r : result A) (k : A -> result B) : result B :=
  match r with
  | Ok a => k a
  | Throw e => Throw e
  end.

Declare Scope result_scope.
Delimit Scope result_scope with result.
Notation "x <- r ;; k" := (rbind r (fun x => k))
  (at level 61, r at next level, right associativity) : result_scope.


(** ** Numbers *)

(** The Number values [JSON.parse] can produce: IEEE 754 binary64 without
    NaN.  [Finite negative mant exp] is [mant * 2^exp] with
    [0 < mant < 2^53] and [-1074 <= exp <= 971]; the sign of a zero is
    not kept (nothing in the handler tells [-0] from [0]). *)
Inductive Number : Type :=
| Zero
| Infinite (negative : bool)
| Finite (negative : bool) (mant exp : Z).

(** The integer nearest to [num / den], the even one of two. *)
Definition round_half_even (num den : Z) : Z :=
  let q := (num / den)%Z in
  match (2 * (num mod den) ?= den)%Z with
  | Lt => q
  | Gt => (q + 1)%Z
  | Eq => if Z.even q then q else (q + 1)%Z
  end.

(** The quotient [num / (den * 2^x)] as a fraction, for any sign of [x]. *)
Definition scaled_by_2 (num den x : Z) : Z * Z :=
  if (0 <=? x)%Z then (num, (den * 2 ^ x)%Z)
  else ((num * 2 ^ (- x))%Z, den).

(** The binary64 value of the decimal [m * 10^e], rounded to nearest
    with ties to even: the binary exponent [x] is the one that leaves 53
    bits before the point, and no smaller than that of the subnormal
    numbers. *)
Definition Number_of_decimal (m e : Z) : Number :=
  if (m =? 0)%Z then Zero
  else
    let num := if (0 <=? e)%Z then (Z.abs m * 10 ^ e)%Z else Z.abs m in
    let den := if (0 <=? e)%Z then 1%Z else (10 ^ (- e))%Z in
    let x0 := (Z.log2 num - Z.log2 den - 52)%Z in
    let x1 :=
      let (n0, d0) := scaled_by_2 num den x0 in
      if (n0 / d0 <? 2 ^ 52)%Z then (x0 - 1)%Z else x0 in
    let x := Z.max x1 (-1074) in
    let (n, d) := scaled_by_2 num den x in
    let mant := round_half_even n d in
    let (mant', x') :=
      if (mant =? 2 ^ 53)%Z then ((2 ^ 52)%Z, (x + 1)%Z) else (mant, x) in
    if (mant' =? 0)%Z then Zero
    else if (971 <? x')%Z then Infinite (m <? 0)%Z
    else Finite (m <? 0)%Z mant' x'.
Arguments Number_of_decimal : simpl never.

Definition Number_eqb (a b : Number) : bool :=
  match a, b with
  | Zero, Zero => true
  | Infinite s, Infinite s' => Bool.eqb s s'
  | Finite s m x, Finite s' m' x' =>
      Bool.eqb s s' && (m =? m')%Z && (x =? x')%Z
  | _, _ => false
  end.

(** The quotient [num / (den * 10^p)] as a fraction, for any sign of
    [p]. *)
Definition scaled_by_10 (num den p : Z) : Z * Z :=
  if (0 <=? p)%Z then (num, (den * 10 ^ p)%Z)
  else ((num * 10 ^ (- p))%Z, den).

(** Decimal digits of a natural number. *)
Definition digits_of_N (n : N) : jsstring :=
  codes (NilZero.string_of_uint (N.to_uint n)).

Definition digits_of_Z (z : Z) : jsstring := digits_of_N (Z.to_N z).

(** The [n] with [10^(n-1) <= num / den < 10^n]. *)
Definition decimal_position (num den : Z) : Z :=
  let guess := (Z.of_nat (List.length (digits_of_Z num))
                - Z.of_nat (List.length (digits_of_Z den)))%Z in
  let (a, b) := scaled_by_10 num den guess in
  if (b <=? a)%Z then (guess + 1)%Z else guess.

(** The digits [s] and the position [n] of [Number::toString]: the
    decimal [s * 10^(n-k)] with the fewest digits [k] whose Number value
    is [mant * 2^exp]; of two such decimals the nearer one, and the even
    one at the same distance.  The candidates with [k] digits are the two
    around the value; seventeen digits always are enough. *)
Fixpoint shortest_digits (more : nat) (mant exp n0 k : Z) : Z * Z :=
  let (num, den) := scaled_by_2 mant 1 (- exp) in
  let (a, b) := scaled_by_10 num den (n0 - k) in
  let lo := (a / b)%Z in
  let hi := (lo + 1)%Z in
  let up := if (hi =? 10 ^ k)%Z then ((10 ^ (k - 1))%Z, (n0 + 1)%Z)
            else (hi, n0) in
  let nearest :=
    match (2 * (a mod b) ?= b)%Z with
    | Lt => (lo, n0)
    | Gt => up
    | Eq => if Z.even lo then (lo, n0) else up
    end in
  match more with
  | O => nearest
  | S more' =>
      let this := Finite false mant exp in
      let lo_ok := Number_eqb (Number_of_decimal lo (n0 - k)) this in
      let hi_ok := Number_eqb (Number_of_decimal hi (n0 - k)) this in
      if lo_ok && hi_ok then nearest
      else if lo_ok then (lo, n0)
      else if hi_ok then up
      else shortest_digits more' mant exp n0 (k + 1)
  end.

(** [Number::toString] in radix 10. *)
Definition Number_toString (x : Number) : jsstring :=
  match x with
  | Zero => codes "0"
  | Infinite negative =>
      (if negative then [45%N] else []) ++ codes "Infinity"
  | Finite negative mant exp =>
      let (num, den) := scaled_by_2 mant 1 (- exp) in
      let (s, n) :=
        shortest_digits 16 mant exp (decimal_position num den) 1 in
      let ds := digits_of_Z s in
      let k := Z.of_nat (List.length ds) in
      (if negative then [45%N] else [])
      ++ (if ((-5 <=? n) && (n <=? 21))%Z then
            if (k <=? n)%Z then ds ++ repeat 48%N (Z.to_nat (n - k))
            else if (0 <? n)%Z then
              firstn (Z.to_nat n) ds ++ 46%N :: skipn (Z.to_nat n) ds
            else codes "0." ++ repeat 48%N (Z.to_nat (- n)) ++ ds
          else
            let e := (n - 1)%Z in
            let exponent :=
              101%N :: (if (e <? 0)%Z then 45%N else 43%N)
                    :: digits_of_Z (Z.abs e) in
            match ds with
            | [d] => d :: exponent
            | d :: rest => d :: 46%N :: rest ++ exponent
            | [] => exponent
            end)
  end.
Arguments Number_toString : simpl never.

(** ** Operations on values *)

(** [ToBoolean] *)
Definition truthy (v : JsVal) : bool :=
  match v with
  | JUndef | JNull => false
  | JBool b => b
  | JNum m e => match Number_of_decimal m e with Zero => false | _ => true end
  | JStr s => match s with [] => false | _ => true end
  | JArr _ | JObj _ => true
  end.

Fixpoint lookup (k : jsstring) (fields : list (jsstring * JsVal)) : option JsVal :=
  match fields with
  | [] => None
  | (k', v) :: rest => if str_eqb k' k then Some v else lookup k rest
  end.

(** Assignment to a property: overwrite in place, else append. *)
Fixpoint obj_set (fields : list (jsstring * JsVal)) (k : jsstring) (v : JsVal)
  : list (jsstring * JsVal) :=
  match fields with
  | [] => [(k, v)]
  | (k', v') :: rest =>
      if str_eqb k' k then (k', v) :: rest else (k', v') :: obj_set rest k v
  end.

(** Property read [v.k] for the property names of the source (none of
    them is defined on a built-in prototype of the value it is read from):
    a [TypeError] on [undefined] and [null], the own property of an object,
    [undefined] everywhere else. *)
Definition get_prop (v : JsVal) (k : string) : result JsVal :=
  match v with
  | JUndef | JNull => Throw TypeError
  | JObj fields =>
      match lookup (codes k) fields with
      | Some x => Ok x
      | None => Ok JUndef
      end
  | _ => Ok JUndef
  end.

(** Optional chaining [v?.k] *)
Definition get_prop_opt (v : JsVal) (k : string) : result JsVal :=
  match v with
  | JUndef | JNull => Ok JUndef
  | _ => get_prop v k
  end.

(** Indexed read [v[i]]. *)
Definition get_index (v : JsVal) (i : nat) : result JsVal :=
  match v with
  | JUndef | JNull => Throw TypeError
  | JArr items => Ok (nth i items JUndef)
  | JStr s =>
      match nth_error s i with
      | Some c => Ok (JStr [c])
      | None => Ok JUndef
      end
  | JObj fields =>
      match lookup (digits_of_N (N.of_nat i)) fields with
      | Some x => Ok x
      | None => Ok JUndef
      end
  | _ => Ok JUndef
  end.

(** [a || b] *)
Definition js_or (a b : JsVal) : JsVal := if truthy a then a else b.

(** [typeof v === 'object'] *)
Definition typeof_object (v : JsVal) : bool :=
  match v with
  | JNull | JArr _ | JObj _ => true
  | _ => false
  end.

(** The results of a list of computations, or the first exception. *)
Fixpoint sequence {A} (l : list (result A)) : result (list A) :=
  match l with
  | [] => Ok []
  | r :: rest => (a <- r;; others <- sequence rest;; Ok (a :: others))%result
  end.

(** [ToString].  An array is joined with commas, its [undefined] and
    [null] elements as the empty string.  An object is converted through
    its [toString] property: the inherited method answers
    [[object Object]], and an own property of that name, which in a value
    read from JSON is never a function, leaves only [valueOf], which does
    not give a primitive: a [TypeError]. *)
Fixpoint to_string (v : JsVal) : result jsstring :=
  match v with
  | JUndef => Ok (codes "undefined")
  | JNull => Ok (codes "null")
  | JBool true => Ok (codes "true")
  | JBool false => Ok (codes "false")
  | JNum m e => Ok (Number_toString (Number_of_decimal m e))
  | JStr s => Ok s
  | JArr items =>
      (parts <- sequence
                  (map (fun x => match x with
                                 | JUndef | JNull => Ok []
                                 | _ => to_string x
                                 end) items);;
       Ok (join_strings (codes ",") parts))%result
  | JObj fields =>
      match lookup (codes "toString") fields with
      | Some _ => Throw TypeError
      | None => Ok (codes "[object Object]")
      end
  end.

(** The text of an element in [join]. *)
Definition element_text (x : JsVal) : result jsstring :=
  match x with
  | JUndef | JNull => Ok []
  | _ => to_string x
  end.

(** The method call [v.join(sep)]: defined on arrays only; on any other
    value the property [join] is not a function and the call throws. *)
Definition js_join (v : JsVal) (sep : jsstring) : result jsstring :=
  match v with
  | JArr items =>
      (parts <- sequence (map element_text items);;
       Ok (join_strings sep parts))%result
  | _ => Throw TypeError
  end.

(** The method call [v.trim()]: defined on strings only. *)
Definition js_trim (v : JsVal) : result jsstring :=
  match v with
  | JStr s => Ok (trim s)
  | _ => Throw TypeError
  end.

(** Structural equality of values. *)
Fixpoint JsVal_eqb (a b : JsVal) : bool :=
  match a, b with
  | JUndef, JUndef => true
  | JNull, JNull => true
  | JBool x, JBool y => Bool.eqb x y
  | JNum m e, JNum m' e' => Z.eqb m m' && Z.eqb e e'
  | JStr s, JStr s' => str_eqb s s'
  | JArr l, JArr l' =>
      (fix all2 (l l' : list JsVal) : bool :=
         match l, l' with
         | [], [] => true
         | x :: t, y :: t' => JsVal_eqb x y && all2 t t'
         | _, _ => false
         end) l l'
  | JObj f, JObj f' =>
      (fix all2 (f f' : list (jsstring * JsVal)) : bool :=
         match f, f' with
         | [], [] => true
         | (k, x) :: t, (k', y) :: t' =>
             str_eqb k k' && JsVal_eqb x y && all2 t t'
         | _, _ => false
         end) f f'
  | _, _ => false
  end.

(* ================================================================== *)
(** * Regular expressions *)
(* ================================================================== *)

(** The fragment of the regular-expression language that the four
    patterns of the source use: literal characters, a character class,
    the greedy star of a character class, the end anchor and
    concatenation. *)
Inductive regex : Type :=
| RChar (c : N)
| RClass (p : N -> bool)
| RStar (p : N -> bool)
| REnd
| RSeq (r1 r2 : regex).

(** Greedy iteration with backtracking: take one more character when the
    class allows it and the rest of the pattern then matches, else hand
    the current position to the rest of the pattern. *)
Fixpoint star_match (p : N -> bool) (s : jsstring)
    (k : jsstring -> option jsstring) : option jsstring :=
  match s with
  | c :: t =>
      if p c then
        match star_match p t k with
        | Some rest => Some rest
        | None => k s
        end
      else k s
  | [] => k []
  end.

(** [rmatch r s k]: match [r] at the start of [s], then the continuation
    [k] on what is left; the answer is the input left after the whole
    match. *)
Fixpoint rmatch (r : regex) (s : jsstring)
    (k : jsstring -> option jsstring) : option jsstring :=
  match r with
  | RChar c =>
      match s with
      | x :: t => if N.eqb x c then k t else None
      | [] => None
      end
  | RClass p =>
      match s with
      | x :: t => if p x then k t else None
      | [] => None
      end
  | RStar p => star_match p s k
  | REnd =>
      match s with
      | [] => k []
      | _ :: _ => None
      end
  | RSeq r1 r2 => rmatch r1 s (fun s' => rmatch r2 s' k)
  end.

(** The leftmost match: the text before it, the match, the text after. *)
Fixpoint regex_search (r : regex) (s : jsstring)
  : option (jsstring * jsstring * jsstring) :=
  match rmatch r s (fun rest => Some rest) with
  | Some rest => Some ([], firstn (List.length s - List.length rest) s, rest)
  | None =>
      match s with
      | [] => None
      | c :: t =>
          match regex_search r t with
          | Some (before, m, after) => Some (c :: before, m, after)
          | None => None
          end
      end
  end.

(** [s.replace(r, replacement)] for a pattern without the g flag. *)
Definition replace (s : jsstring) (r : regex) (replacement : jsstring)
  : jsstring :=
  match regex_search r s with
  | Some (before, _, after) => before ++ replacement ++ after
  | None => s
  end.

(** [s.match(r)]: [None] is [null], [Some m] an array whose element 0 is
    [m]. *)
Definition js_match (s : jsstring) (r : regex) : option jsstring :=
  match regex_search r s with
  | Some (_, m, _) => Some m
  | None => None
  end.

Fixpoint rlit (s : jsstring) (tail : regex) : regex :=
  match s with
  | [] => tail
  | c :: t => RSeq (RChar c) (rlit t tail)
  end.

Definition any_char (_ : N) : bool := true.

(** [/```json\n/] *)
Definition re_fence_json : regex := rlit (codes "```json") (RChar 10).
(** [/```\n/] *)
Definition re_fence : regex := rlit (codes "```") (RChar 10).
(** [/\n```$/] *)
Definition re_fence_close : regex := RSeq (RChar 10) (rlit (codes "```") REnd).
(** [/\[\s*\{[\s\S]*\}\s*\]/] *)
Definition re_json_array : regex :=
  RSeq (RChar 91) (RSeq (RStar is_js_ws) (RSeq (RChar 123)
    (RSeq (RStar any_char) (RSeq (RChar 125) (RSeq (RStar is_js_ws)
      (RChar 93)))))).

(* ================================================================== *)
(** * [JSON.parse] *)
(* ================================================================== *)

(** The built-in is modelled in two passes, as the JSON grammar is
    written: a lexer from code units to tokens, then a parser of the
    token list. *)
Inductive token : Type :=
| TLBrack | TRBrack | TLBrace | TRBrace | TComma | TColon
| TStr (s : jsstring)
| TNum (m e : Z)
| TTrue | TFalse | TNull.

Inductive lex_state : Type :=
| LIdle
| LStr (acc : jsstring)                 (* inside a string, reversed text *)
| LEsc (acc : jsstring)                 (* after a backslash *)
| LHex (acc : jsstring) (ds : list N)   (* after \u, the digits read *)
| LWord (acc : jsstring).               (* inside a number or keyword *)

Definition is_digit (c : N) : bool := ((48 <=? c) && (c <=? 57))%N.

Definition is_word_char (c : N) : bool :=
  (is_digit c || (97 <=? c) && (c <=? 122) || (65 <=? c) && (c <=? 90)
   || (c =? 43) || (c =? 45) || (c =? 46))%N.

Definition hex_value (c : N) : option N :=
  if is_digit c then Some (c - 48)%N
  else if ((97 <=? c) && (c <=? 102))%N then Some (c - 87)%N
  else if ((65 <=? c) && (c <=? 70))%N then Some (c - 55)%N
  else None.

Fixpoint span_digits (s : jsstring) : jsstring * jsstring :=
  match s with
  | c :: t =>
      if is_digit c then let (ds, rest) := span_digits t in (c :: ds, rest)
      else ([], s)
  | [] => ([], [])
  end.

Definition digits_value (ds : jsstring) : Z :=
  fold_left (fun acc c => (10 * acc + Z.of_N (c - 48))%Z) ds 0%Z.

(** The exponent part (e or E, an optional sign, digits) up to the end of
    the literal. *)
Definition exponent_of (s : jsstring) : option Z :=
  match s with
  | [] => Some 0%Z
  | c :: t =>
      if ((c =? 101) || (c =? 69))%N then
        let (neg, t') :=
          match t with
          | x :: t'' =>
              if (x =? 45)%N then (true, t'')
              else if (x =? 43)%N then (false, t'')
              else (false, t)
          | [] => (false, t)
          end in
        match span_digits t' with
        | (d :: ds, []) =>
            Some (if neg then (- digits_value (d :: ds))%Z
                  else digits_value (d :: ds))
        | _ => None
        end
      else None
  end.

(** A JSON number literal (an optional minus sign, an integer part
    without leading zero, an optional fraction, an optional exponent) as
    mantissa and decimal exponent. *)
Definition number_of_literal (w : jsstring) : option (Z * Z) :=
  let (neg, w1) :=
    match w with
    | c :: t => if (c =? 45)%N then (true, t) else (false, w)
    | [] => (false, w)
    end in
  let (ip, w2) := span_digits w1 in
  let int_ok :=
    match ip with
    | [] => false
    | [_] => true
    | c :: _ => negb (c =? 48)%N
    end in
  if int_ok then
    let (fp, w3) :=
      match w2 with
      | c :: t => if (c =? 46)%N then span_digits t else ([], w2)
      | [] => ([], w2)
      end in
    let frac_ok :=
      match w2, fp with
      | c :: _, [] => negb (c =? 46)%N
      | _, _ => true
      end in
    if frac_ok then
      match exponent_of w3 with
      | Some ex =>
          let m := digits_value (ip ++ fp) in
          Some (if neg then (- m)%Z else m, (ex - Z.of_nat (List.length fp))%Z)
      | None => None
      end
    else None
  else None.

(** The token of a maximal run of word characters. *)
Definition token_of_word (w : jsstring) : option token :=
  if str_eqb w (codes "true") then Some TTrue
  else if str_eqb w (codes "false") then Some TFalse
  else if str_eqb w (codes "null") then Some TNull
  else match number_of_literal w with
       | Some (m, e) => Some (TNum m e)
       | None => None
       end.

Definition lex_idle (c : N) : option (list token * lex_state) :=
  if is_json_ws c then Some ([], LIdle)
  else if (c =? 91)%N then Some ([TLBrack], LIdle)
  else if (c =? 93)%N then Some ([TRBrack], LIdle)
  else if (c =? 123)%N then Some ([TLBrace], LIdle)
  else if (c =? 125)%N then Some ([TRBrace], LIdle)
  else if (c =? 44)%N then Some ([TComma], LIdle)
  else if (c =? 58)%N then Some ([TColon], LIdle)
  else if (c =? 34)%N then Some ([], LStr [])
  else if is_word_char c then Some ([], LWord [c])
  else None.

(** One character: the tokens completed by it and the next state. *)
Definition lex_step (st : lex_state) (c : N)
  : option (list token * lex_state) :=
  match st with
  | LIdle => lex_idle c
  | LStr acc =>
      if (c =? 34)%N then Some ([TStr (rev acc)], LIdle)
      else if (c =? 92)%N then Some ([], LEsc acc)
      else if (c <? 32)%N then None
      else Some ([], LStr (c :: acc))
  | LEsc acc =>
      if (c =? 34)%N then Some ([], LStr (34%N :: acc))
      else if (c =? 92)%N then Some ([], LStr (92%N :: acc))
      else if (c =? 47)%N then Some ([], LStr (47%N :: acc))
      else if (c =? 98)%N then Some ([], LStr (8%N :: acc))
      else if (c =? 102)%N then Some ([], LStr (12%N :: acc))
      else if (c =? 110)%N then Some ([], LStr (10%N :: acc))
      else if (c =? 114)%N then Some ([], LStr (13%N :: acc))
      else if (c =? 116)%N then Some ([], LStr (9%N :: acc))
      else if (c =? 117)%N then Some ([], LHex acc [])
      else None
  | LHex acc ds =>
      match hex_value c with
      | Some h =>
          match ds with
          | [a; b; d] =>
              Some ([], LStr ((a * 4096 + b * 256 + d * 16 + h)%N :: acc))
          | _ => Some ([], LHex acc (ds ++ [h]))
          end
      | None => None
      end
  | LWord acc =>
      if is_word_char c then Some ([], LWord (c :: acc))
      else
        match token_of_word (rev acc), lex_idle c with
        | Some tok, Some (toks, st') => Some (tok :: toks, st')
        | _, _ => None
        end
  end.

(** End of input. *)
Definition lex_end (st : lex_state) : option (list token) :=
  match st with
  | LIdle => Some []
  | LWord acc =>
      match token_of_word (rev acc) with
      | Some tok => Some [tok]
      | None => None
      end
  | _ => None
  end.

Fixpoint lex (st : lex_state) (s : jsstring) : option (list token) :=
  match s with
  | [] => lex_end st
  | c :: t =>
      match lex_step st c with
      | Some (toks, st') =>
          match lex st' t with
          | Some rest => Some (toks ++ rest)
          | None => None
          end
      | None => None
      end
  end.

(** The elements of an array after its first bracket, up to and including
    the closing bracket; [pv] parses one value. *)
Fixpoint parse_elements (pv : list token -> option (JsVal * list token))
    (fuel : nat) (ts : list token) : option (list JsVal * list token) :=
  match fuel with
  | O => None
  | S f =>
      match pv ts with
      | Some (v, TComma :: r) =>
          match parse_elements pv f r with
          | Some (vs, r') => Some (v :: vs, r')
          | None => None
          end
      | Some (v, TRBrack :: r) => Some ([v], r)
      | _ => None
      end
  end.

(** The members of an object after its brace, up to and including the
    closing brace, in source order. *)
Fixpoint parse_members (pv : list token -> option (JsVal * list token))
    (fuel : nat) (ts : list token)
  : option (list (jsstring * JsVal) * list token) :=
  match fuel with
  | O => None
  | S f =>
      match ts with
      | TStr k :: TColon :: r =>
          match pv r with
          | Some (v, TComma :: r') =>
              match parse_members pv f r' with
              | Some (ms, r'') => Some ((k, v) :: ms, r'')
              | None => None
              end
          | Some (v, TRBrace :: r') => Some ([(k, v)], r')
          | _ => None
          end
      | _ => None
      end
  end.

(** A property key that is an array index: the canonical decimal text of
    an integer below [2^32 - 1]. *)
Definition array_index (k : jsstring) : option N :=
  match k with
  | [] => None
  | c :: t =>
      if forallb is_digit k
         && (negb (c =? 48)%N || match t with [] => true | _ => false end)
      then
        let n := Z.to_N (digits_value k) in
        if (n <? 4294967295)%N then Some n else None
      else None
  end.

Fixpoint insert_index (i : N) (kv : jsstring * JsVal)
    (l : list (N * (jsstring * JsVal))) : list (N * (jsstring * JsVal)) :=
  match l with
  | [] => [(i, kv)]
  | (j, x) :: t =>
      if (i <? j)%N then (i, kv) :: l else (j, x) :: insert_index i kv t
  end.

(** The order in which an object lists its own properties: the array
    indices in ascending order, then the other keys in the order of their
    creation. *)
Definition own_property_order (fields : list (jsstring * JsVal))
  : list (jsstring * JsVal) :=
  map snd
      (fold_right (fun kv acc => match array_index (fst kv) with
                                 | Some i => insert_index i kv acc
                                 | None => acc
                                 end) [] fields)
  ++ filter (fun kv => match array_index (fst kv) with
                       | Some _ => false
                       | None => true
                       end) fields.

(** The object of a list of members: a later member with the same key
    replaces the value of the earlier one, at the place of the earlier
    one. *)
Definition object_of_members (ms : list (jsstring * JsVal)) : JsVal :=
  JObj (own_property_order
          (fold_left (fun fields kv => obj_set fields (fst kv) (snd kv))
                     ms [])).

Fixpoint parse_value (fuel : nat) (ts : list token)
  : option (JsVal * list token) :=
  match fuel with
  | O => None
  | S f =>
      match ts with
      | TNull :: r => Some (JNull, r)
      | TTrue :: r => Some (JBool true, r)
      | TFalse :: r => Some (JBool false, r)
      | TNum m e :: r => Some (JNum m e, r)
      | TStr s :: r => Some (JStr s, r)
      | TLBrack :: TRBrack :: r => Some (JArr [], r)
      | TLBrack :: r =>
          match parse_elements (parse_value f) f r with
          | Some (vs, r') => Some (JArr vs, r')
          | None => None
          end
      | TLBrace :: TRBrace :: r => Some (JObj [], r)
      | TLBrace :: r =>
          match parse_members (parse_value f) f r with
          | Some (ms, r') => Some (object_of_members ms, r')
          | None => None
          end
      | _ => None
      end
  end.

(** [JSON.parse(text)]: [None] stands for the [SyntaxError] it throws.
    The fuel bounds the nesting depth and the number of elements of one
    array or object, both smaller than the number of tokens. *)
Definition JSON_parse (text : jsstring) : option JsVal :=
  match lex LIdle text with
  | Some ts =>
      match parse_value (S (List.length ts)) ts with
      | Some (v, []) => Some v
      | _ => None
      end
  | None => None
  end.

Definition JSON_parse_throw (text : jsstring) : result JsVal :=
  match JSON_parse text with
  | Some v => Ok v
  | None => Throw SyntaxError
  end.

(* ================================================================== *)
(** * The collaborators: store, model client, request *)
(* ================================================================== *)

(** A row of table [role_recommendations]. *)
Record Row : Type := mkRow {
  user_id : JsVal;
  created_at : Z;
  role_title : JsVal;
  description : JsVal;
  why_it_fits_professionally : JsVal;
  why_it_fits_personally : JsVal
}.

(** The object handed to [insert]; the store adds [created_at]. *)
Record Payload : Type := mkPayload {
  p_user_id : JsVal;
  p_role_title : JsVal;
  p_description : JsVal;
  p_why_it_fits_professionally : JsVal;
  p_why_it_fits_personally : JsVal
}.

(** A property whose value is [undefined] is not sent to the store: the
    column is [NULL]. *)
Definition column (v : JsVal) : JsVal :=
  match v with
  | JUndef => JNull
  | _ => v
  end.

Definition stored (p : Payload) (stamp : Z) : Row :=
  {| user_id := p_user_id p;
     created_at := stamp;
     role_title := column (p_role_title p);
     description := column (p_description p);
     why_it_fits_professionally := column (p_why_it_fits_professionally p);
     why_it_fits_personally := column (p_why_it_fits_personally p) |}.

Record Message : Type := mkMessage {
  role : jsstring;
  content : jsstring
}.

(** Every call that leaves the process. *)
Inductive Event : Type :=
| SelectProfile (userId : JsVal)
| SelectRecommendations (userId : JsVal)
| ChatCompletion (messages : list Message)
| InsertRecommendation (payload : Payload).

(** What the collaborators answer is outside the control of the handler:
    the environment fixes it.  A Supabase query resolves to a pair of
    [data] and [error], or rejects; the model service, left alone, takes
    [model_latency] milliseconds to resolve to a response with a [body]
    or to reject (transport failure). *)
Inductive StoreReply : Type :=
| StoreThrows (e : JsError)
| StoreReturns (data error : JsVal).

Inductive SelectFate : Type :=
| SelectAnswers
| SelectFails (error : JsVal)
| SelectThrows (e : JsError).

Inductive InsertFate : Type :=
| InsertStores (stamp : Z)
| InsertFails (error : JsVal)
| InsertThrows (e : JsError).

Inductive ModelOutcome : Type :=
| ModelRejects (e : JsError)
| ModelResponds (response_body : JsVal).

Record Env : Type := mkEnv {
  profile_reply : JsVal -> StoreReply;
  select_fate : SelectFate;
  insert_fate : nat -> InsertFate;    (* by position in the save loop *)
  model_outcome : list Message -> ModelOutcome;
  model_latency : list Message -> Z
}.

(** The state a request can change or leave a mark in. *)
Record World : Type := mkWorld {
  role_recommendations : list Row;
  trace : list Event
}.

(** Asynchronous code that may throw: state passing with a result. *)
Definition M (A : Type) : Type := World -> result A * World.

Definition ret {A} (a : A) : M A := fun w => (Ok a, w).

Definition bind {A B} (m : M A) (k : A -> M B) : M B :=
  fun w =>
    match m w with
    | (Ok a, w') => k a w'
    | (Throw e, w') => (Throw e, w')
    end.

Definition lift {A} (r : result A) : M A := fun w => (r, w).

(** [try { m } catch (e) { handler e }] *)
Definition try_catch {A} (m : M A) (handler : JsError -> M A) : M A :=
  fun w =>
    match m w with
    | (Ok a, w') => (Ok a, w')
    | (Throw e, w') => handler e w'
    end.

Declare Scope M_scope.
Delimit Scope M_scope with M.
Notation "x <- m ;; k" := (bind m (fun x => k))
  (at level 61, m at next level, right associativity) : M_scope.

Definition log (ev : Event) : M unit :=
  fun w => (Ok tt, {| role_recommendations := role_recommendations w;
                      trace := trace w ++ [ev] |}).

(** ** Table [role_recommendations] *)

Fixpoint insert_desc (r : Row) (l : list Row) : list Row :=
  match l with
  | [] => [r]
  | x :: t =>
      if (created_at x <? created_at r)%Z then r :: l
      else x :: insert_desc r t
  end.

(** [.order("created_at", { ascending: false })] *)
Definition order_desc (l : list Row) : list Row :=
  fold_right insert_desc [] l.

(** [.eq("user_id", userId)] *)
Definition rows_of_user (rows : list Row) (userId : JsVal) : list Row :=
  filter (fun r => JsVal_eqb (user_id r) userId) rows.

(** [.select("*").eq("user_id", userId).order(...).limit(3)] *)
Definition select_recent (rows : list Row) (userId : JsVal) : list Row :=
  firstn 3 (order_desc (rows_of_user rows userId)).

(** [supabase.from("profiles").select("discovery_data").eq("id", userId)
    .single()] *)
Definition select_profile (env : Env) (userId : JsVal) : M (JsVal * JsVal) :=
  (_ <- log (SelectProfile userId);;
   match profile_reply env userId with
   | StoreThrows e => lift (Throw e)
   | StoreReturns data error => ret (data, error)
   end)%M.

(** The query on [role_recommendations]: [data] is [null] ([None]) when
    the store reports an error. *)
Definition select_recommendations (env : Env) (userId : JsVal)
  : M (option (list Row) * JsVal) :=
  (_ <- log (SelectRecommendations userId);;
   match select_fate env with
   | SelectAnswers =>
       fun w => (Ok (Some (select_recent (role_recommendations w) userId),
                     JNull), w)
   | SelectFails error => ret (None, error)
   | SelectThrows e => lift (Throw e)
   end)%M.

(** [supabase.from("role_recommendations").insert(payload)]: the [i]-th
    insertion of the request.  An error reported by the store comes back
    in the reply, which the handler does not read. *)
Definition insert_recommendation (env : Env) (i : nat) (payload : Payload)
  : M unit :=
  (_ <- log (InsertRecommendation payload);;
   match insert_fate env i with
   | InsertStores stamp =>
       fun w => (Ok tt,
                 {| role_recommendations :=
                      role_recommendations w ++ [stored payload stamp];
                    trace := trace w |})
   | InsertFails _ => ret tt
   | InsertThrows e => lift (Throw e)
   end)%M.

(** ** The model client and the timer *)

(** The signal of an [AbortController] on which a timer calls [abort()]:
    [setTimeout(() => controller.abort(), delay)] aborts it [delay]
    milliseconds from now, unless [clearTimeout] comes first. *)
Record AbortSignal : Type := mkAbortSignal { aborts_after : Z }.

(** The request parameters of the REST client: the [body], of which
    [messages] varies ([max_tokens], [model] and [temperature] are
    constants of the call), and the [abortSignal] the client listens
    to. *)
Record RequestParameters : Type := mkRequestParameters {
  body_messages : list Message;
  abortSignal : option AbortSignal
}.

(** The object [{ signal: controller.signal }]. *)
Record SignalOption : Type := mkSignalOption { signal : AbortSignal }.

(** [client.path("chat/completions").post(options)].  The method has one
    parameter, the request parameters; an argument after it is not read.
    The call settles with the outcome of the service after its latency,
    unless [options.abortSignal] is aborted before: then it rejects with
    an [AbortError].  The result is [response.body]. *)
Definition post (env : Env) (options : RequestParameters)
    (unread : option SignalOption) : M JsVal :=
  (_ <- log (ChatCompletion (body_messages options));;
   match abortSignal options with
   | Some listened =>
       if (aborts_after listened
           <? model_latency env (body_messages options))%Z
       then lift (Throw AbortError)
       else
         match model_outcome env (body_messages options) with
         | ModelRejects e => lift (Throw e)
         | ModelResponds response_body => ret response_body
         end
   | None =>
       match model_outcome env (body_messages options) with
       | ModelRejects e => lift (Throw e)
       | ModelResponds response_body => ret response_body
       end
   end)%M.

(** Lines 127 to 139 of the source: a controller, a timer of 5 seconds
    that aborts it, the call with [{ body }] as its first argument and
    [{ signal: controller.signal }] as its second, and [clearTimeout]
    once the call has settled. *)
Definition chat_completions (env : Env) (messages : list Message) : M JsVal :=
  let controller_signal := {| aborts_after := 5000 |} in
  post env {| body_messages := messages; abortSignal := None |}
       (Some {| signal := controller_signal |}).

(** The request: the text of its body; [request.json()] parses it. *)
Record NextRequest : Type := mkRequest { body_text : jsstring }.

Definition request_json (request : NextRequest) : result JsVal :=
  JSON_parse_throw (body_text request).

Record Response : Type := mkResponse { status : Z; body : JsVal }.

(** [NextResponse.json(body, { status })]; the status defaults to 200. *)
Definition NextResponse_json (b : JsVal) (st : option Z) : Response :=
  {| status := match st with Some n => n | None => 200%Z end; body := b |}.

(* ================================================================== *)
(** * The route *)
(* ================================================================== *)

Definition recommendation (rt d pro per : JsVal) : JsVal :=
  JObj [(codes "role_title", rt);
        (codes "description", d);
        (codes "why_it_fits_professionally", pro);
        (codes "why_it_fits_personally", per)].

Definition literal_recommendation (rt d pro per : string) : JsVal :=
  recommendation (JStr (codes rt)) (JStr (codes d))
                 (JStr (codes pro)) (JStr (codes per)).

(** Default recommendations to use as fallback *)
Definition defaultRecommendations : list JsVal :=
  [ literal_recommendation
      "Software Developer"
      "Software developers create applications and systems that run on computers and other devices. They design, code, test, and maintain software solutions for various problems and needs."
      "Your technical skills and problem-solving abilities would make you a strong candidate for software development roles. Your experience with analytical thinking aligns well with the core competencies needed."
      "Your interest in creating solutions and solving complex problems makes software development a fulfilling career path that matches your personal interests.";
    literal_recommendation
      "Data Analyst"
      "Data analysts examine datasets to identify trends and draw conclusions. They present findings to help organizations make better business decisions."
      "Your analytical thinking skills and attention to detail would serve you well as a data analyst. This role leverages your abilities to find patterns and insights in complex information."
      "Your curiosity and interest in uncovering insights from information makes data analysis a personally satisfying career that aligns with your values.";
    literal_recommendation
      "Product Manager"
      "Product managers oversee the development of products from conception to launch. They define product strategy, gather requirements, and coordinate with different teams to ensure successful delivery."
      "Your combination of technical understanding and strategic planning abilities makes product management a good professional fit. This role utilizes both your analytical and communication skills."
      "Your interest in both the business and technical aspects of products, along with your desire to create meaningful solutions, aligns well with product management." ].

(** [NextResponse.json({ recommendations })] *)
Definition respond (recommendations : list JsVal) : Response :=
  NextResponse_json
    (JObj [(codes "recommendations", JArr recommendations)]) None.

(** [NextResponse.json({ error: "Missing userId in request" },
    { status: 400 })] *)
Definition bad_request : Response :=
  NextResponse_json
    (JObj [(codes "error", JStr (codes "Missing userId in request"))])
    (Some 400%Z).

(** The projection of a cached row ([existingRecommendations.map]). *)
Definition format_row (item : Row) : JsVal :=
  recommendation (role_title item) (description item)
                 (why_it_fits_professionally item)
                 (why_it_fits_personally item).

Record Facet : Type := mkFacet { selected : JsVal; additional_info : JsVal }.

(** One entry of [formattedData]:
    [{ selected: discoveryData.f.selected || [],
       additional_info: discoveryData.f.additional_info || '' }] *)
Definition facet (discoveryData : JsVal) (name : string) : result Facet :=
  (f <- get_prop discoveryData name;;
   sel <- get_prop f "selected";;
   f' <- get_prop discoveryData name;;
   info <- get_prop f' "additional_info";;
   Ok {| selected := js_or sel (JArr []);
         additional_info := js_or info (JStr []) |})%result.

Definition system_prompt : jsstring :=
  codes "Generate exactly 3 career roles as a JSON array based on the user's profile. Each object should have: role_title, description, why_it_fits_professionally, why_it_fits_personally. Be concise. Format: [{...},{...},{...}].".

(** The user message: a template literal over three lines, the second and
    third indented by nine blanks. *)
Definition user_prompt (skills_text interests_text values_text : jsstring)
  : jsstring :=
  codes "Skills: " ++ skills_text
  ++ 10%N :: codes "         Interests: " ++ interests_text
  ++ 10%N :: codes "         Values: " ++ values_text.

(** [formattedData] and [messages] *)
Definition prepare_messages (discoveryData : JsVal) : result (list Message) :=
  (skills <- facet discoveryData "skills";;
   values <- facet discoveryData "values";;
   interests <- facet discoveryData "interests";;
   skills_text <- js_join (selected skills) (codes ", ");;
   interests_text <- js_join (selected interests) (codes ", ");;
   values_text <- js_join (selected values) (codes ", ");;
   Ok [ {| role := codes "system"; content := system_prompt |};
        {| role := codes "user";
           content := user_prompt skills_text interests_text values_text |} ]
  )%result.

(** [response.body.choices[0].message.content] *)
Definition response_content (response_body : JsVal) : result JsVal :=
  (choices <- get_prop response_body "choices";;
   first <- get_index choices 0;;
   message <- get_prop first "message";;
   get_prop message "content")%result.

(** Removal of a markdown code fence. *)
Definition strip_fences (jsonString : jsstring) : jsstring :=
  if startsWith jsonString (codes "```json") then
    replace (replace jsonString re_fence_json []) re_fence_close []
  else if startsWith jsonString (codes "```") then
    replace (replace jsonString re_fence []) re_fence_close []
  else jsonString.

(** Extraction of the JSON array part. *)
Definition extract_array (jsonString : jsstring) : jsstring :=
  match js_match jsonString re_json_array with
  | Some m => m
  | None => jsonString
  end.

(** The three cleaning steps applied to the text of the reply. *)
Definition clean (responseContent : jsstring) : jsstring :=
  extract_array (strip_fences (trim responseContent)).

(** "Ensure it's an array" *)
Definition ensure_array (v : JsVal) : result (list JsVal) :=
  match v with
  | JArr items => Ok items
  | _ =>
      if typeof_object v then Ok [v]
      else Throw (Error "Response is not an array or object")
  end.

(** The body of the inner [try]: from the response to the parsed list. *)
Definition parse_reply (response_body : JsVal) : result (list JsVal) :=
  (responseContent <- response_content response_body;;
   trimmed <- js_trim responseContent;;
   parsed <- JSON_parse_throw (extract_array (strip_fences trimmed));;
   ensure_array parsed)%result.

(** The inner [try]/[catch]: the handler logs the content of the response
    once more, reading it through the same property chain, and assigns
    the fallback. *)
Definition roleRecommendations_of (response_body : JsVal)
  : result (list JsVal) :=
  match parse_reply response_body with
  | Ok items => Ok items
  | Throw _ =>
      (_ <- response_content response_body;;
       Ok defaultRecommendations)%result
  end.

Definition payload_of (userId rec : JsVal) : result Payload :=
  (rt <- get_prop rec "role_title";;
   d <- get_prop rec "description";;
   pro <- get_prop rec "why_it_fits_professionally";;
   per <- get_prop rec "why_it_fits_personally";;
   Ok {| p_user_id := userId;
         p_role_title := rt;
         p_description := d;
         p_why_it_fits_professionally := pro;
         p_why_it_fits_personally := per |})%result.

(** [for (const rec of roleRecommendations) await insert({...})] *)
Fixpoint save_loop (env : Env) (userId : JsVal) (i : nat)
    (recs : list JsVal) : M unit :=
  match recs with
  | [] => ret tt
  | rec :: rest =>
      (payload <- lift (payload_of userId rec);;
       _ <- insert_recommendation env i payload;;
       save_loop env userId (S i) rest)%M
  end.

(** "Continue even if saving fails" *)
Definition save (env : Env) (userId : JsVal) (recs : list JsVal) : M unit :=
  try_catch (save_loop env userId 0 recs) (fun saveError => ret tt).

(** The [try] around the model call, lines 125 to 210 of the source. *)
Definition generate (env : Env) (userId : JsVal) (messages : list Message)
  : M Response :=
  try_catch
    (response_body <- chat_completions env messages;;
     if negb (truthy response_body) then ret (respond defaultRecommendations)
     else
       (roleRecommendations <- lift (roleRecommendations_of response_body);;
        _ <- save env userId roleRecommendations;;
        ret (respond roleRecommendations)))%M
    (fun apiError => ret (respond defaultRecommendations)).

(** [const { userId } = await request.json()]: destructuring throws on
    [null]. *)
Definition userId_of (request : NextRequest) : result JsVal :=
  (parsed <- request_json request;;
   get_prop parsed "userId")%result.

(** [!recError && existingRecommendations &&
    existingRecommendations.length > 0] *)
Definition cache_hit (existingRecommendations : option (list Row))
    (recError : JsVal) : bool :=
  negb (truthy recError)
  && match existingRecommendations with
     | Some rows => (0 <? List.length rows)%nat
     | None => false
     end.

Definition rows_of (data : option (list Row)) : list Row :=
  match data with
  | Some rows => rows
  | None => []
  end.

(** The body of the outer [try]. *)
Definition handle (env : Env) (request : NextRequest) : M Response :=
  (userId <- lift (userId_of request);;
   if negb (truthy userId) then ret bad_request
   else
     (profile <- select_profile env userId;;
      let (profileData, profileError) := profile in
      if truthy profileError then ret (respond defaultRecommendations)
      else
        (discoveryData <- lift (get_prop_opt profileData "discovery_data");;
         if negb (truthy discoveryData)
         then ret (respond defaultRecommendations)
         else
           (existing <- select_recommendations env userId;;
            let (existingRecommendations, recError) := existing in
            if cache_hit existingRecommendations recError
            then ret (respond (map format_row
                                   (rows_of existingRecommendations)))
            else
              (messages <- lift (prepare_messages discoveryData);;
               generate env userId messages)))))%M.

(** [export async function POST(request)] *)
Definition POST (env : Env) (request : NextRequest) (w : World)
  : Response * World :=
  match handle env request w with
  | (Ok response, w') => (response, w')
  | (Throw error, w') => (respond defaultRecommendations, w')
  end.

(* ================================================================== *)
(** * Vocabulary of the statements *)
(* ================================================================== *)

Definition recommendation_keys : list string :=
  ["role_title"; "description"; "why_it_fits_professionally";
   "why_it_fits_personally"]%string.

(** An object on which the four keys of a recommendation are present. *)
Definition has_recommendation_keys (v : JsVal) : bool :=
  match v with
  | JObj fields =>
      forallb (fun k => match lookup (codes k) fields with
                        | Some _ => true
                        | None => false
                        end) recommendation_keys
  | _ => false
  end.

Definition is_object (v : JsVal) : bool :=
  match v with
  | JObj _ => true
  | _ => false
  end.

(** At least one element, and the four keys on every element. *)
Definition well_shaped (recs : list JsVal) : bool :=
  (1 <=? List.length recs)%nat && forallb has_recommendation_keys recs.

(** Punctuation tokens, and the tokens of a value between braces. *)
Definition is_punct (t : token) : bool :=
  match t with
  | TLBrack | TRBrack | TLBrace | TRBrace | TComma | TColon => true
  | _ => false
  end.

Definition framed_object (c : list token) : Prop :=
  exists mid, c = TLBrace :: mid ++ [TRBrace].

(** A value parser takes a prefix of the tokens, and the prefix of an
    object is framed by braces. *)
Definition consumes (pv : list token -> option (JsVal * list token)) : Prop :=
  forall ts v r,
    pv ts = Some (v, r) ->
    exists c, ts = c ++ r /\ (is_object v = true -> framed_object c).

(** The tokens of the JSON text of a value ([undefined] written as
    [null], as [JSON.stringify] does inside an array), and the value read
    back from them. *)
Fixpoint join_tokens (parts : list (list token)) : list token :=
  match parts with
  | [] => []
  | [part] => part
  | part :: rest => part ++ TComma :: join_tokens rest
  end.

Fixpoint tokens_of (v : JsVal) : list token :=
  match v with
  | JUndef | JNull => [TNull]
  | JBool true => [TTrue]
  | JBool false => [TFalse]
  | JNum m e => [TNum m e]
  | JStr s => [TStr s]
  | JArr items => TLBrack :: join_tokens (map tokens_of items) ++ [TRBrack]
  | JObj fields =>
      TLBrace
        :: join_tokens
             (map (fun kv => TStr (fst kv) :: TColon :: tokens_of (snd kv))
                  fields)
        ++ [TRBrace]
  end.

(** The tokens a value can start with. *)
Definition starts_value (t : token) : bool :=
  match t with
  | TRBrack | TRBrace | TComma | TColon => false
  | _ => true
  end.

Fixpoint read_back (v : JsVal) : JsVal :=
  match v with
  | JUndef => JNull
  | JArr items => JArr (map read_back items)
  | JObj fields =>
      object_of_members (map (fun kv => (fst kv, read_back (snd kv))) fields)
  | _ => v
  end.

(** Where the list of a response comes from. *)
Inductive Origin (env : Env) (request : NextRequest) (w : World)
  : list JsVal -> Prop :=
| FromFallback :
    Origin env request w defaultRecommendations
| FromCache userId :
    userId_of request = Ok userId ->
    select_recent (role_recommendations w) userId <> [] ->
    Origin env request w
      (map format_row (select_recent (role_recommendations w) userId))
| FromModel messages response_body text parsed recs :
    model_outcome env messages = ModelResponds response_body ->
    response_content response_body = Ok (JStr text) ->
    JSON_parse (clean text) = Some parsed ->
    ensure_array parsed = Ok recs ->
    Origin env request w recs.

(** The order of the answer of the cache query. *)
Definition newest_first (rows : list Row) : Prop :=
  StronglySorted (fun a b => (created_at b <= created_at a)%Z) rows.

Definition is_insert (ev : Event) : bool :=
  match ev with
  | InsertRecommendation _ => true
  | _ => false
  end.

Definition is_model_call (ev : Event) : bool :=
  match ev with
  | ChatCompletion _ => true
  | _ => false
  end.

(** The world after more calls were logged, the table untouched. *)
Definition logged (w : World) (events : list Event) : World :=
  {| role_recommendations := role_recommendations w;
     trace := trace w ++ events |}.

(** ** Concrete requests, profiles and replies *)

(** JSON text written with apostrophes in place of double quotes. *)
Definition json_text (s : string) : jsstring :=
  map (fun c => if (c =? 39)%N then 34%N else c) (codes s).

Definition request_with (text : string) : NextRequest :=
  {| body_text := json_text text |}.

(** A response body whose first choice carries [text]. *)
Definition chat_response (text : jsstring) : JsVal :=
  JObj [(codes "choices",
         JArr [JObj [(codes "message",
                      JObj [(codes "content", JStr text)])]])].

Definition tags (names : list string) : JsVal :=
  JObj [(codes "selected", JArr (map (fun n => JStr (codes n)) names))].

Definition full_profile : JsVal :=
  JObj [(codes "skills", tags ["coding"%string]);
        (codes "values", tags ["impact"%string]);
        (codes "interests", tags ["data"%string])].

(** A profile whose [skills] facet is absent. *)
Definition partial_profile : JsVal :=
  JObj [(codes "values", tags ["impact"%string]);
        (codes "interests", tags ["data"%string])].

(** A store that holds [discovery_data] for every user and accepts every
    insertion, and a model with a fixed outcome. *)
Definition scenario (discovery_data : JsVal) (outcome : ModelOutcome) : Env :=
  {| profile_reply := fun _ =>
       StoreReturns (JObj [(codes "discovery_data", discovery_data)]) JNull;
     select_fate := SelectAnswers;
     insert_fate := fun i => InsertStores (Z.of_nat i);
     model_outcome := fun _ => outcome;
     model_latency := fun _ => 1200%Z |}.

(** The same collaborators with a model that takes [ms] milliseconds. *)
Definition delayed (ms : Z) (env : Env) : Env :=
  {| profile_reply := profile_reply env;
     select_fate := select_fate env;
     insert_fate := insert_fate env;
     model_outcome := model_outcome env;
     model_latency := fun _ => ms |}.

(** The messages built from [full_profile]. *)
Definition full_profile_messages : list Message :=
  [ {| role := codes "system"; content := system_prompt |};
    {| role := codes "user";
       content := user_prompt (codes "coding") (codes "data")
                              (codes "impact") |} ].

(** A reply wrapped in prose and a code fence, and a reply that is only
    a fenced block. *)
Definition bare_reply : jsstring :=
  json_text "[{'role_title':'Chef'},{'role_title':'Pilot'}]".

Definition prose_reply : jsstring :=
  codes "Here you go:" ++ 10%N :: codes "```json" ++ 10%N :: bare_reply
  ++ 10%N :: codes "```".

Definition fenced_reply : jsstring :=
  codes "```json" ++ 10%N :: bare_reply ++ 10%N :: codes "```".

Definition empty_world : World :=
  {| role_recommendations := []; trace := [] |}.

Definition user1 : JsVal := JStr (codes "u1").

Definition sample_row (owner : JsVal) (stamp : Z) (title : string) : Row :=
  {| user_id := owner; created_at := stamp;
     role_title := JStr (codes title); description := JStr [];
     why_it_fits_professionally := JStr [];
     why_it_fits_personally := JStr [] |}.

(** Four rows of [user1] in no particular order, and a row of another
    user. *)
Definition stocked_world : World :=
  {| role_recommendations :=
       [ sample_row user1 10 "Chef";
         sample_row user1 40 "Pilot";
         sample_row (JStr (codes "u2")) 50 "Nurse";
         sample_row user1 30 "Baker";
         sample_row user1 20 "Tailor" ];
     trace := [] |}.

(* ================================================================== *)
(** * The sign-in callback: [app/auth/callback/page.tsx] *)
(* ================================================================== *)

(** [supabase.auth.getSession()] resolves to a value or rejects; the
    query on [profiles] answers as in the route. *)
Inductive SessionReply : Type :=
| SessionRejects (e : JsError)
| SessionResolves (reply : JsVal).

Record AuthEnv : Type := mkAuthEnv {
  session_reply : SessionReply;
  flags_reply : JsVal -> StoreReply
}.

(** What the effect of the page does that can be seen from outside. *)
Inductive PageEvent : Type :=
| GetSession
| SelectFlags (id : JsVal)
| RouterPush (route : string).

(** The calls made so far and the [isLoading] state of the component. *)
Record PageState : Type := mkPageState {
  page_calls : list PageEvent;
  isLoading : bool
}.

Definition Page (A : Type) : Type := PageState -> result A * PageState.

Definition page_ret {A} (a : A) : Page A := fun s => (Ok a, s).

Definition page_bind {A B} (m : Page A) (k : A -> Page B) : Page B :=
  fun s =>
    match m s with
    | (Ok a, s') => k a s'
    | (Throw e, s') => (Throw e, s')
    end.

Definition page_lift {A} (r : result A) : Page A := fun s => (r, s).

Declare Scope page_scope.
Delimit Scope page_scope with page.
Notation "x <- m ;; k" := (page_bind m (fun x => k))
  (at level 61, m at next level, right associativity) : page_scope.

Definition page_log (ev : PageEvent) : Page unit :=
  fun s => (Ok tt, {| page_calls := page_calls s ++ [ev];
                      isLoading := isLoading s |}).

(** [try { m } catch (error) { handler } finally { finalizer }] *)
Definition try_catch_finally {A} (m : Page A) (handler : JsError -> Page A)
    (finalizer : Page unit) : Page A :=
  fun s =>
    let (r, s1) :=
      match m s with
      | (Ok a, s') => (Ok a, s')
      | (Throw e, s') => handler e s'
      end in
    match finalizer s1 with
    | (Ok _, s2) => (r, s2)
    | (Throw e, s2) => (Throw e, s2)
    end.

Definition router_push (route : string) : Page unit :=
  page_log (RouterPush route).

Definition setIsLoading (b : bool) : Page unit :=
  fun s => (Ok tt, {| page_calls := page_calls s; isLoading := b |}).

Definition getSession (env : AuthEnv) : Page JsVal :=
  (_ <- page_log GetSession;;
   match session_reply env with
   | SessionRejects e => page_lift (Throw e)
   | SessionResolves reply => page_ret reply
   end)%page.

(** [supabase.from("profiles").select("discovery_done, role_selected")
    .eq("id", id).single()] *)
Definition select_flags (env : AuthEnv) (id : JsVal) : Page (JsVal * JsVal) :=
  (_ <- page_log (SelectFlags id);;
   match flags_reply env id with
   | StoreThrows e => page_lift (Throw e)
   | StoreReturns data error => page_ret (data, error)
   end)%page.

(** [const handleRedirect = async () => { ... }] *)
Definition handleRedirect (env : AuthEnv) : Page unit :=
  try_catch_finally
    (reply <- getSession env;;
     data <- page_lift (get_prop reply "data");;
     session <- page_lift (get_prop data "session");;
     user <- page_lift (get_prop_opt session "user");;
     if truthy user then
       (user' <- page_lift (get_prop session "user");;
        id <- page_lift (get_prop user' "id");;
        profile <- select_flags env id;;
        let (profileData, profileError) := profile in
        if truthy profileError then router_push "/dashboard"
        else
          (role_selected <- page_lift (get_prop_opt profileData
                                                    "role_selected");;
           if truthy role_selected then router_push "/dashboard"
           else
             (discovery_done <- page_lift (get_prop_opt profileData
                                                        "discovery_done");;
              if truthy discovery_done then router_push "/roles"
              else router_push "/discovery")))
     else router_push "/")%page
    (fun error => router_push "/")
    (setIsLoading false).

(** The component mounts with [useState(true)] and no call made. *)
Definition mounted : PageState := {| page_calls := []; isLoading := true |}.

(** The page after the effect has run. *)
Definition AuthCallbackPage (env : AuthEnv) : PageState :=
  snd (handleRedirect env mounted).

Fixpoint pushed_routes (calls : list PageEvent) : list string :=
  match calls with
  | [] => []
  | RouterPush route :: rest => route :: pushed_routes rest
  | _ :: rest => pushed_routes rest
  end.

Definition is_flags_query (ev : PageEvent) : bool :=
  match ev with
  | SelectFlags _ => true
  | _ => false
  end.

(** The session object of a signed-in user, and a profile row. *)
Definition session_of (id : string) : JsVal :=
  JObj [(codes "data",
         JObj [(codes "session",
                JObj [(codes "user",
                       JObj [(codes "id", JStr (codes id))])])])].

Definition no_session : JsVal :=
  JObj [(codes "data", JObj [(codes "session", JNull)])].

Definition flags_row (discovery_done role_selected : bool) : JsVal :=
  JObj [(codes "discovery_done", JBool discovery_done);
        (codes "role_selected", JBool role_selected)].

Definition signed_in (row : JsVal) : AuthEnv :=
  {| session_reply := SessionResolves (session_of "u1");
     flags_reply := fun _ => StoreReturns row JNull |}.

(** A session with a user was found, and [id] is [session.user.id]. *)
Definition SignedIn (env : AuthEnv) (id : JsVal) : Prop :=
  exists reply data session user,
    session_reply env = SessionResolves reply
    /\ get_prop reply "data" = Ok data
    /\ get_prop data "session" = Ok session
    /\ get_prop_opt session "user" = Ok user
    /\ truthy user = true
    /\ get_prop user "id" = Ok id.

(** The profile of [id] was read without error, with these two flags. *)
Definition ProfileFlags (env : AuthEnv) (id role_selected discovery_done : JsVal)
  : Prop :=
  exists row error,
    flags_reply env id = StoreReturns row error
    /\ truthy error = false
    /\ get_prop_opt row "role_selected" = Ok role_selected
    /\ get_prop_opt row "discovery_done" = Ok discovery_done.

(** The page of the three onboarding stages. *)
Definition stage_route (role_selected discovery_done : JsVal) : string :=
  if truthy role_selected then "/dashboard"
  else if truthy discovery_done then "/roles"
  else "/discovery".

(** The state of the page after the effect. *)
Definition redirected (calls : list PageEvent) : PageState :=
  {| page_calls := calls; isLoading := false |}.

(* ================================================================== *)
(** * Vocabulary of the further statements *)
(* ================================================================== *)

(** The world after rows were appended and calls logged. *)
Definition grown (w : World) (added : list Row) (calls : list Event) : World :=
  {| role_recommendations := role_recommendations w ++ added;
     trace := trace w ++ calls |}.

(** Equality of two worlds written with [logged] and [grown]. *)
Ltac same_world :=
  unfold logged, grown; cbn [role_recommendations trace];
  rewrite ?app_nil_r, <- ?app_assoc; reflexivity.

(** An insertion for a given user. *)
Definition inserts_for (userId : JsVal) (ev : Event) : Prop :=
  exists payload,
    ev = InsertRecommendation payload /\ p_user_id payload = userId.

(** The calls of one run of the route, for the user of the request. *)
Inductive RunCalls (userId : JsVal) : list Event -> Prop :=
| ProfileOnly :
    RunCalls userId [SelectProfile userId]
| ProfileAndCache :
    RunCalls userId [SelectProfile userId; SelectRecommendations userId]
| ThroughModel messages inserts :
    Forall (inserts_for userId) inserts ->
    RunCalls userId
      ([SelectProfile userId; SelectRecommendations userId;
        ChatCompletion messages] ++ inserts).

(** The rows that storing [payloads] adds, the [i]-th insertion stamped
    [stamp i]. *)
Fixpoint stamped (stamp : nat -> Z) (i : nat) (payloads : list Payload)
  : list Row :=
  match payloads with
  | [] => []
  | p :: rest => stored p (stamp i) :: stamped stamp (S i) rest
  end.

(** A stored payload as the cache branch answers it. *)
Definition cached_form (p : Payload) : JsVal :=
  recommendation (column (p_role_title p)) (column (p_description p))
                 (column (p_why_it_fits_professionally p))
                 (column (p_why_it_fits_personally p)).

(** [discoveryData.f.selected] *)
Definition selected_of (discoveryData : JsVal) (name : string)
  : result JsVal :=
  (f <- get_prop discoveryData name;;
   get_prop f "selected")%result.

(** A value without an object that has an own [toString] property, at
    any depth of nested arrays. *)
Fixpoint printable (v : JsVal) : bool :=
  match v with
  | JArr items => forallb printable items
  | JObj fields =>
      match lookup (codes "toString") fields with
      | Some _ => false
      | None => true
      end
  | _ => true
  end.

(** A facet from which the prompt can be built: present, with [selected]
    falsy or an array of printable values. *)
Definition usable_facet (discoveryData : JsVal) (name : string) : Prop :=
  exists sel,
    selected_of discoveryData name = Ok sel
    /\ (truthy sel = false
        \/ exists items, sel = JArr items /\ forallb printable items = true).

Definition string_tags (names : list jsstring) : JsVal :=
  JArr (map JStr names).

(** How one [selected] value appears in the prompt: nothing when it is
    falsy, the tags joined by a comma and a blank when it is an array of
    strings. *)
Definition rendered (sel : JsVal) (text : jsstring) : Prop :=
  (truthy sel = false /\ text = [])
  \/ exists names, sel = string_tags names
                   /\ text = join_strings (codes ", ") names.

(** A property of every suffix of a text. *)
Fixpoint all_suffixes (P : jsstring -> Prop) (s : jsstring) : Prop :=
  P s /\ match s with
         | [] => True
         | _ :: t => all_suffixes P t
         end.

(** [/\}\s*\]/], the end of the array pattern. *)
Definition re_array_end : regex :=
  RSeq (RChar 125) (RSeq (RStar is_js_ws) (RChar 93)).

(** The text of the pattern [/\[\s*\{[\s\S]*\}\s*\]/]: from a bracket and
    a brace to a brace and a bracket. *)
Definition bracketed (w1 mid w2 : jsstring) : jsstring :=
  91%N :: w1 ++ 123%N :: mid ++ 125%N :: w2 ++ [93%N].

Definition fence_json (body : jsstring) : jsstring :=
  codes "```json" ++ 10%N :: body ++ 10%N :: codes "```".

Definition fence_plain (body : jsstring) : jsstring :=
  codes "```" ++ 10%N :: body ++ 10%N :: codes "```".

(* ================================================================== *)
(** * Properties of the route *)
(* ================================================================== *)

(** ** The built-ins on sample inputs *)

Example JSON_parse_nested :
  JSON_parse (json_text " {'a': [1, -2.50e3, true, null, {'b': 'c'}], 'a': []} ")
  = Some (JObj [(codes "a", JArr [])]).
Proof. reflexivity. Qed.

Example JSON_parse_rejects :
  map JSON_parse
      [[]; codes "nul"; codes "01"; codes "1."; codes "[1,]";
       codes "{'a':1}"; codes "[1] x"; 160%N :: codes "[]"]
  = [None; None; None; None; None; None; None; None].
Proof. reflexivity. Qed.

(** Own properties are listed with the array indices first. *)
Example JSON_parse_orders_the_keys :
  JSON_parse (json_text "{'b':true,'2':null,'01':'x','1':[],'b':false}")
  = Some (JObj [(codes "1", JArr []); (codes "2", JNull);
                (codes "b", JBool false); (codes "01", JStr (codes "x"))]).
Proof. vm_compute. reflexivity. Qed.

(** Numbers are seen through their binary64 value: too small is zero and
    falsy, too large is infinite, and the text is the shortest decimal
    that reads back as the same value. *)
Example numbers_are_binary64 :
  map (fun text => match JSON_parse (codes text) with
                   | Some v => (truthy v, to_string v)
                   | None => (false, Throw SyntaxError)
                   end)
      ["0"; "-0.0"; "1e-400"; "5e-324"; "0.1"; "2.50"; "100"; "1e21";
       "123456789012345680000"; "0.000001"; "1e-7"; "-1.5e-7";
       "9007199254740993"; "0.30000000000000004"; "1e400"]%string
  = map (fun expected => (fst expected, Ok (codes (snd expected))))
        [(false, "0"); (false, "0"); (false, "0"); (true, "5e-324");
         (true, "0.1"); (true, "2.5"); (true, "100"); (true, "1e+21");
         (true, "123456789012345680000"); (true, "0.000001");
         (true, "1e-7"); (true, "-1.5e-7"); (true, "9007199254740992");
         (true, "0.30000000000000004"); (true, "Infinity")]%string.
Proof. vm_compute. reflexivity. Qed.

(** [join] on elements of every kind, and on an object that shadows
    [toString]. *)
Example js_join_elements :
  js_join (JArr [JStr (codes "a"); JNull; JNum 15 (-1); JBool true;
                 JArr [JStr (codes "b"); JUndef; JStr (codes "c")];
                 JObj [(codes "k", JNull)]])
          (codes ", ")
  = Ok (codes "a, , 1.5, true, b,,c, [object Object]")
  /\ js_join (JArr [JStr (codes "a"); JObj [(codes "toString", JNum 1 0)]])
             (codes ", ")
     = Throw TypeError.
Proof. split; vm_compute; reflexivity. Qed.

Example strip_fences_fenced : strip_fences fenced_reply = bare_reply.
Proof. reflexivity. Qed.

Example clean_prose_reply :
  clean prose_reply = bare_reply
  /\ JSON_parse (clean prose_reply) = JSON_parse bare_reply.
Proof. split; reflexivity. Qed.

Example clean_takes_outermost_brackets :
  clean (json_text "{'roles': [{'role_title':'Chef'}]}")
  = json_text "[{'role_title':'Chef'}]".
Proof. reflexivity. Qed.

Example prepare_messages_full_profile :
  prepare_messages full_profile = Ok full_profile_messages.
Proof. reflexivity. Qed.

(** A [userId] that is a number too small for binary64 is zero for the
    handler, and rejected. *)
Example underflowing_userId_is_rejected :
  POST (scenario full_profile (ModelRejects NetworkError))
       (request_with "{'userId':1e-400}") stocked_world
  = (bad_request, stocked_world).
Proof. vm_compute. reflexivity. Qed.

(** ** The save loop and the model call *)

Lemma save_returns env userId recs w :
  exists w', save env userId recs w = (Ok tt, w').
Proof.
  unfold save, try_catch.
  destruct (save_loop env userId 0 recs w) as [[[]|e] w'];
    [exists w' | exists w']; reflexivity.
Qed.

Lemma parse_reply_inv response_body recs :
  parse_reply response_body = Ok recs ->
  exists text parsed,
    response_content response_body = Ok (JStr text)
    /\ JSON_parse (clean text) = Some parsed
    /\ ensure_array parsed = Ok recs.
Proof.
  unfold parse_reply, rbind.
  destruct (response_content response_body) as [c|]; [|discriminate].
  destruct c; cbn [js_trim]; try discriminate.
  unfold JSON_parse_throw, clean.
  destruct (JSON_parse (extract_array (strip_fences (trim s)))) as [v|] eqn:E;
    [|discriminate].
  intros H. exists s, v. auto.
Qed.

(** The [try] around the model call always produces a response: the
    fallback, or the list parsed from the reply. *)
Lemma generate_cases env request w0 userId messages w :
  exists recs w',
    generate env userId messages w = (Ok (respond recs), w')
    /\ Origin env request w0 recs.
Proof.
  unfold generate, try_catch, bind, chat_completions, post, bind, log, lift, ret;
    cbn [abortSignal body_messages].
  destruct (model_outcome env messages) as [e|response_body] eqn:Em.
  - do 2 eexists. split; [reflexivity | constructor].
  - destruct (truthy response_body); cbn [negb].
    2:{ do 2 eexists. split; [reflexivity | constructor]. }
    unfold roleRecommendations_of.
    destruct (parse_reply response_body) as [recs|e] eqn:Ep.
    + destruct (parse_reply_inv _ _ Ep) as (text & parsed & Hc & Hj & He).
      match goal with
      | |- context [save env userId recs ?w1] =>
          destruct (save_returns env userId recs w1) as [w' Hs]; rewrite Hs
      end.
      do 2 eexists. split; [reflexivity | econstructor; eassumption].
    + destruct (response_content response_body) as [c|e']; cbn [rbind].
      * match goal with
        | |- context [save env userId ?r ?w1] =>
            destruct (save_returns env userId r w1) as [w' Hs]; rewrite Hs
        end.
        do 2 eexists. split; [reflexivity | constructor].
      * do 2 eexists. split; [reflexivity | constructor].
Qed.

(** Every run with a truthy [userId] answers with a list of one of the
    three origins. *)
Lemma POST_cases env request w userId :
  userId_of request = Ok userId ->
  truthy userId = true ->
  exists recs w',
    POST env request w = (respond recs, w') /\ Origin env request w recs.
Proof.
  intros Hu Ht.
  unfold POST, handle, bind, lift. rewrite Hu, Ht. cbn [negb].
  unfold select_profile, bind, log, lift, ret.
  destruct (profile_reply env userId) as [e|data error].
  { do 2 eexists. split; [reflexivity | constructor]. }
  destruct (truthy error).
  { do 2 eexists. split; [reflexivity | constructor]. }
  destruct (get_prop_opt data "discovery_data") as [dd|e].
  2:{ do 2 eexists. split; [reflexivity | constructor]. }
  destruct (truthy dd); cbn [negb].
  2:{ do 2 eexists. split; [reflexivity | constructor]. }
  unfold select_recommendations, bind, log, lift, ret.
  destruct (select_fate env) as [|err|e].
  - cbn [role_recommendations].
    destruct (select_recent (role_recommendations w) userId) as [|r rs] eqn:Es;
      unfold cache_hit; cbn [truthy negb andb List.length Nat.ltb Nat.leb rows_of].
    + destruct (prepare_messages dd) as [messages|e].
      * match goal with
        | |- context [generate env userId messages ?w1] =>
            destruct (generate_cases env request w userId messages w1)
              as (recs & w' & Hg & Ho); rewrite Hg
        end.
        eauto.
      * do 2 eexists. split; [reflexivity | constructor].
    + do 2 eexists. split; [reflexivity|].
      rewrite <- Es. apply FromCache; [assumption | rewrite Es; discriminate].
  - unfold cache_hit. rewrite andb_false_r.
    destruct (prepare_messages dd) as [messages|e].
    + match goal with
      | |- context [generate env userId messages ?w1] =>
          destruct (generate_cases env request w userId messages w1)
            as (recs & w' & Hg & Ho); rewrite Hg
      end.
      eauto.
    + do 2 eexists. split; [reflexivity | constructor].
  - do 2 eexists. split; [reflexivity | constructor].
Qed.

Lemma well_shaped_default : well_shaped defaultRecommendations = true.
Proof. reflexivity. Qed.

Lemma has_keys_format_row item : has_recommendation_keys (format_row item) = true.
Proof. reflexivity. Qed.

Lemma well_shaped_cached rows :
  rows <> [] -> well_shaped (map format_row rows) = true.
Proof.
  intros Hne. unfold well_shaped. apply andb_true_intro. split.
  - destruct rows; [contradiction | reflexivity].
  - apply forallb_forall. intros v Hin.
    apply in_map_iff in Hin. destruct Hin as (item & <- & _).
    apply has_keys_format_row.
Qed.

(** C1: for every request carrying a truthy [userId], whatever the
    profile fetch, the model invocation, the parsing of the reply and the
    insertions do, [POST] returns a response of status 200 whose body is
    [{ recommendations: [...] }], the list being the fallback set, the
    cached rows or the list generated from the reply, and the body has no
    [error] key. *)
Theorem POST_always_answers_with_recommendations env request w userId :
  userId_of request = Ok userId ->
  truthy userId = true ->
  let response := fst (POST env request w) in
  status response = 200%Z
  /\ get_prop (body response) "error" = Ok JUndef
  /\ exists recs,
       body response = JObj [(codes "recommendations", JArr recs)]
       /\ Origin env request w recs.
Proof.
  intros Hu Ht.
  destruct (POST_cases env request w userId Hu Ht) as (recs & w' & Hp & Ho).
  rewrite Hp. cbn [fst].
  split; [reflexivity | split; [reflexivity |]].
  exists recs. split; [reflexivity | exact Ho].
Qed.

Lemma POST_always_answers_with_recommendations_witness :
  let env := scenario full_profile (ModelRejects AbortError) in
  let request := request_with "{'userId':'u1'}" in
  userId_of request = Ok user1
  /\ truthy user1 = true
  /\ status (fst (POST env request empty_world)) = 200%Z.
Proof.
  split; [reflexivity | split; [reflexivity |]].
  apply (POST_always_answers_with_recommendations
           (scenario full_profile (ModelRejects AbortError))
           (request_with "{'userId':'u1'}") empty_world user1);
    reflexivity.
Defined.

(** C2, as stated, fails: with a truthy [userId], a reply that parses to
    an empty array is answered with an empty list, a reply that parses to
    [null] with the list [[null]], and an object without the four keys is
    returned without them. *)
Lemma generated_list_is_returned_as_parsed :
  let request := request_with "{'userId':'u1'}" in
  let answer text :=
    fst (POST (scenario full_profile
                 (ModelResponds (chat_response (json_text text))))
              request empty_world) in
  userId_of request = Ok user1
  /\ truthy user1 = true
  /\ answer "[]"%string = respond []
  /\ well_shaped [] = false
  /\ answer "null"%string = respond [JNull]
  /\ well_shaped [JNull] = false
  /\ answer "[{'role_title':'Chef'}]"%string
     = respond [JObj [(codes "role_title", JStr (codes "Chef"))]]
  /\ well_shaped [JObj [(codes "role_title", JStr (codes "Chef"))]] = false.
Proof. vm_compute. repeat split; reflexivity. Qed.

(** C2, amended: for every request with a truthy [userId] and every model
    reply, the response carries a list; the list has at least one element
    and the four keys on every element when it is the fallback set or a
    cached projection, and otherwise it is the parsed reply as it is: the
    array that the cleaned text of the reply parses to, whatever its
    length and the keys of its elements, or the one-element array around
    the object it parses to. *)
Theorem recommendations_well_shaped_or_as_parsed env request w userId :
  userId_of request = Ok userId ->
  truthy userId = true ->
  exists recs,
    fst (POST env request w) = respond recs
    /\ (well_shaped recs = true
        \/ exists messages response_body text parsed,
             model_outcome env messages = ModelResponds response_body
             /\ response_content response_body = Ok (JStr text)
             /\ JSON_parse (clean text) = Some parsed
             /\ match parsed with
                | JArr items => recs = items
                | JObj _ => recs = [parsed]
                | _ => parsed = JNull
                end).
Proof.
  intros Hu Ht.
  destruct (POST_cases env request w userId Hu Ht) as (recs & w' & Hp & Ho).
  exists recs. rewrite Hp. split; [reflexivity |].
  destruct Ho as [| userId' Hu' Hne | messages response_body text parsed recs
                                       Hm Hc Hj He].
  - left. apply well_shaped_default.
  - left. apply well_shaped_cached. assumption.
  - right. exists messages, response_body, text, parsed.
    repeat (split; [assumption |]).
    destruct parsed; cbn in He; try discriminate He;
      try (injection He as <-); reflexivity.
Qed.

Lemma recommendations_well_shaped_or_as_parsed_witness :
  let env := scenario full_profile (ModelResponds (chat_response bare_reply)) in
  let request := request_with "{'userId':'u1'}" in
  userId_of request = Ok user1
  /\ truthy user1 = true
  /\ exists recs,
       fst (POST env request empty_world) = respond recs
       /\ (well_shaped recs = true
           \/ exists messages response_body text parsed,
                model_outcome env messages = ModelResponds response_body
                /\ response_content response_body = Ok (JStr text)
                /\ JSON_parse (clean text) = Some parsed
                /\ match parsed with
                   | JArr items => recs = items
                   | JObj _ => recs = [parsed]
                   | _ => parsed = JNull
                   end).
Proof.
  split; [reflexivity | split; [reflexivity |]].
  apply (recommendations_well_shaped_or_as_parsed
           (scenario full_profile (ModelResponds (chat_response bare_reply)))
           (request_with "{'userId':'u1'}") empty_world user1);
    reflexivity.
Defined.

(** C5, as stated, fails: an empty object is discovery data for the
    handler, which tests [!discoveryData]; the cache is read, and a user
    who has rows there is answered with them, not with the default
    set. *)
Lemma empty_discovery_data_is_answered_from_the_cache :
  let env := scenario (JObj []) (ModelRejects NetworkError) in
  let out := POST env (request_with "{'userId':'u1'}") stocked_world in
  profile_reply env user1
  = StoreReturns (JObj [(codes "discovery_data", JObj [])]) JNull
  /\ fst out
     = respond [ recommendation (JStr (codes "Pilot")) (JStr []) (JStr [])
                                (JStr []);
                 recommendation (JStr (codes "Baker")) (JStr []) (JStr [])
                                (JStr []);
                 recommendation (JStr (codes "Tailor")) (JStr []) (JStr [])
                                (JStr []) ]
  /\ fst out <> respond defaultRecommendations.
Proof.
  cbv zeta. split; [reflexivity |]. split; [vm_compute; reflexivity |].
  vm_compute. discriminate.
Qed.

(** C5, amended.  The profile lookup succeeds (no error reported).  When
    the [discovery_data] read from it is absent or falsy, the response is
    exactly [{ recommendations: defaultRecommendations }] and the only
    call made is the profile lookup.  When it is an empty object or an
    empty array, the cache is read as well: the response is the
    projection of the rows the query answers, and the default set when it
    answers none, reports an error or throws.  In every case there is no
    model invocation and no insertion, and the table is unchanged. *)
Theorem no_discovery_data_gives_defaults
    env request w userId data error discoveryData :
  userId_of request = Ok userId ->
  truthy userId = true ->
  profile_reply env userId = StoreReturns data error ->
  truthy error = false ->
  get_prop_opt data "discovery_data" = Ok discoveryData ->
  (truthy discoveryData = false ->
   POST env request w
   = ({| status := 200%Z;
         body := JObj [(codes "recommendations",
                        JArr defaultRecommendations)] |},
      logged w [SelectProfile userId]))
  /\ (discoveryData = JObj [] \/ discoveryData = JArr [] ->
      let answered :=
        match select_fate env with
        | SelectAnswers => select_recent (role_recommendations w) userId
        | _ => []
        end in
      let projected (item : Row) :=
        JObj [(codes "role_title", role_title item);
              (codes "description", description item);
              (codes "why_it_fits_professionally",
               why_it_fits_professionally item);
              (codes "why_it_fits_personally", why_it_fits_personally item)] in
      POST env request w
      = ({| status := 200%Z;
            body := JObj [(codes "recommendations",
                           JArr (match answered with
                                 | [] => defaultRecommendations
                                 | _ :: _ => map projected answered
                                 end))] |},
         logged w [SelectProfile userId; SelectRecommendations userId])).
Proof.
  intros Hu Ht Hp He Hd. split.
  - intros Hf.
    unfold POST, handle, bind, lift. rewrite Hu, Ht. cbn [negb].
    unfold select_profile, bind, log, lift, ret.
    rewrite Hp, He, Hd, Hf. reflexivity.
  - intros Hempty. cbv zeta.
    assert (Htruthy : truthy discoveryData = true)
      by (destruct Hempty as [-> | ->]; reflexivity).
    assert (Hprompt : prepare_messages discoveryData = Throw TypeError)
      by (destruct Hempty as [-> | ->]; reflexivity).
    unfold POST, handle, bind, lift. rewrite Hu, Ht. cbn [negb].
    unfold select_profile, bind, log, lift, ret.
    rewrite Hp, He, Hd, Htruthy. cbn [negb].
    unfold select_recommendations, bind, log, lift, ret.
    destruct (select_fate env) as [|err|e].
    + cbn [role_recommendations trace].
      destruct (select_recent (role_recommendations w) userId) as [|r rs].
      * unfold cache_hit.
        cbn [truthy negb andb List.length Nat.ltb Nat.leb].
        rewrite Hprompt. unfold logged. cbn [role_recommendations trace].
        rewrite <- app_assoc. reflexivity.
      * unfold cache_hit.
        cbn [truthy negb andb List.length Nat.ltb Nat.leb rows_of].
        unfold logged. cbn [role_recommendations trace].
        rewrite <- app_assoc. reflexivity.
    + unfold cache_hit. rewrite andb_false_r. rewrite Hprompt.
      unfold logged. cbn [role_recommendations trace].
      rewrite <- app_assoc. reflexivity.
    + unfold logged. cbn [role_recommendations trace].
      rewrite <- app_assoc. reflexivity.
Qed.

Lemma no_discovery_data_gives_defaults_witness :
  let request := request_with "{'userId':'u1'}" in
  userId_of request = Ok user1
  /\ truthy user1 = true
  /\ POST (scenario JNull (ModelRejects AbortError)) request empty_world
     = ({| status := 200%Z;
           body := JObj [(codes "recommendations",
                          JArr defaultRecommendations)] |},
        logged empty_world [SelectProfile user1])
  /\ POST (scenario (JArr []) (ModelRejects AbortError)) request empty_world
     = ({| status := 200%Z;
           body := JObj [(codes "recommendations",
                          JArr defaultRecommendations)] |},
        logged empty_world
               [SelectProfile user1; SelectRecommendations user1]).
Proof.
  split; [reflexivity | split; [reflexivity |]]. split.
  - apply (proj1 (no_discovery_data_gives_defaults
                    (scenario JNull (ModelRejects AbortError))
                    (request_with "{'userId':'u1'}") empty_world user1
                    (JObj [(codes "discovery_data", JNull)]) JNull JNull
                    eq_refl eq_refl eq_refl eq_refl eq_refl));
      reflexivity.
  - apply (proj2 (no_discovery_data_gives_defaults
                    (scenario (JArr []) (ModelRejects AbortError))
                    (request_with "{'userId':'u1'}") empty_world user1
                    (JObj [(codes "discovery_data", JArr [])]) JNull
                    (JArr [])
                    eq_refl eq_refl eq_refl eq_refl eq_refl)
                 (or_intror eq_refl)).
Defined.

(** C7, the defect at a concrete input: the body [null] parses, carries
    no [userId], and is answered with status 200 and the default set, not
    with the 400 response: the destructuring of [null] throws before the
    test of [userId] is reached, inside the outer [try]. *)
Lemma null_body_is_not_a_bad_request :
  let request := request_with "null" in
  let env := scenario full_profile (ModelRejects AbortError) in
  request_json request = Ok JNull
  /\ userId_of request = Throw TypeError
  /\ POST env request empty_world
     = (respond defaultRecommendations, empty_world)
  /\ status (fst (POST env request empty_world)) <> 400%Z.
Proof. vm_compute. repeat split; try reflexivity. discriminate. Qed.

(** X28: when the body parses to a value other than [null], so that
    reading [userId] from it does not throw, and [userId] is absent or
    falsy, the response is the 400 response and the world is left as it
    was: no store read, no store write, no model call. *)
Theorem missing_userId_is_rejected_without_calls
    env request w parsed userId :
  request_json request = Ok parsed ->
  get_prop parsed "userId" = Ok userId ->
  truthy userId = false ->
  POST env request w = (bad_request, w)
  /\ status bad_request = 400%Z.
Proof.
  intros Hj Hg Hf.
  unfold POST, handle, bind, lift, userId_of, rbind.
  rewrite Hj, Hg, Hf. split; reflexivity.
Qed.

Lemma missing_userId_is_rejected_without_calls_witness :
  let env := scenario full_profile (ModelRejects AbortError) in
  let request := request_with "{'name':'u1'}" in
  request_json request = Ok (JObj [(codes "name", user1)])
  /\ get_prop (JObj [(codes "name", user1)]) "userId" = Ok JUndef
  /\ truthy JUndef = false
  /\ POST env request empty_world = (bad_request, empty_world)
  /\ status bad_request = 400%Z.
Proof.
  split; [reflexivity | split; [reflexivity | split; [reflexivity |]]].
  apply (missing_userId_is_rejected_without_calls
           (scenario full_profile (ModelRejects AbortError))
           (request_with "{'name':'u1'}") empty_world
           (JObj [(codes "name", user1)]) JUndef);
    reflexivity.
Defined.

(** C10: there is a request whose body is not JSON at all and which is
    answered, whatever the collaborators would do, with status 200 and
    the default set, not with the 400 response: the exception of
    [request.json()] is caught by the outermost [catch]. *)
Theorem unparseable_body_gets_defaults :
  exists request,
    request_json request = Throw SyntaxError
    /\ forall env w,
         POST env request w = (respond defaultRecommendations, w)
         /\ status (fst (POST env request w)) = 200%Z
         /\ fst (POST env request w) <> bad_request.
Proof.
  exists (request_with "this is not json").
  split; [reflexivity |].
  intros env w.
  assert (H : POST env (request_with "this is not json") w
              = (respond defaultRecommendations, w)) by reflexivity.
  rewrite H. cbn [fst]. repeat split. discriminate.
Qed.

(** ** Failure of the model call *)

Lemma generate_on_failure env userId messages w :
  (exists e, model_outcome env messages = ModelRejects e)
  \/ (exists response_body,
        model_outcome env messages = ModelResponds response_body
        /\ truthy response_body = false) ->
  generate env userId messages w
  = (Ok (respond defaultRecommendations),
     logged w [ChatCompletion messages]).
Proof.
  unfold generate, try_catch, bind, chat_completions, post, bind, log, lift, ret;
    cbn [abortSignal body_messages].
  intros [[e He] | [response_body [Hb Hf]]].
  - rewrite He. reflexivity.
  - rewrite Hb, Hf. reflexivity.
Qed.

(** X27: when the handler reaches the model call (truthy [userId], a
    profile with discovery data, no cached rows, a prompt built) and the
    call rejects (a network error) or resolves without a body, the
    failure stays inside the [try] around the call ([generate] returns,
    it does not throw), the response is the default set, and nothing is
    inserted: the table is unchanged and the calls made are the two reads
    and the model call. *)
Theorem model_failure_gives_defaults_without_insert
    env request w userId data error discoveryData messages :
  userId_of request = Ok userId ->
  truthy userId = true ->
  profile_reply env userId = StoreReturns data error ->
  truthy error = false ->
  get_prop_opt data "discovery_data" = Ok discoveryData ->
  truthy discoveryData = true ->
  (select_fate env = SelectAnswers
   /\ select_recent (role_recommendations w) userId = []
   \/ exists err, select_fate env = SelectFails err) ->
  prepare_messages discoveryData = Ok messages ->
  (exists e, model_outcome env messages = ModelRejects e)
  \/ (exists response_body,
        model_outcome env messages = ModelResponds response_body
        /\ truthy response_body = false) ->
  let after_reads :=
    logged w [SelectProfile userId; SelectRecommendations userId] in
  generate env userId messages after_reads
  = (Ok (respond defaultRecommendations),
     logged after_reads [ChatCompletion messages])
  /\ POST env request w
     = (respond defaultRecommendations,
        logged w [SelectProfile userId; SelectRecommendations userId;
                  ChatCompletion messages])
  /\ role_recommendations (snd (POST env request w)) = role_recommendations w.
Proof.
  intros Hu Ht Hp He Hd Hdt Hc Hm Hf after_reads.
  assert (Hg := generate_on_failure env userId messages after_reads Hf).
  split; [exact Hg |].
  assert (HP : POST env request w
               = (respond defaultRecommendations,
                  logged w [SelectProfile userId;
                            SelectRecommendations userId;
                            ChatCompletion messages])).
  { unfold POST, handle, bind, lift. rewrite Hu, Ht. cbn [negb].
    unfold select_profile, bind, log, lift, ret.
    rewrite Hp, He, Hd, Hdt. cbn [negb].
    unfold select_recommendations, bind, log, lift, ret.
    destruct Hc as [[Hs Hr] | [err Hs]]; rewrite Hs.
    - cbn [role_recommendations]. rewrite Hr.
      unfold cache_hit. cbn [truthy negb andb List.length Nat.ltb Nat.leb].
      rewrite Hm.
      match goal with
      | |- context [generate env userId messages ?w1] =>
          change w1 with (logged (logged w [SelectProfile userId])
                                 [SelectRecommendations userId])
      end.
      rewrite generate_on_failure by exact Hf.
      unfold logged. cbn [role_recommendations trace].
      rewrite <- !app_assoc. reflexivity.
    - unfold cache_hit. rewrite andb_false_r. rewrite Hm.
      match goal with
      | |- context [generate env userId messages ?w1] =>
          change w1 with (logged (logged w [SelectProfile userId])
                                 [SelectRecommendations userId])
      end.
      rewrite generate_on_failure by exact Hf.
      unfold logged. cbn [role_recommendations trace].
      rewrite <- !app_assoc. reflexivity. }
  split; [exact HP |]. rewrite HP. reflexivity.
Qed.

Lemma model_failure_gives_defaults_without_insert_witness :
  let env := scenario full_profile (ModelRejects AbortError) in
  let request := request_with "{'userId':'u1'}" in
  userId_of request = Ok user1
  /\ truthy user1 = true
  /\ prepare_messages full_profile = Ok full_profile_messages
  /\ model_outcome env full_profile_messages = ModelRejects AbortError
  /\ role_recommendations (snd (POST env request empty_world)) = [].
Proof.
  split; [reflexivity | split; [reflexivity | split; [reflexivity |]]].
  split; [reflexivity |].
  apply (model_failure_gives_defaults_without_insert
           (scenario full_profile (ModelRejects AbortError))
           (request_with "{'userId':'u1'}") empty_world user1
           (JObj [(codes "discovery_data", full_profile)]) JNull
           full_profile full_profile_messages);
    try reflexivity.
  - left. split; reflexivity.
  - left. exists AbortError. reflexivity.
Defined.

(** ** The timeout *)

(** What the client does with a signal it listens to: a call that would
    settle after 8 seconds is rejected when the signal aborts after 5. *)
Example post_listens_to_abortSignal :
  let env := delayed 8000 (scenario full_profile
                             (ModelResponds (chat_response bare_reply))) in
  fst (post env {| body_messages := full_profile_messages;
                   abortSignal := Some {| aborts_after := 5000 |} |}
            None empty_world)
  = Throw AbortError.
Proof. reflexivity. Qed.

(** The handler hands its signal to [post] where it is not read: the
    latency of the model has no influence on a run. *)
Lemma chat_completions_ignores_the_latency ms env messages w :
  chat_completions (delayed ms env) messages w
  = chat_completions env messages w.
Proof. reflexivity. Qed.

(** C8, the defect at a concrete input: the model answers after 8
    seconds.  The timer aborts the controller after 5 seconds, but the
    signal was handed to [post] as a second argument, which the client
    does not read: the call is not aborted, the late reply is parsed and
    returned in place of the default set, and its records are
    inserted. *)
Theorem late_reply_is_returned_and_stored :
  let env := delayed 8000 (scenario full_profile
                             (ModelResponds (chat_response bare_reply))) in
  let out := POST env (request_with "{'userId':'u1'}") empty_world in
  (5000 <? model_latency env full_profile_messages)%Z = true
  /\ fst out
     = respond [JObj [(codes "role_title", JStr (codes "Chef"))];
                JObj [(codes "role_title", JStr (codes "Pilot"))]]
  /\ fst out <> respond defaultRecommendations
  /\ map user_id (role_recommendations (snd out)) = [user1; user1]
  /\ map role_title (role_recommendations (snd out))
     = [JStr (codes "Chef"); JStr (codes "Pilot")]
  /\ filter is_model_call (trace (snd out))
     = [ChatCompletion full_profile_messages]
  /\ List.length (filter is_insert (trace (snd out))) = 2%nat.
Proof.
  cbv zeta.
  split; [reflexivity |]. split; [vm_compute; reflexivity |].
  split; [vm_compute; discriminate |].
  vm_compute. repeat split; reflexivity.
Qed.

(** After a failed parse the save loop runs on the fallback set. *)
Lemma parse_failure_saves_the_fallback
    env userId messages w response_body e text :
  model_outcome env messages = ModelResponds response_body ->
  truthy response_body = true ->
  parse_reply response_body = Throw e ->
  response_content response_body = Ok text ->
  generate env userId messages w
  = (Ok (respond defaultRecommendations),
     snd (save env userId defaultRecommendations
               (logged w [ChatCompletion messages]))).
Proof.
  intros Hm Ht Hp Hc.
  unfold generate, try_catch, bind, chat_completions, post, bind, log, lift, ret;
    cbn [abortSignal body_messages].
  rewrite Hm, Ht. cbn [negb]. unfold roleRecommendations_of.
  rewrite Hp, Hc. cbn [rbind]. unfold logged.
  match goal with
  | |- context [save env userId defaultRecommendations ?w1] =>
      destruct (save_returns env userId defaultRecommendations w1)
        as [w' Hs]; rewrite Hs
  end.
  reflexivity.
Qed.

(** C3, the defect at a concrete input: the reply is prose, parsing
    throws, and the three fallback records are inserted for the user
    before the fallback is returned. *)
Theorem parse_failure_persists_the_fallback :
  let reply := chat_response (codes "Sorry, I cannot help with that.") in
  let env := scenario full_profile (ModelResponds reply) in
  let out := POST env (request_with "{'userId':'u1'}") empty_world in
  parse_reply reply = Throw SyntaxError
  /\ fst out = respond defaultRecommendations
  /\ map user_id (role_recommendations (snd out)) = [user1; user1; user1]
  /\ map format_row (role_recommendations (snd out)) = defaultRecommendations
  /\ List.length (filter is_insert (trace (snd out))) = 3%nat.
Proof. vm_compute. repeat split; reflexivity. Qed.

(** C4, the defect at a concrete input: with the [skills] facet absent
    from the discovery data, building the prompt throws, the model is not
    called and the default set is returned. *)
Theorem absent_facet_aborts_the_prompt :
  let env := scenario partial_profile
               (ModelResponds (chat_response (json_text "[{'role_title':'Chef'}]"))) in
  let out := POST env (request_with "{'userId':'u1'}") empty_world in
  prepare_messages partial_profile = Throw TypeError
  /\ out = (respond defaultRecommendations,
            logged empty_world
                   [SelectProfile user1; SelectRecommendations user1])
  /\ filter is_model_call (trace (snd out)) = [].
Proof. vm_compute. repeat split; reflexivity. Qed.

(** Facets that are present without [selected] render as empty lists. *)
Example empty_facets_render_empty_lists :
  prepare_messages (JObj [(codes "skills", JObj []);
                          (codes "values", JObj []);
                          (codes "interests", JObj [])])
  = Ok [ {| role := codes "system"; content := system_prompt |};
         {| role := codes "user"; content := user_prompt [] [] [] |} ].
Proof. reflexivity. Qed.

(** ** The cache query *)

Lemma insert_desc_perm r l : Permutation (insert_desc r l) (r :: l).
Proof.
  induction l as [|x t IH]; cbn [insert_desc].
  - apply Permutation_refl.
  - destruct (created_at x <? created_at r)%Z.
    + apply Permutation_refl.
    + eapply perm_trans; [apply perm_skip, IH | apply perm_swap].
Qed.

Lemma order_desc_perm l : Permutation (order_desc l) l.
Proof.
  induction l as [|x t IH]; cbn [order_desc fold_right].
  - apply perm_nil.
  - eapply perm_trans; [apply insert_desc_perm | apply perm_skip, IH].
Qed.

Lemma insert_desc_sorted r l :
  newest_first l -> newest_first (insert_desc r l).
Proof.
  unfold newest_first.
  induction l as [|x t IH]; intros Hs; cbn [insert_desc].
  - constructor; constructor.
  - apply StronglySorted_inv in Hs. destruct Hs as [Ht Hx].
    destruct (created_at x <? created_at r)%Z eqn:E.
    + apply Z.ltb_lt in E. constructor.
      * constructor; assumption.
      * constructor; [lia |].
        eapply Forall_impl; [| exact Hx]. cbn. intros; lia.
    + apply Z.ltb_ge in E. constructor.
      * apply IH, Ht.
      * eapply Permutation_Forall.
        -- apply Permutation_sym, insert_desc_perm.
        -- constructor; assumption.
Qed.

Lemma order_desc_sorted l : newest_first (order_desc l).
Proof.
  induction l as [|x t IH]; cbn [order_desc fold_right].
  - constructor.
  - apply insert_desc_sorted, IH.
Qed.

Lemma newest_first_app a b :
  newest_first (a ++ b) ->
  newest_first a
  /\ forall x y, In x a -> In y b -> (created_at y <= created_at x)%Z.
Proof.
  unfold newest_first.
  induction a as [|h t IH]; cbn [app]; intros Hs.
  - split; [constructor | intros x y []].
  - apply StronglySorted_inv in Hs. destruct Hs as [Ht Hh].
    destruct (IH Ht) as [Hta Hab]. split.
    + constructor; [exact Hta |].
      apply Forall_app in Hh. apply Hh.
    + intros x y [<- | Hx] Hy.
      * rewrite Forall_forall in Hh. apply Hh, in_or_app. right. exact Hy.
      * apply Hab; assumption.
Qed.

(** The answer of the cache query: the newest rows of the user, at most
    three, newest first. *)
Lemma select_recent_spec rows userId :
  let cached := select_recent rows userId in
  newest_first cached
  /\ List.length cached = Nat.min 3 (List.length (rows_of_user rows userId))
  /\ exists older,
       Permutation (rows_of_user rows userId) (cached ++ older)
       /\ forall a b, In a cached -> In b older ->
                      (created_at b <= created_at a)%Z.
Proof.
  unfold select_recent.
  set (mine := rows_of_user rows userId).
  assert (Hsorted := order_desc_sorted mine).
  assert (Hperm := order_desc_perm mine).
  rewrite <- (firstn_skipn 3 (order_desc mine)) in Hsorted.
  apply newest_first_app in Hsorted. destruct Hsorted as [Hf Hfs].
  cbv zeta. split; [exact Hf |]. split.
  - rewrite length_firstn. rewrite (Permutation_length Hperm). reflexivity.
  - exists (skipn 3 (order_desc mine)). split.
    + rewrite firstn_skipn. apply Permutation_sym, Hperm.
    + exact Hfs.
Qed.

(** C6, as stated, fails: the user has discovery data and cached rows,
    but the cache query reports an error.  The handler tests [!recError]
    and goes on as if there were no rows: the model is called, its list
    is returned and inserted. *)
Lemma cached_rows_are_skipped_on_a_read_error :
  let env :=
    {| profile_reply := fun _ =>
         StoreReturns (JObj [(codes "discovery_data", full_profile)]) JNull;
       select_fate :=
         SelectFails (JObj [(codes "message", JStr (codes "timeout"))]);
       insert_fate := fun i => InsertStores (100 + Z.of_nat i);
       model_outcome := fun _ => ModelResponds (chat_response bare_reply);
       model_latency := fun _ => 1200%Z |} in
  let out := POST env (request_with "{'userId':'u1'}") stocked_world in
  List.length (rows_of_user (role_recommendations stocked_world) user1)
  = 4%nat
  /\ filter is_model_call (trace (snd out))
     = [ChatCompletion full_profile_messages]
  /\ List.length (filter is_insert (trace (snd out))) = 2%nat
  /\ fst out
     = respond [JObj [(codes "role_title", JStr (codes "Chef"))];
                JObj [(codes "role_title", JStr (codes "Pilot"))]].
Proof. vm_compute. repeat split; reflexivity. Qed.

(** C6, amended: for a truthy [userId] whose profile has discovery data
    and who has rows in [role_recommendations], when the cache query
    answers without error, the response is the list of the cached rows,
    each as an object of its four fields [role_title], [description],
    [why_it_fits_professionally] and [why_it_fits_personally]; the cached
    rows are the newest of the user (three when the user has three or
    more), newest first; the model is not called and nothing is inserted:
    the calls made are the two reads and the table is as it was. *)
Theorem cached_rows_are_returned_newest_first
    env request w userId data error discoveryData :
  userId_of request = Ok userId ->
  truthy userId = true ->
  profile_reply env userId = StoreReturns data error ->
  truthy error = false ->
  get_prop_opt data "discovery_data" = Ok discoveryData ->
  truthy discoveryData = true ->
  select_fate env = SelectAnswers ->
  rows_of_user (role_recommendations w) userId <> [] ->
  let mine := rows_of_user (role_recommendations w) userId in
  let cached := select_recent (role_recommendations w) userId in
  let projected (item : Row) :=
    JObj [(codes "role_title", role_title item);
          (codes "description", description item);
          (codes "why_it_fits_professionally",
           why_it_fits_professionally item);
          (codes "why_it_fits_personally", why_it_fits_personally item)] in
  POST env request w
  = ({| status := 200%Z;
        body := JObj [(codes "recommendations",
                       JArr (map projected cached))] |},
     logged w [SelectProfile userId; SelectRecommendations userId])
  /\ newest_first cached
  /\ List.length cached = Nat.min 3 (List.length mine)
  /\ exists older,
       Permutation mine (cached ++ older)
       /\ forall a b, In a cached -> In b older ->
                      (created_at b <= created_at a)%Z.
Proof.
  intros Hu Ht Hp He Hd Hdt Hs Hne mine cached projected.
  destruct (select_recent_spec (role_recommendations w) userId)
    as (Hsorted & Hlen & Hold).
  fold cached in Hsorted, Hlen, Hold. fold mine in Hlen, Hold.
  split; [| split; [exact Hsorted | split; [exact Hlen | exact Hold]]].
  unfold POST, handle, bind, lift. rewrite Hu, Ht. cbn [negb].
  unfold select_profile, bind, log, lift, ret.
  rewrite Hp, He, Hd, Hdt. cbn [negb].
  unfold select_recommendations, bind, log, lift, ret.
  rewrite Hs. cbn [role_recommendations]. fold cached.
  assert (Hhit : cache_hit (Some cached) JNull = true).
  { unfold cache_hit. cbn [truthy negb andb]. rewrite Hlen.
    apply Nat.ltb_lt. subst mine.
    destruct (rows_of_user (role_recommendations w) userId);
      [contradiction | cbn [List.length]; lia]. }
  rewrite Hhit. cbn [rows_of]. unfold logged.
  cbn [role_recommendations trace]. rewrite <- app_assoc. reflexivity.
Qed.

Lemma cached_rows_are_returned_newest_first_witness :
  let env := scenario full_profile (ModelRejects AbortError) in
  let request := request_with "{'userId':'u1'}" in
  userId_of request = Ok user1
  /\ truthy user1 = true
  /\ rows_of_user (role_recommendations stocked_world) user1 <> []
  /\ select_recent (role_recommendations stocked_world) user1
     = [sample_row user1 40 "Pilot"; sample_row user1 30 "Baker";
        sample_row user1 20 "Tailor"]
  /\ POST env request stocked_world
     = ({| status := 200%Z;
           body :=
             JObj [(codes "recommendations",
                    JArr (map (fun item =>
                                 JObj [(codes "role_title", role_title item);
                                       (codes "description", description item);
                                       (codes "why_it_fits_professionally",
                                        why_it_fits_professionally item);
                                       (codes "why_it_fits_personally",
                                        why_it_fits_personally item)])
                              (select_recent
                                 (role_recommendations stocked_world)
                                 user1)))] |},
        logged stocked_world
               [SelectProfile user1; SelectRecommendations user1]).
Proof.
  split; [reflexivity | split; [reflexivity |]].
  split; [discriminate | split; [reflexivity |]].
  apply (cached_rows_are_returned_newest_first
           (scenario full_profile (ModelRejects AbortError))
           (request_with "{'userId':'u1'}") stocked_world user1
           (JObj [(codes "discovery_data", full_profile)]) JNull
           full_profile);
    try reflexivity.
  discriminate.
Defined.

(* ================================================================== *)
(** * The cleaning steps on text that is already JSON *)
(* ================================================================== *)

(** ** The lexer and white space *)

Lemma json_ws_cases c :
  is_json_ws c = true -> c = 32%N \/ c = 9%N \/ c = 10%N \/ c = 13%N.
Proof.
  unfold is_json_ws. intros H.
  repeat (apply orb_true_iff in H; destruct H as [H | H]);
    apply N.eqb_eq in H; auto.
Qed.

Lemma json_ws_is_js_ws c : is_json_ws c = true -> is_js_ws c = true.
Proof.
  intros H. destruct (json_ws_cases c H) as [-> | [-> | [-> | ->]]];
    reflexivity.
Qed.

Lemma lex_idle_ws c : is_json_ws c = true -> lex_idle c = Some ([], LIdle).
Proof. intros H. unfold lex_idle. rewrite H. reflexivity. Qed.

Lemma lex_leading_ws w s :
  Forall (fun c => is_json_ws c = true) w ->
  lex LIdle (w ++ s) = lex LIdle s.
Proof.
  induction 1 as [|c w Hc Hw IH]; [reflexivity |].
  cbn [app lex lex_step]. rewrite (lex_idle_ws c Hc), IH.
  destruct (lex LIdle s); reflexivity.
Qed.

Lemma lex_only_ws w :
  Forall (fun c => is_json_ws c = true) w -> lex LIdle w = Some [].
Proof.
  intros H. rewrite <- (app_nil_r w). rewrite lex_leading_ws by exact H.
  reflexivity.
Qed.

(** White space at the end of the input adds no token, in any state. *)
Lemma lex_ws_is_end w :
  Forall (fun c => is_json_ws c = true) w ->
  forall st, lex st w = lex_end st.
Proof.
  induction 1 as [|c w Hc Hw IH]; intros st; [reflexivity |].
  destruct st as [|acc|acc|acc ds|acc].
  - rewrite (lex_only_ws (c :: w)) by (constructor; assumption). reflexivity.
  - cbn [lex lex_step lex_end].
    destruct (json_ws_cases c Hc) as [-> | [-> | [-> | ->]]];
      cbn; try reflexivity.
    rewrite IH. reflexivity.
  - cbn [lex lex_step lex_end].
    destruct (json_ws_cases c Hc) as [-> | [-> | [-> | ->]]]; reflexivity.
  - cbn [lex lex_step lex_end].
    destruct (json_ws_cases c Hc) as [-> | [-> | [-> | ->]]]; reflexivity.
  - cbn [lex lex_step lex_end].
    assert (Hw' : is_word_char c = false)
      by (destruct (json_ws_cases c Hc) as [-> | [-> | [-> | ->]]];
          reflexivity).
    rewrite Hw', (lex_idle_ws c Hc).
    destruct (token_of_word (rev acc)); [| reflexivity].
    rewrite IH. reflexivity.
Qed.

Lemma lex_trailing_ws w :
  Forall (fun c => is_json_ws c = true) w ->
  forall s st, lex st (s ++ w) = lex st s.
Proof.
  intros Hw. induction s as [|c s IH]; intros st.
  - apply lex_ws_is_end, Hw.
  - cbn [app lex]. destruct (lex_step st c) as [[toks st']|]; [| reflexivity].
    rewrite IH. reflexivity.
Qed.

(** What one character can emit. *)
Lemma token_of_word_not_punct w tok :
  token_of_word w = Some tok -> is_punct tok = false.
Proof.
  unfold token_of_word.
  destruct (str_eqb w (codes "true")); [intros [= <-]; reflexivity |].
  destruct (str_eqb w (codes "false")); [intros [= <-]; reflexivity |].
  destruct (str_eqb w (codes "null")); [intros [= <-]; reflexivity |].
  destruct (number_of_literal w) as [[m e]|]; [| discriminate].
  intros [= <-]. reflexivity.
Qed.

Lemma lex_idle_emits c toks st :
  lex_idle c = Some (toks, st) ->
  toks = [] \/ exists p, toks = [p] /\ is_punct p = true /\ st = LIdle.
Proof.
  unfold lex_idle.
  repeat match goal with
         | |- context [if ?b then _ else _] => destruct b
         end;
    intros [= <- <-]; eauto 6.
Qed.

Lemma lex_step_emits st c toks st' :
  lex_step st c = Some (toks, st') ->
  toks = []
  \/ (exists x, toks = [x] /\ is_punct x = false)
  \/ (exists p, toks = [p] /\ is_punct p = true
                /\ lex_idle c = Some ([p], LIdle) /\ st' = LIdle)
  \/ (exists x p, toks = [x; p] /\ is_punct x = false /\ is_punct p = true
                  /\ lex_idle c = Some ([p], LIdle) /\ st' = LIdle).
Proof.
  destruct st as [|acc|acc|acc ds|acc]; cbn [lex_step].
  - intros H. destruct (lex_idle_emits c toks st' H) as [-> | (p & -> & Hp & ->)].
    + auto.
    + right. right. left. eauto.
  - repeat match goal with
           | |- context [if ?b then _ else _] => destruct b
           end; intros [= <- <-]; eauto 6.
  - repeat match goal with
           | |- context [if ?b then _ else _] => destruct b
           end; intros [= <- <-]; eauto 6.
  - destruct (hex_value c); [| discriminate].
    destruct ds as [|a [|b [|d [|x ds]]]]; intros [= <- <-]; auto.
  - destruct (is_word_char c); [intros [= <- <-]; auto |].
    destruct (token_of_word (rev acc)) as [tok|] eqn:Et; [| discriminate].
    destruct (lex_idle c) as [[toks0 st0]|] eqn:Ei; [| discriminate].
    intros [= <- <-]. apply token_of_word_not_punct in Et.
    destruct (lex_idle_emits c toks0 st0 Ei) as [-> | (p & -> & Hp & ->)].
    + right. left. eauto.
    + right. right. right. eauto 8.
Qed.

(** Outside the idle state the next token is not a punctuation mark. *)
Lemma lex_first_token s :
  forall st toks,
    lex st s = Some toks -> st <> LIdle ->
    exists x rest, toks = x :: rest /\ is_punct x = false.
Proof.
  induction s as [|c s IH]; intros st toks H Hst.
  - destruct st; try contradiction; cbn [lex lex_end] in H; try discriminate.
    destruct (token_of_word (rev acc)) as [tok|] eqn:Et; [| discriminate].
    injection H as <-. apply token_of_word_not_punct in Et. eauto.
  - cbn [lex] in H.
    destruct (lex_step st c) as [[e st']|] eqn:Es; [| discriminate].
    destruct (lex st' s) as [rest|] eqn:Er; [| discriminate].
    injection H as <-.
    destruct (lex_step_emits st c e st' Es)
      as [-> | [(x & -> & Hx) | [(p & -> & Hp & Hi & ->)
                                | (x & p & -> & Hx & _)]]].
    + cbn [app]. apply (IH st' rest Er).
      intros ->. destruct st as [|acc|acc|acc ds|acc]; try contradiction;
        cbn [lex_step] in Es.
      * revert Es.
        repeat match goal with
               | |- context [if ?b then _ else _] => destruct b
               end; discriminate.
      * revert Es.
        repeat match goal with
               | |- context [if ?b then _ else _] => destruct b
               end; discriminate.
      * destruct (hex_value c); [| discriminate].
        destruct ds as [|a [|b [|d [|y ds]]]]; discriminate.
      * destruct (is_word_char c); [discriminate |].
        destruct (token_of_word (rev acc)); [| discriminate].
        destruct (lex_idle c) as [[? ?]|]; discriminate.
    + cbn [app]. eauto.
    + destruct st as [|acc|acc|acc ds|acc]; try contradiction;
        cbn [lex_step] in Es.
      * revert Es.
        repeat match goal with
               | |- context [if ?b then _ else _] => destruct b
               end; intros [= <-]; discriminate.
      * revert Es.
        repeat match goal with
               | |- context [if ?b then _ else _] => destruct b
               end; discriminate.
      * destruct (hex_value c); [| discriminate].
        destruct ds as [|a [|b [|d [|y ds]]]]; discriminate.
      * destruct (is_word_char c); [discriminate |].
        destruct (token_of_word (rev acc)) as [tok|] eqn:Et; [| discriminate].
        destruct (lex_idle c) as [[? ?]|]; [| discriminate].
        injection Es as -> _ _. apply token_of_word_not_punct in Et.
        congruence.
    + cbn [app]. eauto.
Qed.

Lemma lex_idle_char c p st :
  lex_idle c = Some ([p], st) ->
  match p with
  | TLBrack => c = 91%N
  | TRBrack => c = 93%N
  | TLBrace => c = 123%N
  | TRBrace => c = 125%N
  | _ => True
  end.
Proof.
  unfold lex_idle.
  destruct (is_json_ws c); [discriminate |].
  repeat match goal with
         | |- context [if (?a =? ?b)%N then _ else _] =>
             destruct (N.eqb_spec a b)
         end;
    try (intros [= <- <-]; first [assumption | exact I]).
  destruct (is_word_char c); discriminate.
Qed.

Lemma lex_idle_silent c st :
  lex_idle c = Some ([], st) -> st = LIdle -> is_json_ws c = true.
Proof.
  unfold lex_idle.
  destruct (is_json_ws c); [reflexivity |].
  repeat match goal with
         | |- context [if ?b then _ else _] => destruct b
         end;
    intros [= <-]; discriminate.
Qed.

Lemma lex_stays_idle c e st' rest x :
  lex_idle c = Some (e, st') ->
  lex st' (rest : jsstring) = Some x ->
  e = [] ->
  (x = [] \/ exists p x', x = p :: x' /\ is_punct p = true) ->
  st' = LIdle /\ is_json_ws c = true.
Proof.
  intros Hi Hl -> Hx.
  assert (Hst : st' = LIdle).
  { destruct st' as [|acc|acc|acc ds|acc]; [reflexivity | | | |];
      (edestruct (lex_first_token rest) as (y & r & Hy & Hp);
       [exact Hl | discriminate |]);
      (destruct Hx as [-> | (p & x' & -> & Hpp)];
       [discriminate | injection Hy as <- _; congruence]). }
  split; [exact Hst | exact (lex_idle_silent c st' Hi Hst)].
Qed.

(** A punctuation token at the head of the token list comes from its
    character, after white space only. *)
Lemma lex_head_punct p ts s :
  lex LIdle s = Some (p :: ts) ->
  is_punct p = true ->
  exists w c s',
    s = w ++ c :: s'
    /\ Forall (fun c => is_json_ws c = true) w
    /\ lex_idle c = Some ([p], LIdle)
    /\ lex LIdle s' = Some ts.
Proof.
  intros H Hp. induction s as [|c s IH]; [discriminate |].
  cbn [lex lex_step] in H.
  destruct (lex_idle c) as [[e st']|] eqn:Ei; [| discriminate].
  destruct (lex st' s) as [rest|] eqn:Er; [| discriminate].
  injection H as H.
  destruct (lex_idle_emits c e st' Ei) as [-> | (q & -> & Hq & ->)].
  - cbn [app] in H. subst rest.
    destruct (lex_stays_idle c [] st' s (p :: ts) Ei Er eq_refl) as [-> Hc];
      [right; eauto |].
    destruct (IH Er) as (w & c' & s' & -> & Hw & Hi & Hl).
    exists (c :: w), c', s'. repeat split; auto.
  - cbn [app] in H. injection H as -> ->.
    exists [], c, s. repeat split; auto.
Qed.

Lemma lex_nothing s :
  lex LIdle s = Some [] -> Forall (fun c => is_json_ws c = true) s.
Proof.
  induction s as [|c s IH]; intros H; [constructor |].
  cbn [lex lex_step] in H.
  destruct (lex_idle c) as [[e st']|] eqn:Ei; [| discriminate].
  destruct (lex st' s) as [rest|] eqn:Er; [| discriminate].
  injection H as H. apply app_eq_nil in H. destruct H as [-> ->].
  destruct (lex_stays_idle c [] st' s [] Ei Er eq_refl) as [-> Hc];
    [left; reflexivity |].
  constructor; [exact Hc | exact (IH Er)].
Qed.

Lemma lex_closing_bracket s :
  lex LIdle s = Some [TRBrack] ->
  exists w2 w3,
    s = w2 ++ 93%N :: w3
    /\ Forall (fun c => is_json_ws c = true) w2
    /\ Forall (fun c => is_json_ws c = true) w3.
Proof.
  intros H.
  destruct (lex_head_punct TRBrack [] s H eq_refl)
    as (w & c & s' & -> & Hw & Hi & Hl).
  apply lex_idle_char in Hi. cbn in Hi. subst c.
  exists w, s'. repeat split; [exact Hw | exact (lex_nothing s' Hl)].
Qed.

(** When the last two tokens are a closing brace and a closing bracket,
    the text ends with these two characters, white space apart. *)
Lemma lex_closing_pair s :
  forall st ts,
    lex st s = Some (ts ++ [TRBrace; TRBrack]) ->
    exists before w2 w3,
      s = before ++ 125%N :: w2 ++ 93%N :: w3
      /\ Forall (fun c => is_json_ws c = true) w2
      /\ Forall (fun c => is_json_ws c = true) w3.
Proof.
  induction s as [|c s IH]; intros st ts H.
  - cbn [lex] in H. destruct st; cbn [lex_end] in H; try discriminate.
    + destruct ts as [|? [|? ?]]; discriminate.
    + destruct (token_of_word (rev acc)); [| discriminate].
      destruct ts as [|? [|? ?]]; discriminate.
  - cbn [lex] in H.
    destruct (lex_step st c) as [[e st']|] eqn:Es; [| discriminate].
    destruct (lex st' s) as [rest|] eqn:Er; [| discriminate].
    injection H as H.
    assert (Hrec : forall ts', rest = ts' ++ [TRBrace; TRBrack] ->
                   exists before w2 w3,
                     c :: s = before ++ 125%N :: w2 ++ 93%N :: w3
                     /\ Forall (fun c => is_json_ws c = true) w2
                     /\ Forall (fun c => is_json_ws c = true) w3).
    { intros ts' ->. destruct (IH st' ts' Er) as (b & w2 & w3 & -> & H2 & H3).
      exists (c :: b), w2, w3. auto. }
    assert (Hhere : lex_idle c = Some ([TRBrace], LIdle) -> st' = LIdle ->
                    rest = [TRBrack] ->
                    exists before w2 w3,
                      c :: s = before ++ 125%N :: w2 ++ 93%N :: w3
                      /\ Forall (fun c => is_json_ws c = true) w2
                      /\ Forall (fun c => is_json_ws c = true) w3).
    { intros Hi -> ->. apply lex_idle_char in Hi. cbn in Hi. subst c.
      destruct (lex_closing_bracket s Er) as (w2 & w3 & -> & H2 & H3).
      exists [], w2, w3. auto. }
    destruct (lex_step_emits st c e st' Es)
      as [-> | [(x & -> & Hx) | [(p & -> & Hp & Hi & ->)
                                | (x & p & -> & Hx & Hp & Hi & ->)]]];
      cbn [app] in H.
    + eapply Hrec. exact H.
    + destruct ts as [|y ts']; cbn [app] in H.
      * injection H as -> _. discriminate.
      * injection H as _ H. eapply Hrec. exact H.
    + destruct ts as [|y ts']; cbn [app] in H.
      * injection H as -> H. apply Hhere; auto.
      * injection H as _ H. eapply Hrec. exact H.
    + destruct ts as [|y1 [|y2 ts']]; cbn [app] in H.
      * injection H as -> _ _. discriminate.
      * injection H as _ -> H. apply Hhere; auto.
      * injection H as _ _ H. eapply Hrec. exact H.
Qed.

(** ** The parser and the brackets around a value *)

Lemma framed_object_sequence c1 c2 :
  framed_object c1 -> framed_object c2 ->
  framed_object (c1 ++ TComma :: c2).
Proof.
  intros [m1 ->] [m2 ->].
  exists (m1 ++ TRBrace :: TComma :: TLBrace :: m2).
  cbn [app]. f_equal. rewrite <- !app_assoc. reflexivity.
Qed.

Lemma parse_elements_shape pv :
  consumes pv ->
  forall f ts vs r,
    parse_elements pv f ts = Some (vs, r) ->
    vs <> []
    /\ exists c, ts = c ++ TRBrack :: r
                 /\ (forallb is_object vs = true -> framed_object c).
Proof.
  intros Hpv. induction f as [|f IH]; intros ts vs r H; [discriminate |].
  cbn [parse_elements] in H.
  destruct (pv ts) as [[v [|t r1]]|] eqn:Ev; try discriminate.
  destruct (Hpv ts v (t :: r1) Ev) as (c1 & -> & Hc1).
  destruct t; try discriminate.
  - injection H as <- <-. split; [discriminate |].
    exists c1. split; [reflexivity |].
    cbn [forallb]. intros Ho. apply andb_true_iff in Ho. apply Hc1, Ho.
  - destruct (parse_elements pv f r1) as [[vs' r']|] eqn:Ee; [| discriminate].
    injection H as <- <-.
    destruct (IH r1 vs' r' Ee) as (_ & c2 & -> & Hc2).
    split; [discriminate |].
    exists (c1 ++ TComma :: c2). split.
    + rewrite <- app_assoc. reflexivity.
    + cbn [forallb]. intros Ho. apply andb_true_iff in Ho.
      apply framed_object_sequence; [apply Hc1 | apply Hc2]; apply Ho.
Qed.

Lemma parse_members_shape pv :
  consumes pv ->
  forall f ts ms r,
    parse_members pv f ts = Some (ms, r) ->
    exists c, ts = c ++ TRBrace :: r.
Proof.
  intros Hpv. induction f as [|f IH]; intros ts ms r H; [discriminate |].
  cbn [parse_members] in H.
  destruct ts as [|[] [|[] r0]]; try discriminate.
  destruct (pv r0) as [[v [|t r1]]|] eqn:Ev; try discriminate.
  destruct (Hpv r0 v (t :: r1) Ev) as (c1 & -> & _).
  destruct t; try discriminate.
  - injection H as _ <-. exists (TStr s :: TColon :: c1). reflexivity.
  - destruct (parse_members pv f r1) as [[ms' r']|] eqn:Em; [| discriminate].
    injection H as _ <-.
    destruct (IH r1 ms' r' Em) as (c2 & ->).
    exists (TStr s :: TColon :: c1 ++ TComma :: c2).
    cbn [app]. rewrite <- app_assoc. reflexivity.
Qed.

Lemma parse_value_consumes f : consumes (parse_value f).
Proof.
  induction f as [|f IH]; intros ts v r H; [discriminate |].
  cbn [parse_value] in H.
  destruct ts as [|t ts]; [discriminate |].
  destruct t; try discriminate.
  - (* an array *)
    destruct ts as [|t2 ts2].
    + destruct f; discriminate.
    + destruct t2;
        try (destruct (parse_elements (parse_value f) f _)
               as [[vs r']|] eqn:Ee in H; [| discriminate];
             injection H as <- <-;
             destruct (parse_elements_shape _ IH _ _ _ _ Ee)
               as (_ & c & Hc & _);
             exists (TLBrack :: c ++ [TRBrack]); split;
             [cbn [app]; rewrite Hc, <- app_assoc; reflexivity
             | discriminate]).
      injection H as <- <-. exists [TLBrack; TRBrack].
      split; [reflexivity | discriminate].
  - (* an object *)
    destruct ts as [|t2 ts2].
    + destruct f; discriminate.
    + destruct t2;
        try (destruct (parse_members (parse_value f) f _)
               as [[ms r']|] eqn:Em in H; [| discriminate];
             injection H as <- <-;
             destruct (parse_members_shape _ IH _ _ _ _ Em) as (c & Hc);
             exists (TLBrace :: c ++ [TRBrace]); split;
             [cbn [app]; rewrite Hc, <- app_assoc; reflexivity
             | intros _; exists c; reflexivity]).
      injection H as <- <-. exists [TLBrace; TRBrace].
      split; [reflexivity | intros _; exists []; reflexivity].
  - injection H as <- <-. exists [TStr s]. split; [reflexivity | discriminate].
  - injection H as <- <-. exists [TNum m e].
    split; [reflexivity | discriminate].
  - injection H as <- <-. exists [TTrue]. split; [reflexivity | discriminate].
  - injection H as <- <-. exists [TFalse]. split; [reflexivity | discriminate].
  - injection H as <- <-. exists [TNull]. split; [reflexivity | discriminate].
Qed.

(** The tokens of an array of objects. *)
Lemma parse_array_of_objects f ts vs r :
  parse_value f ts = Some (JArr vs, r) ->
  forallb is_object vs = true ->
  vs = [] /\ ts = TLBrack :: TRBrack :: r
  \/ exists mid, ts = TLBrack :: TLBrace :: mid ++ TRBrace :: TRBrack :: r.
Proof.
  intros H Ho. destruct f as [|f]; [discriminate |].
  cbn [parse_value] in H.
  destruct ts as [|t ts]; [discriminate |].
  destruct t; try discriminate.
  - destruct ts as [|t2 ts2].
    + destruct f; discriminate.
    + destruct t2;
        try (destruct (parse_elements (parse_value f) f _)
               as [[vs' r']|] eqn:Ee in H; [| discriminate];
             injection H as <- <-;
             destruct (parse_elements_shape _ (parse_value_consumes f)
                         _ _ _ _ Ee) as (_ & c & Hc & Hf);
             destruct (Hf Ho) as [mid ->];
             right; exists mid; rewrite Hc; cbn [app];
             rewrite <- app_assoc; reflexivity).
      injection H as <- <-. left. split; reflexivity.
  - destruct ts as [|t2 ts2].
    + destruct f; discriminate.
    + destruct t2;
        try (destruct (parse_members (parse_value f) f _)
               as [[ms r']|] in H; discriminate).
      discriminate.
Qed.

(** ** The array pattern on framed text *)

Lemma star_match_stops p w c rest k r :
  Forall (fun x => p x = true) w ->
  k (c :: rest) = Some r ->
  p c = false ->
  star_match p (w ++ c :: rest) k = Some r.
Proof.
  intros Hw Hk Hc. induction Hw as [|x w Hx Hw IH]; cbn [app star_match].
  - rewrite Hc. exact Hk.
  - rewrite Hx, IH. reflexivity.
Qed.

(** No match when the continuation rejects every position. *)
Lemma star_match_none p s k :
  (forall x, k x = None) -> star_match p s k = None.
Proof.
  intros Hk. induction s as [|c s IH]; cbn [star_match]; [apply Hk |].
  destruct (p c); [rewrite IH |]; apply Hk.
Qed.

Lemma star_match_rejects p (d : N) s k :
  (forall x, k x = None \/ exists t, x = d :: t) ->
  Forall (fun c => c <> d) s ->
  star_match p s k = None.
Proof.
  intros Hk Hs. induction Hs as [|c s Hc Hs IH]; cbn [star_match].
  - destruct (Hk []) as [H | [t H]]; [exact H | discriminate].
  - assert (Hks : k (c :: s) = None).
    { destruct (Hk (c :: s)) as [H | [t H]]; [exact H |].
      injection H as -> _. contradiction. }
    destruct (p c); [rewrite IH |]; exact Hks.
Qed.

(** The greedy star over any character backs up to the last [d]. *)
Lemma star_any_backs_up (d : N) before u k r :
  (forall x, k x = None \/ exists t, x = d :: t) ->
  Forall (fun c => c <> d) u ->
  k (d :: u) = Some r ->
  star_match any_char (before ++ d :: u) k = Some r.
Proof.
  intros Hk Hu Hr.
  assert (Hd : star_match any_char (d :: u) k = Some r).
  { cbn [star_match any_char].
    rewrite (star_match_rejects any_char d u k Hk Hu). exact Hr. }
  induction before as [|c before IH]; [exact Hd |].
  cbn [app star_match any_char]. rewrite IH. reflexivity.
Qed.

Lemma rchar_rejects d r k x :
  rmatch (RSeq (RChar d) r) x k = None \/ exists t, x = d :: t.
Proof.
  destruct x as [|c t]; [left; reflexivity |].
  cbn [rmatch]. destruct (N.eqb_spec c d) as [-> | Hne]; eauto.
Qed.

Lemma json_ws_not c d :
  is_json_ws c = true -> is_json_ws d = false -> c <> d.
Proof. intros Hc Hd ->. congruence. Qed.

Lemma rmatch_seq r1 r2 s k :
  rmatch (RSeq r1 r2) s k = rmatch r1 s (fun s' => rmatch r2 s' k).
Proof. reflexivity. Qed.

Lemma rmatch_char c t k : rmatch (RChar c) (c :: t) k = k t.
Proof. cbn [rmatch]. rewrite N.eqb_refl. reflexivity. Qed.

Lemma rmatch_star p s k : rmatch (RStar p) s k = star_match p s k.
Proof. reflexivity. Qed.

Lemma regex_search_here r s rest :
  rmatch r s (fun rest => Some rest) = Some rest ->
  regex_search r s
  = Some ([], firstn (List.length s - List.length rest) s, rest).
Proof. intros H. destruct s; cbn [regex_search]; rewrite H; reflexivity. Qed.

(** On the text of a non-empty array of objects the pattern matches all
    of it. *)
Lemma array_pattern_matches_all w1 mid w2 :
  Forall (fun c => is_json_ws c = true) w1 ->
  Forall (fun c => is_json_ws c = true) w2 ->
  let text := 91%N :: w1 ++ 123%N :: mid ++ 125%N :: w2 ++ [93%N] in
  js_match text re_json_array = Some text.
Proof.
  intros H1 H2 text.
  assert (Hm : rmatch re_json_array text (fun rest => Some rest) = Some []).
  { unfold text, re_json_array.
    rewrite rmatch_seq, rmatch_char, rmatch_seq, rmatch_star.
    apply star_match_stops; [| | reflexivity].
    { eapply Forall_impl; [| exact H1]. apply json_ws_is_js_ws. }
    rewrite rmatch_seq, rmatch_char, rmatch_seq, rmatch_star.
    apply (star_any_backs_up 125).
    - intros x. apply rchar_rejects.
    - apply Forall_app. split.
      + eapply Forall_impl; [| exact H2]. intros c Hc.
        apply (json_ws_not c 125 Hc). reflexivity.
      + constructor; [discriminate | constructor].
    - rewrite rmatch_seq, rmatch_char, rmatch_seq, rmatch_star.
      apply star_match_stops; [| apply rmatch_char | reflexivity].
      eapply Forall_impl; [| exact H2]. apply json_ws_is_js_ws. }
  unfold js_match. rewrite (regex_search_here _ _ _ Hm).
  cbn [List.length]. rewrite Nat.sub_0_r, firstn_all. reflexivity.
Qed.

Lemma no_match_without_bracket s :
  Forall (fun c => c <> 91%N) s -> regex_search re_json_array s = None.
Proof.
  induction 1 as [|c s Hc Hs IH]; [reflexivity |].
  cbn [regex_search]. rewrite IH.
  destruct (rchar_rejects 91 (RSeq (RStar is_js_ws) (RSeq (RChar 123)
              (RSeq (RStar any_char) (RSeq (RChar 125)
                 (RSeq (RStar is_js_ws) (RChar 93))))))
              (fun rest => Some rest) (c :: s)) as [H | [t H]].
  - unfold re_json_array. rewrite H. reflexivity.
  - injection H as -> _. contradiction.
Qed.

(** On the text of an empty array the pattern does not match. *)
Lemma array_pattern_rejects_empty w1 :
  Forall (fun c => is_json_ws c = true) w1 ->
  js_match (91%N :: w1 ++ [93%N]) re_json_array = None.
Proof.
  intros H1. unfold js_match. cbn [regex_search].
  assert (Hw : Forall (fun c => c <> 123%N) (w1 ++ [93%N])).
  { apply Forall_app. split.
    - eapply Forall_impl; [| exact H1]. intros c Hc.
      apply (json_ws_not c 123 Hc). reflexivity.
    - constructor; [discriminate | constructor]. }
  assert (Hm : rmatch re_json_array (91%N :: w1 ++ [93%N])
                 (fun rest => Some rest) = None).
  { unfold re_json_array.
    rewrite rmatch_seq, rmatch_char, rmatch_seq, rmatch_star.
    apply (star_match_rejects is_js_ws 123); [| exact Hw].
    intros x. apply rchar_rejects. }
  rewrite Hm. rewrite no_match_without_bracket; [reflexivity |].
  apply Forall_app. split.
  - eapply Forall_impl; [| exact H1]. intros c Hc.
    apply (json_ws_not c 91 Hc). reflexivity.
  - constructor; [discriminate | constructor].
Qed.

(** ** Trimming *)

Lemma drop_ws_app w c s :
  Forall (fun x => is_js_ws x = true) w ->
  is_js_ws c = false ->
  drop_ws (w ++ c :: s) = c :: s.
Proof.
  intros Hw Hc. induction Hw as [|x w Hx Hw IH]; cbn [app drop_ws].
  - rewrite Hc. reflexivity.
  - rewrite Hx. exact IH.
Qed.

Lemma trim_framed w0 w3 a inner z :
  Forall (fun x => is_json_ws x = true) w0 ->
  Forall (fun x => is_json_ws x = true) w3 ->
  is_js_ws a = false ->
  is_js_ws z = false ->
  trim (w0 ++ (a :: inner ++ [z]) ++ w3) = a :: inner ++ [z].
Proof.
  intros H0 H3 Ha Hz. unfold trim.
  cbn [app]. rewrite drop_ws_app;
    [| eapply Forall_impl; [| exact H0]; apply json_ws_is_js_ws | exact Ha].
  replace (rev (a :: (inner ++ [z]) ++ w3))
    with (rev w3 ++ z :: rev (a :: inner)).
  2:{ change (a :: (inner ++ [z]) ++ w3) with (((a :: inner) ++ [z]) ++ w3).
      rewrite !rev_app_distr. cbn [rev app]. reflexivity. }
  rewrite drop_ws_app; [| | exact Hz].
  - change (z :: rev (a :: inner)) with (rev [z] ++ rev (a :: inner)).
    rewrite <- rev_app_distr, rev_involutive. reflexivity.
  - apply Forall_rev. eapply Forall_impl; [| exact H3].
    apply json_ws_is_js_ws.
Qed.

(** ** Cleaning text that is already a JSON array of objects *)

Lemma JSON_parse_ignores_outer_ws w0 core w3 :
  Forall (fun c => is_json_ws c = true) w0 ->
  Forall (fun c => is_json_ws c = true) w3 ->
  JSON_parse (w0 ++ core ++ w3) = JSON_parse core.
Proof.
  intros H0 H3. unfold JSON_parse.
  rewrite (lex_leading_ws w0 _ H0), (lex_trailing_ws w3 H3). reflexivity.
Qed.

Lemma strip_fences_bracket t : strip_fences (91%N :: t) = 91%N :: t.
Proof. reflexivity. Qed.

(** The text of a JSON array of objects: white space around a bracketed
    core, which is either an empty array or runs from an opening to a
    closing brace. *)
Lemma array_of_objects_text text items :
  JSON_parse text = Some (JArr items) ->
  forallb is_object items = true ->
  exists w0 core w3,
    text = w0 ++ core ++ w3
    /\ Forall (fun c => is_json_ws c = true) w0
    /\ Forall (fun c => is_json_ws c = true) w3
    /\ exists w1,
         Forall (fun c => is_json_ws c = true) w1
         /\ (core = 91%N :: w1 ++ [93%N]
             \/ exists mid w2,
                  Forall (fun c => is_json_ws c = true) w2
                  /\ core = 91%N :: w1 ++ 123%N :: mid ++ 125%N :: w2
                                   ++ [93%N]).
Proof.
  unfold JSON_parse. intros H Ho.
  destruct (lex LIdle text) as [ts|] eqn:El; [| discriminate].
  destruct (parse_value (S (List.length ts)) ts) as [[v [|t r]]|] eqn:Ep;
    try discriminate.
  injection H as ->.
  destruct (parse_array_of_objects _ _ _ _ Ep Ho) as [[_ ->] | [mid ->]].
  - destruct (lex_head_punct TLBrack _ text El eq_refl)
      as (w0 & c & s1 & -> & H0 & Hi & Hl).
    apply lex_idle_char in Hi. cbn in Hi. subst c.
    destruct (lex_closing_bracket s1 Hl) as (w1 & w3 & -> & H1 & H3).
    exists w0, (91%N :: w1 ++ [93%N]), w3. split.
    + cbn [app]. rewrite <- app_assoc. reflexivity.
    + split; [exact H0 | split; [exact H3 |]].
      exists w1. split; [exact H1 | left; reflexivity].
  - destruct (lex_head_punct TLBrack _ text El eq_refl)
      as (w0 & c & s1 & -> & H0 & Hi & Hl).
    apply lex_idle_char in Hi. cbn in Hi. subst c.
    destruct (lex_head_punct TLBrace _ s1 Hl eq_refl)
      as (w1 & c & s2 & -> & H1 & Hi & Hl2).
    apply lex_idle_char in Hi. cbn in Hi. subst c.
    destruct (lex_closing_pair s2 LIdle mid Hl2)
      as (before & w2 & w3 & -> & H2 & H3).
    exists w0, (91%N :: w1 ++ 123%N :: before ++ 125%N :: w2 ++ [93%N]), w3.
    split.
    + cbn [app]. repeat (rewrite <- app_assoc; cbn [app]). reflexivity.
    + split; [exact H0 | split; [exact H3 |]].
      exists w1. split; [exact H1 |]. right. exists before, w2. auto.
Qed.

(** C9: on a text that is strict JSON for an array of objects, trimming,
    fence stripping and array extraction leave the trimmed text, and the
    cleaned text parses to the same value as the original text. *)
Theorem cleaning_keeps_a_json_array_of_objects text items :
  JSON_parse text = Some (JArr items) ->
  forallb is_object items = true ->
  strip_fences (trim text) = trim text
  /\ extract_array (trim text) = trim text
  /\ clean text = trim text
  /\ JSON_parse (clean text) = Some (JArr items).
Proof.
  intros H Ho.
  destruct (array_of_objects_text text items H Ho)
    as (w0 & core & w3 & -> & H0 & H3 & w1 & H1 & Hcore).
  rewrite JSON_parse_ignores_outer_ws in H by assumption.
  assert (Ht : trim (w0 ++ core ++ w3) = core).
  { destruct Hcore as [-> | (mid & w2 & H2 & ->)].
    - apply (trim_framed w0 w3 91 w1 93); auto.
    - replace (91%N :: w1 ++ 123%N :: mid ++ 125%N :: w2 ++ [93%N])
        with (91%N :: (w1 ++ 123%N :: mid ++ 125%N :: w2) ++ [93%N]).
      + apply trim_framed; auto.
      + f_equal. repeat (rewrite <- app_assoc; cbn [app]). reflexivity. }
  assert (Hf : strip_fences core = core).
  { destruct Hcore as [-> | (mid & w2 & H2 & ->)]; apply strip_fences_bracket. }
  assert (He : extract_array core = core).
  { unfold extract_array.
    destruct Hcore as [-> | (mid & w2 & H2 & ->)].
    - rewrite array_pattern_rejects_empty by exact H1. reflexivity.
    - rewrite array_pattern_matches_all by assumption. reflexivity. }
  unfold clean. rewrite Ht, Hf, He. auto.
Qed.

Lemma cleaning_keeps_a_json_array_of_objects_witness :
  let text := json_text " [ {'role_title':'Chef'} , {'role_title':'Pilot'} ] " in
  let items := [JObj [(codes "role_title", JStr (codes "Chef"))];
                JObj [(codes "role_title", JStr (codes "Pilot"))]] in
  JSON_parse text = Some (JArr items)
  /\ forallb is_object items = true
  /\ clean text = trim text
  /\ JSON_parse (clean text) = Some (JArr items).
Proof.
  split; [reflexivity | split; [reflexivity |]].
  apply (cleaning_keeps_a_json_array_of_objects
           (json_text " [ {'role_title':'Chef'} , {'role_title':'Pilot'} ] ")
           [JObj [(codes "role_title", JStr (codes "Chef"))];
            JObj [(codes "role_title", JStr (codes "Pilot"))]]);
    reflexivity.
Defined.

(* ================================================================== *)
(** * The parser accepts the tokens of every value *)
(* ================================================================== *)

(** Induction on values, through the lists they nest. *)
Lemma JsVal_induction (P : JsVal -> Prop) :
  P JUndef -> P JNull ->
  (forall b, P (JBool b)) ->
  (forall m e, P (JNum m e)) ->
  (forall s, P (JStr s)) ->
  (forall items, Forall P items -> P (JArr items)) ->
  (forall fields, Forall (fun kv => P (snd kv)) fields -> P (JObj fields)) ->
  forall v, P v.
Proof.
  intros Hu Hn Hb Hm Hs Ha Ho.
  refine (fix IH (v : JsVal) : P v :=
            match v with
            | JUndef => Hu
            | JNull => Hn
            | JBool b => Hb b
            | JNum m e => Hm m e
            | JStr s => Hs s
            | JArr items =>
                Ha items
                   ((fix go (l : list JsVal) : Forall P l :=
                       match l with
                       | [] => Forall_nil P
                       | x :: t => Forall_cons x (IH x) (go t)
                       end) items)
            | JObj fields =>
                Ho fields
                   ((fix go (l : list (jsstring * JsVal))
                     : Forall (fun kv => P (snd kv)) l :=
                       match l with
                       | [] => Forall_nil _
                       | kv :: t => Forall_cons kv (IH (snd kv)) (go t)
                       end) fields)
            end).
Qed.

Lemma str_eqb_refl s : str_eqb s s = true.
Proof.
  induction s as [|c s IH]; [reflexivity |].
  cbn [str_eqb]. rewrite N.eqb_refl, IH. reflexivity.
Qed.

Lemma JsVal_eqb_refl v : JsVal_eqb v v = true.
Proof.
  induction v as [ | | b | m e | s | items IH | fields IH]
    using JsVal_induction; cbn [JsVal_eqb]; try reflexivity.
  - destruct b; reflexivity.
  - rewrite !Z.eqb_refl. reflexivity.
  - apply str_eqb_refl.
  - induction IH as [|x t Hx Ht IHt]; [reflexivity |].
    rewrite Hx. exact IHt.
  - induction IH as [|[k x] t Hx Ht IHt]; [reflexivity |].
    cbn [snd] in Hx. rewrite str_eqb_refl, Hx. exact IHt.
Qed.

(** A row stored for a user is a row of that user. *)
Lemma stored_row_is_found payload stamp rows :
  In (stored payload stamp)
     (rows_of_user (rows ++ [stored payload stamp]) (p_user_id payload)).
Proof.
  unfold rows_of_user. apply filter_In. split.
  - apply in_or_app. right. left. reflexivity.
  - cbn [stored user_id]. apply JsVal_eqb_refl.
Qed.

Lemma tokens_of_head v :
  exists t rest, tokens_of v = t :: rest /\ starts_value t = true.
Proof.
  destruct v as [ | | [|] | m e | s | items | fields]; cbn [tokens_of];
    eauto.
Qed.

Lemma parse_array_step f t ts :
  starts_value t = true ->
  parse_value (S f) (TLBrack :: t :: ts)
  = match parse_elements (parse_value f) f (t :: ts) with
    | Some (vs, r) => Some (JArr vs, r)
    | None => None
    end.
Proof. destruct t; intros H; try discriminate H; reflexivity. Qed.

Lemma parse_object_step f k ts :
  parse_value (S f) (TLBrace :: TStr k :: ts)
  = match parse_members (parse_value f) f (TStr k :: ts) with
    | Some (ms, r) => Some (object_of_members ms, r)
    | None => None
    end.
Proof. reflexivity. Qed.

Lemma join_tokens_cons part parts :
  parts <> [] ->
  join_tokens (part :: parts) = part ++ TComma :: join_tokens parts.
Proof. destruct parts; [contradiction | reflexivity]. Qed.

Lemma parse_elements_accepts pv items :
  items <> [] ->
  Forall (fun x => forall r, pv (tokens_of x ++ r) = Some (read_back x, r))
         items ->
  forall f r,
    (List.length items <= f)%nat ->
    parse_elements pv f (join_tokens (map tokens_of items) ++ TRBrack :: r)
    = Some (map read_back items, r).
Proof.
  intros Hne Hall. induction Hall as [|x rest Hx Hrest IH];
    [contradiction |].
  intros f r Hf. destruct f as [|f]; [cbn in Hf; lia |].
  destruct rest as [|y rest].
  - cbn [map join_tokens parse_elements]. rewrite Hx. reflexivity.
  - rewrite map_cons, join_tokens_cons by discriminate.
    rewrite <- app_assoc. cbn [app parse_elements]. rewrite Hx.
    rewrite IH; [reflexivity | discriminate | cbn in Hf |- *; lia].
Qed.

Lemma parse_members_accepts pv fields :
  fields <> [] ->
  Forall (fun kv => forall r,
              pv (tokens_of (snd kv) ++ r) = Some (read_back (snd kv), r))
         fields ->
  forall f r,
    (List.length fields <= f)%nat ->
    parse_members pv f
      (join_tokens
         (map (fun kv => TStr (fst kv) :: TColon :: tokens_of (snd kv)) fields)
       ++ TRBrace :: r)
    = Some (map (fun kv => (fst kv, read_back (snd kv))) fields, r).
Proof.
  intros Hne Hall. induction Hall as [|[k x] rest Hx Hrest IH];
    [contradiction |].
  intros f r Hf. destruct f as [|f]; [cbn in Hf; lia |].
  cbn [fst snd] in Hx.
  destruct rest as [|y rest].
  - cbn [map join_tokens parse_members fst snd app]. rewrite Hx. reflexivity.
  - rewrite map_cons, join_tokens_cons by discriminate.
    cbn [fst snd]. rewrite <- app_assoc.
    cbn [app parse_members]. rewrite Hx.
    rewrite IH; [reflexivity | discriminate | cbn in Hf |- *; lia].
Qed.

Lemma join_tokens_bounds (parts : list (list token)) :
  Forall (fun part => (1 <= List.length part)%nat) parts ->
  (List.length parts <= List.length (join_tokens parts))%nat
  /\ Forall (fun part =>
               (List.length part <= List.length (join_tokens parts))%nat)
            parts.
Proof.
  induction 1 as [|part rest Hp Hrest [IHn IHa]];
    [split; [cbn; lia | constructor] |].
  destruct rest as [|q rest].
  - cbn [join_tokens List.length]. split; [lia | constructor; [lia | constructor]].
  - rewrite join_tokens_cons by discriminate.
    rewrite length_app. cbn [List.length] in *. split; [lia |].
    constructor; [lia |].
    eapply Forall_impl; [| exact IHa]. cbn. intros a Ha. lia.
Qed.

Lemma tokens_of_length v : (1 <= List.length (tokens_of v))%nat.
Proof.
  destruct (tokens_of_head v) as (t & rest & -> & _). cbn. lia.
Qed.

(** With at least as much fuel as there are tokens, the parser reads the
    tokens of a value back, whatever follows them. *)
Theorem parse_value_accepts v :
  forall f r,
    (List.length (tokens_of v) <= f)%nat ->
    parse_value f (tokens_of v ++ r) = Some (read_back v, r).
Proof.
  induction v as [ | | b | m e | s | items IH | fields IH]
    using JsVal_induction; intros f r Hf;
    (destruct f as [|f];
     [match type of Hf with
      | (List.length (tokens_of ?x) <= _)%nat =>
          pose proof (tokens_of_length x); lia
      end |]);
    try reflexivity.
  - destruct b; reflexivity.
  - (* arrays *)
    destruct items as [|x rest]; [reflexivity |].
    cbn [tokens_of] in Hf |- *. cbn [app].
    rewrite <- app_assoc. cbn [app].
    cbn [List.length] in Hf. rewrite length_app in Hf.
    cbn [List.length] in Hf.
    destruct (join_tokens_bounds (map tokens_of (x :: rest))) as [Hn Ha].
    { apply Forall_map, Forall_forall. intros y _. apply tokens_of_length. }
    rewrite length_map in Hn.
    assert (Hpv : Forall (fun y => forall r0,
                     parse_value f (tokens_of y ++ r0)
                     = Some (read_back y, r0)) (x :: rest)).
    { apply Forall_forall. intros y Hy r0.
      rewrite Forall_forall in IH. apply (IH y Hy).
      rewrite Forall_forall in Ha.
      specialize (Ha (tokens_of y) (in_map tokens_of _ _ Hy)). lia. }
    assert (He := parse_elements_accepts (parse_value f) (x :: rest)
                    ltac:(discriminate) Hpv f r ltac:(lia)).
    destruct (tokens_of_head x) as (t & ts & Ht & Hs).
    destruct (join_tokens (map tokens_of (x :: rest)) ++ TRBrack :: r)
      as [|t' ts'] eqn:Ej.
    { destruct rest; cbn [map join_tokens] in Ej; rewrite Ht in Ej;
        discriminate Ej. }
    assert (t' = t) as ->.
    { destruct rest; cbn [map join_tokens] in Ej; rewrite Ht in Ej;
        cbn [app] in Ej; congruence. }
    rewrite (parse_array_step f t ts' Hs), He. reflexivity.
  - (* objects *)
    destruct fields as [|[k x] rest]; [reflexivity |].
    cbn [tokens_of] in Hf |- *. cbn [app].
    rewrite <- app_assoc. cbn [app].
    cbn [List.length] in Hf. rewrite length_app in Hf.
    cbn [List.length] in Hf.
    set (member := fun kv : jsstring * JsVal =>
                     TStr (fst kv) :: TColon :: tokens_of (snd kv)) in *.
    destruct (join_tokens_bounds (map member ((k, x) :: rest))) as [Hn Ha].
    { apply Forall_map, Forall_forall. intros y _. unfold member.
      cbn [List.length]. lia. }
    rewrite length_map in Hn.
    assert (Hpv : Forall (fun kv => forall r0,
                     parse_value f (tokens_of (snd kv) ++ r0)
                     = Some (read_back (snd kv), r0)) ((k, x) :: rest)).
    { apply Forall_forall. intros y Hy r0.
      rewrite Forall_forall in IH. apply (IH y Hy).
      rewrite Forall_forall in Ha.
      specialize (Ha (member y) (in_map member _ _ Hy)).
      subst member. cbv beta in Ha. cbn [List.length] in Ha. lia. }
    assert (Hm := parse_members_accepts (parse_value f) ((k, x) :: rest)
                    ltac:(discriminate) Hpv f r ltac:(lia)).
    fold member in Hm.
    destruct (join_tokens (map member ((k, x) :: rest)) ++ TRBrace :: r)
      as [|t' ts'] eqn:Ej.
    { destruct rest; cbn [map join_tokens member] in Ej; discriminate Ej. }
    assert (t' = TStr k) as ->.
    { destruct rest; cbn [map join_tokens member fst app] in Ej; congruence. }
    rewrite parse_object_step, Hm. reflexivity.
Qed.

(** [JSON.parse] reads every text whose tokens are those of a value. *)
Corollary JSON_parse_accepts text v :
  lex LIdle text = Some (tokens_of v) ->
  JSON_parse text = Some (read_back v).
Proof.
  intros Hl. unfold JSON_parse. rewrite Hl.
  rewrite <- (app_nil_r (tokens_of v)) at 2.
  rewrite parse_value_accepts by lia. reflexivity.
Qed.

(* ================================================================== *)
(** * Further properties of the route *)
(* ================================================================== *)

(** ** What a run does to the table and which calls it makes *)

Lemma grown_nothing w : w = grown w [] [].
Proof. destruct w. unfold grown. cbn. rewrite !app_nil_r. reflexivity. Qed.

Lemma logged_grown w calls : logged w calls = grown w [] calls.
Proof. unfold logged, grown. rewrite app_nil_r. reflexivity. Qed.

Lemma grown_grown w a1 c1 a2 c2 :
  grown (grown w a1 c1) a2 c2 = grown w (a1 ++ a2) (c1 ++ c2).
Proof. unfold grown. cbn. rewrite !app_assoc. reflexivity. Qed.

Lemma payload_of_user userId rec payload :
  payload_of userId rec = Ok payload -> p_user_id payload = userId.
Proof.
  unfold payload_of, rbind.
  destruct (get_prop rec "role_title"); [| discriminate].
  destruct (get_prop rec "description"); [| discriminate].
  destruct (get_prop rec "why_it_fits_professionally"); [| discriminate].
  destruct (get_prop rec "why_it_fits_personally"); [| discriminate].
  intros [= <-]. reflexivity.
Qed.

(** The save loop appends rows of the user and logs one insertion per
    row it tries, never more than there are elements. *)
Lemma save_loop_effect env userId recs :
  forall i w,
  exists r added inserts,
    save_loop env userId i recs w = (r, grown w added inserts)
    /\ Forall (fun row => user_id row = userId) added
    /\ Forall (inserts_for userId) inserts
    /\ (List.length added <= List.length inserts)%nat
    /\ (List.length inserts <= List.length recs)%nat.
Proof.
  induction recs as [|rec rest IH]; intros i w.
  - exists (Ok tt), [], []. cbn [save_loop ret]. rewrite <- grown_nothing.
    repeat split; auto.
  - cbn [save_loop]. unfold bind at 1, lift.
    destruct (payload_of userId rec) as [payload|e] eqn:Ep.
    2:{ exists (Throw e), [], []. rewrite <- grown_nothing.
        repeat split; auto. cbn. lia. }
    assert (Hu := payload_of_user userId rec payload Ep).
    assert (Hev : inserts_for userId (InsertRecommendation payload))
      by (exists payload; auto).
    unfold bind, insert_recommendation, bind, log, lift, ret.
    change {| role_recommendations := role_recommendations w;
              trace := trace w ++ [InsertRecommendation payload] |}
      with (logged w [InsertRecommendation payload]).
    destruct (insert_fate env i) as [stamp|err|e].
    + match goal with
      | |- context [save_loop env userId (S i) rest ?w1] =>
          change w1 with (grown w [stored payload stamp]
                                [InsertRecommendation payload]);
          destruct (IH (S i) (grown w [stored payload stamp]
                                    [InsertRecommendation payload]))
            as (r & added & inserts & Hs & Ha & Hi & Hl1 & Hl2)
      end.
      rewrite Hs, grown_grown.
      exists r, (stored payload stamp :: added),
             (InsertRecommendation payload :: inserts).
      repeat split; cbn [app List.length]; auto; try lia.
    + rewrite logged_grown.
      destruct (IH (S i) (grown w [] [InsertRecommendation payload]))
        as (r & added & inserts & Hs & Ha & Hi & Hl1 & Hl2).
      rewrite Hs, grown_grown.
      exists r, added, (InsertRecommendation payload :: inserts).
      repeat split; cbn [app List.length]; auto; try lia.
    + rewrite logged_grown.
      exists (Throw e), [], [InsertRecommendation payload].
      repeat split; cbn [List.length]; auto; try lia.
Qed.

Lemma save_effect env userId recs w :
  exists added inserts,
    save env userId recs w = (Ok tt, grown w added inserts)
    /\ Forall (fun row => user_id row = userId) added
    /\ Forall (inserts_for userId) inserts
    /\ (List.length added <= List.length inserts)%nat
    /\ (List.length inserts <= List.length recs)%nat.
Proof.
  unfold save, try_catch.
  destruct (save_loop_effect env userId recs 0 w)
    as (r & added & inserts & Hs & H).
  rewrite Hs. exists added, inserts.
  split; [destruct r as [[]|e]; reflexivity | exact H].
Qed.

Lemma generate_effect env userId messages w :
  exists recs added inserts,
    generate env userId messages w
    = (Ok (respond recs), grown w added (ChatCompletion messages :: inserts))
    /\ Forall (fun row => user_id row = userId) added
    /\ Forall (inserts_for userId) inserts
    /\ (List.length added <= List.length inserts)%nat.
Proof.
  unfold generate, try_catch, bind, chat_completions, post, bind, log, lift, ret;
    cbn [abortSignal body_messages].
  change {| role_recommendations := role_recommendations w;
            trace := trace w ++ [ChatCompletion messages] |}
    with (logged w [ChatCompletion messages]).
  rewrite logged_grown.
  assert (Hnone : exists recs added inserts,
             (Ok (respond defaultRecommendations),
              grown w [] [ChatCompletion messages])
             = (Ok (respond recs),
                grown w added (ChatCompletion messages :: inserts))
             /\ Forall (fun row => user_id row = userId) added
             /\ Forall (inserts_for userId) inserts
             /\ (List.length added <= List.length inserts)%nat).
  { exists defaultRecommendations, [], []. repeat split; auto. }
  destruct (model_outcome env messages) as [e|response_body];
    [exact Hnone |].
  destruct (truthy response_body); cbn [negb]; [| exact Hnone].
  destruct (roleRecommendations_of response_body) as [recs|e];
    [| exact Hnone].
  destruct (save_effect env userId recs
              (grown w [] [ChatCompletion messages]))
    as (added & inserts & Hs & Ha & Hi & Hl & _).
  rewrite Hs, grown_grown. exists recs, added, inserts.
  repeat split; auto.
Qed.

(** Every run: the table grows by rows of the requesting user, and the
    calls are none, or those of one of the three shapes. *)
Lemma POST_effect env request w :
  exists added calls,
    snd (POST env request w) = grown w added calls
    /\ (added = [] /\ calls = []
        \/ exists userId,
             userId_of request = Ok userId
             /\ truthy userId = true
             /\ Forall (fun row => user_id row = userId) added
             /\ RunCalls userId calls
             /\ (List.length added
                 <= List.length (filter is_insert calls))%nat).
Proof.
  unfold POST, handle, bind, lift.
  destruct (userId_of request) as [userId|e] eqn:Hu.
  2:{ exists [], []. split; [apply grown_nothing | left; auto]. }
  destruct (truthy userId) eqn:Ht; cbn [negb].
  2:{ exists [], []. split; [apply grown_nothing | left; auto]. }
  unfold select_profile, bind, log, lift, ret.
  change {| role_recommendations := role_recommendations w;
            trace := trace w ++ [SelectProfile userId] |}
    with (logged w [SelectProfile userId]).
  rewrite logged_grown.
  assert (H1 : exists added calls,
             grown w [] [SelectProfile userId] = grown w added calls
             /\ (added = [] /\ calls = []
                 \/ exists userId0,
                      Ok userId = Ok userId0
                      /\ truthy userId0 = true
                      /\ Forall (fun row => user_id row = userId0) added
                      /\ RunCalls userId0 calls
                      /\ (List.length added
                          <= List.length (filter is_insert calls))%nat)).
  { exists [], [SelectProfile userId]. split; [reflexivity |].
    right. exists userId. repeat split; auto. constructor. }
  destruct (profile_reply env userId) as [e|data error]; [exact H1 |].
  destruct (truthy error); [exact H1 |].
  destruct (get_prop_opt data "discovery_data") as [dd|e]; [| exact H1].
  destruct (truthy dd); cbn [negb]; [| exact H1].
  unfold select_recommendations, bind, log, lift, ret.
  change {| role_recommendations :=
              role_recommendations (grown w [] [SelectProfile userId]);
            trace := trace (grown w [] [SelectProfile userId])
                     ++ [SelectRecommendations userId] |}
    with (logged (grown w [] [SelectProfile userId])
                 [SelectRecommendations userId]).
  rewrite logged_grown, grown_grown. cbn [app].
  assert (H2 : exists added calls,
             grown w [] [SelectProfile userId; SelectRecommendations userId]
             = grown w added calls
             /\ (added = [] /\ calls = []
                 \/ exists userId0,
                      Ok userId = Ok userId0
                      /\ truthy userId0 = true
                      /\ Forall (fun row => user_id row = userId0) added
                      /\ RunCalls userId0 calls
                      /\ (List.length added
                          <= List.length (filter is_insert calls))%nat)).
  { exists [], [SelectProfile userId; SelectRecommendations userId].
    split; [reflexivity |].
    right. exists userId. repeat split; auto. constructor. }
  assert (H3 : forall messages,
             exists added calls,
               snd (match generate env userId messages
                            (grown w [] [SelectProfile userId;
                                         SelectRecommendations userId]) with
                    | (Ok response, w') => (response, w')
                    | (Throw _, w') => (respond defaultRecommendations, w')
                    end) = grown w added calls
               /\ (added = [] /\ calls = []
                   \/ exists userId0,
                        Ok userId = Ok userId0
                        /\ truthy userId0 = true
                        /\ Forall (fun row => user_id row = userId0) added
                        /\ RunCalls userId0 calls
                        /\ (List.length added
                            <= List.length (filter is_insert calls))%nat)).
  { intros messages.
    destruct (generate_effect env userId messages
                (grown w [] [SelectProfile userId;
                             SelectRecommendations userId]))
      as (recs & added & inserts & Hg & Ha & Hi & Hl).
    rewrite Hg, grown_grown. cbn [app snd].
    exists added,
      ([SelectProfile userId; SelectRecommendations userId;
        ChatCompletion messages] ++ inserts).
    split; [reflexivity |]. right. exists userId.
    repeat split; auto; [constructor; exact Hi |].
    cbn [app filter is_insert].
    assert (Hf : filter is_insert inserts = inserts).
    { clear - Hi. induction Hi as [|ev l [p [-> _]] Hl IH]; [reflexivity |].
      cbn [filter is_insert]. rewrite IH. reflexivity. }
    rewrite Hf. exact Hl. }
  destruct (select_fate env) as [|err|e].
  - destruct (cache_hit
                (Some (select_recent
                         (role_recommendations
                            (grown w [] [SelectProfile userId;
                                         SelectRecommendations userId]))
                         userId)) JNull); [exact H2 |].
    destruct (prepare_messages dd) as [messages|e]; [| exact H2].
    apply H3.
  - destruct (cache_hit None err); [exact H2 |].
    destruct (prepare_messages dd) as [messages|e]; [| exact H2].
    apply H3.
  - exact H2.
Qed.

(** X1: whatever the request and the collaborators, the response is the
    400 response, given without any call and only for a body from which
    a falsy [userId] was read, or it has status 200 and a body
    [{ recommendations: [...] }]. *)
Theorem POST_answers_400_or_recommendations env request w :
  (POST env request w = (bad_request, w)
   /\ exists userId, userId_of request = Ok userId /\ truthy userId = false)
  \/ exists recs,
       fst (POST env request w) = respond recs
       /\ status (fst (POST env request w)) = 200%Z.
Proof.
  destruct (userId_of request) as [userId|e] eqn:Hu.
  - destruct (truthy userId) eqn:Ht.
    + right. destruct (POST_cases env request w userId Hu Ht)
        as (recs & w' & Hp & _).
      exists recs. rewrite Hp. split; reflexivity.
    + left. split; [| eauto].
      unfold POST, handle, bind, lift. rewrite Hu, Ht. reflexivity.
  - right. exists defaultRecommendations.
    unfold POST, handle, bind, lift. rewrite Hu. split; reflexivity.
Qed.

(** X2: a run never removes or changes a row of [role_recommendations]:
    the table after the run is the table before it followed by new rows,
    and every new row carries the [userId] of the request. *)
Theorem table_grows_by_rows_of_the_user env request w :
  exists added,
    role_recommendations (snd (POST env request w))
    = role_recommendations w ++ added
    /\ forall row, In row added -> userId_of request = Ok (user_id row).
Proof.
  destruct (POST_effect env request w) as (added & calls & Hw & H).
  exists added. rewrite Hw. split; [reflexivity |].
  destruct H as [[-> _] | (userId & Hu & _ & Ha & _)].
  - intros row [].
  - intros row Hin. rewrite Forall_forall in Ha. rewrite (Ha row Hin).
    exact Hu.
Qed.

(** X3: the calls of a run come in one order: the profile lookup, then
    the cache query, then the model call, then insertions for the user of
    the request; a run stops after any of them.  So the model is called
    at most once, never before both reads, and nothing is inserted
    without a model call. *)
Theorem calls_come_in_one_order env request w :
  exists calls,
    trace (snd (POST env request w)) = trace w ++ calls
    /\ (List.length (filter is_model_call calls) <= 1)%nat
    /\ (calls = []
        \/ exists userId,
             userId_of request = Ok userId
             /\ truthy userId = true
             /\ RunCalls userId calls).
Proof.
  destruct (POST_effect env request w) as (added & calls & Hw & H).
  exists calls. rewrite Hw. split; [reflexivity |].
  destruct H as [[_ ->] | (userId & Hu & Ht & _ & Hr & _)].
  - split; [cbn; lia | left; reflexivity].
  - split; [| right; eauto].
    destruct Hr as [| | messages inserts Hi]; try (cbn; lia).
    cbn [app filter is_model_call List.length].
    assert (Hf : filter is_model_call inserts = []).
    { clear - Hi. induction Hi as [|ev l [p [-> _]] Hl IH]; [reflexivity |].
      cbn [filter is_model_call]. exact IH. }
    rewrite Hf. cbn. lia.
Qed.

(** ** The response does not depend on the insertions *)

Lemma generate_response_ignores_inserts env env' userId messages w w' :
  model_outcome env messages = model_outcome env' messages ->
  fst (generate env userId messages w) = fst (generate env' userId messages w').
Proof.
  intros Hm.
  unfold generate, try_catch, bind, chat_completions, post, bind, log, lift, ret;
    cbn [abortSignal body_messages].
  rewrite <- Hm.
  destruct (model_outcome env messages) as [e|response_body];
    [reflexivity |].
  destruct (truthy response_body); cbn [negb]; [| reflexivity].
  destruct (roleRecommendations_of response_body) as [recs|e];
    [| reflexivity].
  match goal with
  | |- context [save env userId recs ?w1] =>
      destruct (save_returns env userId recs w1) as [w2 ->]
  end.
  match goal with
  | |- context [save env' userId recs ?w1] =>
      destruct (save_returns env' userId recs w1) as [w3 ->]
  end.
  reflexivity.
Qed.

(** X4: whether the insertions succeed, fail or throw has no influence
    on the response: two environments that differ only in the fate of the
    insertions give the same response to the same request. *)
Theorem response_ignores_insert_fates env env' request w :
  (forall userId, profile_reply env userId = profile_reply env' userId) ->
  select_fate env = select_fate env' ->
  (forall messages, model_outcome env messages = model_outcome env' messages) ->
  fst (POST env request w) = fst (POST env' request w).
Proof.
  intros Hp Hs Hm.
  unfold POST, handle, bind, lift.
  destruct (userId_of request) as [userId|e]; [| reflexivity].
  destruct (truthy userId); cbn [negb]; [| reflexivity].
  unfold select_profile, bind, log, lift, ret. rewrite <- Hp.
  destruct (profile_reply env userId) as [e|data error]; [reflexivity |].
  destruct (truthy error); [reflexivity |].
  destruct (get_prop_opt data "discovery_data") as [dd|e]; [| reflexivity].
  destruct (truthy dd); cbn [negb]; [| reflexivity].
  unfold select_recommendations, bind, log, lift, ret. rewrite <- Hs.
  assert (Hg : forall messages w1,
             fst (match generate env userId messages w1 with
                  | (Ok response, w') => (response, w')
                  | (Throw _, w') => (respond defaultRecommendations, w')
                  end)
             = fst (match generate env' userId messages w1 with
                    | (Ok response, w') => (response, w')
                    | (Throw _, w') => (respond defaultRecommendations, w')
                    end)).
  { intros messages w1.
    assert (H := generate_response_ignores_inserts env env' userId messages
                   w1 w1 (Hm messages)).
    destruct (generate env userId messages w1) as [[r1|e1] w2];
      destruct (generate env' userId messages w1) as [[r2|e2] w3];
      cbn [fst] in H |- *; try discriminate H; congruence. }
  destruct (select_fate env) as [|err|e]; [| | reflexivity].
  - cbn [role_recommendations].
    destruct (cache_hit (Some (select_recent (role_recommendations w) userId))
                        JNull); [reflexivity |].
    destruct (prepare_messages dd) as [messages|e]; [| reflexivity].
    apply Hg.
  - destruct (cache_hit None err); [reflexivity |].
    destruct (prepare_messages dd) as [messages|e]; [| reflexivity].
    apply Hg.
Qed.

Lemma response_ignores_insert_fates_witness :
  let env := scenario full_profile (ModelResponds (chat_response bare_reply)) in
  let env' := {| profile_reply := profile_reply env;
                 select_fate := select_fate env;
                 insert_fate := fun _ => InsertThrows NetworkError;
                 model_outcome := model_outcome env;
                 model_latency := model_latency env |} in
  let request := request_with "{'userId':'u1'}" in
  fst (POST env request empty_world) = fst (POST env' request empty_world)
  /\ role_recommendations (snd (POST env request empty_world))
     <> role_recommendations (snd (POST env' request empty_world)).
Proof.
  split.
  - apply (response_ignores_insert_fates
             (scenario full_profile (ModelResponds (chat_response bare_reply)))
             {| profile_reply :=
                  profile_reply (scenario full_profile
                                   (ModelResponds (chat_response bare_reply)));
                select_fate := SelectAnswers;
                insert_fate := fun _ => InsertThrows NetworkError;
                model_outcome := fun _ =>
                  ModelResponds (chat_response bare_reply);
                model_latency := fun _ => 1200%Z |}
             (request_with "{'userId':'u1'}") empty_world);
      reflexivity.
  - vm_compute. discriminate.
Defined.

(** ** Failures before and inside the model call *)

(** X5: when the profile lookup rejects or reports an error, the
    response is the default set and the lookup is the only call: the
    cache is not read, however many rows the user has. *)
Theorem profile_failure_gives_defaults env request w userId :
  userId_of request = Ok userId ->
  truthy userId = true ->
  (exists e, profile_reply env userId = StoreThrows e)
  \/ (exists data error,
        profile_reply env userId = StoreReturns data error
        /\ truthy error = true) ->
  POST env request w
  = (respond defaultRecommendations, logged w [SelectProfile userId]).
Proof.
  intros Hu Ht Hp.
  unfold POST, handle, bind, lift. rewrite Hu, Ht. cbn [negb].
  unfold select_profile, bind, log, lift, ret.
  destruct Hp as [[e ->] | (data & error & -> & ->)]; reflexivity.
Qed.

Lemma profile_failure_gives_defaults_witness :
  let env := {| profile_reply := fun _ =>
                  StoreReturns JNull (JObj [(codes "code",
                                             JStr (codes "PGRST116"))]);
                select_fate := SelectAnswers;
                insert_fate := fun i => InsertStores (Z.of_nat i);
                model_outcome := fun _ => ModelRejects AbortError;
                model_latency := fun _ => 1200%Z |} in
  let request := request_with "{'userId':'u1'}" in
  userId_of request = Ok user1
  /\ truthy user1 = true
  /\ POST env request stocked_world
     = (respond defaultRecommendations,
        logged stocked_world [SelectProfile user1]).
Proof.
  split; [reflexivity | split; [reflexivity |]].
  apply (profile_failure_gives_defaults
           {| profile_reply := fun _ =>
                StoreReturns JNull (JObj [(codes "code",
                                           JStr (codes "PGRST116"))]);
              select_fate := SelectAnswers;
              insert_fate := fun i => InsertStores (Z.of_nat i);
              model_outcome := fun _ => ModelRejects AbortError;
              model_latency := fun _ => 1200%Z |}
           (request_with "{'userId':'u1'}") stocked_world user1);
    try reflexivity.
  right. exists JNull, (JObj [(codes "code", JStr (codes "PGRST116"))]).
  split; reflexivity.
Defined.

(** X6: when the model responds with a body from which
    [choices[0].message.content] cannot be read (an error payload, an
    empty list of choices), the [catch] of the parse step throws in turn
    while logging, the outer [catch] of the model call takes over, and
    the default set is returned without any insertion. *)
Theorem unreadable_response_gives_defaults_without_insert
    env userId messages w response_body e :
  model_outcome env messages = ModelResponds response_body ->
  truthy response_body = true ->
  response_content response_body = Throw e ->
  generate env userId messages w
  = (Ok (respond defaultRecommendations), logged w [ChatCompletion messages]).
Proof.
  intros Hm Ht Hc.
  unfold generate, try_catch, bind, chat_completions, post, bind, log, lift, ret;
    cbn [abortSignal body_messages].
  rewrite Hm, Ht. cbn [negb].
  unfold roleRecommendations_of, parse_reply. rewrite Hc. reflexivity.
Qed.

Lemma unreadable_response_gives_defaults_without_insert_witness :
  let response_body :=
    JObj [(codes "error", JObj [(codes "code", JStr (codes "429"))])] in
  let env := scenario full_profile (ModelResponds response_body) in
  truthy response_body = true
  /\ response_content response_body = Throw TypeError
  /\ generate env user1 full_profile_messages empty_world
     = (Ok (respond defaultRecommendations),
        logged empty_world [ChatCompletion full_profile_messages]).
Proof.
  split; [reflexivity | split; [reflexivity |]].
  apply (unreadable_response_gives_defaults_without_insert
           (scenario full_profile
              (ModelResponds
                 (JObj [(codes "error",
                         JObj [(codes "code", JStr (codes "429"))])])))
           user1 full_profile_messages empty_world
           (JObj [(codes "error", JObj [(codes "code", JStr (codes "429"))])])
           TypeError);
    reflexivity.
Defined.

(** ** The save loop *)

Lemma save_loop_stores env userId stamp recs payloads :
  Forall2 (fun rec payload => payload_of userId rec = Ok payload)
          recs payloads ->
  forall i w,
    (forall j, (j < List.length recs)%nat ->
               insert_fate env (i + j) = InsertStores (stamp (i + j)%nat)) ->
    save_loop env userId i recs w
    = (Ok tt, grown w (stamped stamp i payloads)
                      (map InsertRecommendation payloads)).
Proof.
  induction 1 as [|rec payload recs payloads Hp Hrest IH]; intros i w Hf.
  - cbn [save_loop ret stamped map]. rewrite <- grown_nothing. reflexivity.
  - cbn [save_loop]. unfold bind at 1, lift. rewrite Hp.
    unfold bind, insert_recommendation, bind, log, lift, ret.
    assert (H0 := Hf 0%nat ltac:(cbn; lia)). rewrite Nat.add_0_r in H0.
    rewrite H0.
    match goal with
    | |- context [save_loop env userId (S i) recs ?w1] =>
        change w1 with (grown w [stored payload (stamp i)]
                              [InsertRecommendation payload])
    end.
    rewrite IH.
    + rewrite grown_grown. reflexivity.
    + intros j Hj. replace (S i + j)%nat with (i + S j)%nat by lia.
      apply Hf. cbn [List.length]. lia.
Qed.

Lemma generation_rows
    env userId messages w response_body recs payloads stamp :
  model_outcome env messages = ModelResponds response_body ->
  truthy response_body = true ->
  parse_reply response_body = Ok recs ->
  Forall2 (fun rec payload => payload_of userId rec = Ok payload)
          recs payloads ->
  (forall i, (i < List.length recs)%nat ->
             insert_fate env i = InsertStores (stamp i)) ->
  generate env userId messages w
  = (Ok (respond recs),
     grown w (stamped stamp 0 payloads)
             (ChatCompletion messages :: map InsertRecommendation payloads)).
Proof.
  intros Hm Ht Hp Hpay Hf.
  unfold generate, try_catch, bind, chat_completions, post, bind, log, lift, ret;
    cbn [abortSignal body_messages].
  rewrite Hm, Ht. cbn [negb]. unfold roleRecommendations_of. rewrite Hp.
  unfold save, try_catch.
  change {| role_recommendations := role_recommendations w;
            trace := trace w ++ [ChatCompletion messages] |}
    with (logged w [ChatCompletion messages]).
  rewrite logged_grown.
  rewrite (save_loop_stores env userId stamp recs payloads Hpay)
    by (intros j Hj; apply Hf; exact Hj).
  rewrite grown_grown. reflexivity.
Qed.

(** X7: a successful generation.  When the reply parses to a list whose
    elements all have properties to read (none is [null]) and the store
    accepts every insertion, the response is the parsed list and the
    table receives one row per element, in the order of the list, each
    tagged with the [userId] and holding the four fields read from the
    element ([NULL] for a field that is missing). *)
Theorem generation_stores_one_row_per_element
    env userId messages w response_body recs payloads stamp :
  model_outcome env messages = ModelResponds response_body ->
  truthy response_body = true ->
  parse_reply response_body = Ok recs ->
  Forall2 (fun rec payload => payload_of userId rec = Ok payload)
          recs payloads ->
  (forall i, (i < List.length recs)%nat ->
             insert_fate env i = InsertStores (stamp i)) ->
  generate env userId messages w
  = (Ok (respond recs),
     grown w (stamped stamp 0 payloads)
             (ChatCompletion messages :: map InsertRecommendation payloads)).
Proof. apply generation_rows. Qed.

Lemma generation_stores_one_row_per_element_witness :
  let env := scenario full_profile (ModelResponds (chat_response bare_reply)) in
  let chef := {| p_user_id := user1;
                 p_role_title := JStr (codes "Chef");
                 p_description := JUndef;
                 p_why_it_fits_professionally := JUndef;
                 p_why_it_fits_personally := JUndef |} in
  let pilot := {| p_user_id := user1;
                  p_role_title := JStr (codes "Pilot");
                  p_description := JUndef;
                  p_why_it_fits_professionally := JUndef;
                  p_why_it_fits_personally := JUndef |} in
  let recs := [JObj [(codes "role_title", JStr (codes "Chef"))];
               JObj [(codes "role_title", JStr (codes "Pilot"))]] in
  parse_reply (chat_response bare_reply) = Ok recs
  /\ generate env user1 full_profile_messages empty_world
     = (Ok (respond recs),
        grown empty_world (stamped Z.of_nat 0 [chef; pilot])
              (ChatCompletion full_profile_messages
               :: map InsertRecommendation [chef; pilot])).
Proof.
  split; [reflexivity |].
  apply (generation_stores_one_row_per_element
           (scenario full_profile (ModelResponds (chat_response bare_reply)))
           user1 full_profile_messages empty_world
           (chat_response bare_reply));
    try reflexivity.
  repeat constructor.
Defined.

Lemma stamped_length stamp i payloads :
  List.length (stamped stamp i payloads) = List.length payloads.
Proof.
  revert i. induction payloads as [|p rest IH]; intros i; [reflexivity |].
  cbn [stamped List.length]. rewrite IH. reflexivity.
Qed.

(** The loop over a prefix whose insertions are all stored. *)
Lemma save_loop_prefix env userId stamp before payloads rest :
  Forall2 (fun rec payload => payload_of userId rec = Ok payload)
          before payloads ->
  forall i w,
    (forall j, (j < List.length before)%nat ->
               insert_fate env (i + j) = InsertStores (stamp (i + j)%nat)) ->
    save_loop env userId i (before ++ rest) w
    = save_loop env userId (i + List.length before) rest
        (grown w (stamped stamp i payloads)
                 (map InsertRecommendation payloads)).
Proof.
  induction 1 as [|rec payload before payloads Hp Hrest IH]; intros i w Hf.
  - cbn [app List.length stamped map]. rewrite Nat.add_0_r, <- grown_nothing.
    reflexivity.
  - cbn [app save_loop]. unfold bind at 1, lift. rewrite Hp.
    unfold bind at 1, insert_recommendation, bind, log, lift, ret.
    assert (H0 := Hf 0%nat ltac:(cbn; lia)). rewrite Nat.add_0_r in H0.
    rewrite H0.
    match goal with
    | |- context [save_loop env userId (S i) (before ++ rest) ?w1] =>
        change w1 with (grown w [stored payload (stamp i)]
                              [InsertRecommendation payload])
    end.
    rewrite IH.
    + rewrite grown_grown. cbn [List.length stamped map app].
      replace (S i + List.length before)%nat
        with (i + S (List.length before))%nat by lia.
      reflexivity.
    + intros j Hj. replace (S i + j)%nat with (i + S j)%nat by lia.
      apply Hf. cbn [List.length]. lia.
Qed.

(** X8: an insertion that throws ends the save loop.  The elements
    before it are stored, the element itself is sent and lost, the
    elements after it are never sent; the exception is swallowed. *)
Theorem save_stops_at_a_throwing_insert
    env userId stamp before payloads rec payload after e w :
  Forall2 (fun rec payload => payload_of userId rec = Ok payload)
          before payloads ->
  (forall j, (j < List.length before)%nat ->
             insert_fate env j = InsertStores (stamp j)) ->
  payload_of userId rec = Ok payload ->
  insert_fate env (List.length before) = InsertThrows e ->
  save env userId (before ++ rec :: after) w
  = (Ok tt,
     grown w (stamped stamp 0 payloads)
             (map InsertRecommendation (payloads ++ [payload]))).
Proof.
  intros Hb Hf Hp He. unfold save, try_catch.
  rewrite (save_loop_prefix env userId stamp before payloads (rec :: after) Hb)
    by (intros j Hj; apply Hf; exact Hj).
  cbn [Nat.add save_loop]. unfold bind at 1, lift. rewrite Hp.
  unfold bind, insert_recommendation, bind, log, lift, ret. rewrite He.
  match goal with
  | |- (_, ?w1) = _ =>
      change w1 with (logged (grown w (stamped stamp 0 payloads)
                                    (map InsertRecommendation payloads))
                             [InsertRecommendation payload])
  end.
  rewrite logged_grown, grown_grown, app_nil_r, map_app. reflexivity.
Qed.

Lemma save_stops_at_a_throwing_insert_witness :
  let env := {| profile_reply := fun _ => StoreThrows NetworkError;
                select_fate := SelectAnswers;
                insert_fate := fun i =>
                  match i with
                  | 1%nat => InsertThrows NetworkError
                  | _ => InsertStores (Z.of_nat i)
                  end;
                model_outcome := fun _ => ModelRejects AbortError;
                model_latency := fun _ => 1200%Z |} in
  let title_only t :=
    {| p_user_id := user1; p_role_title := JStr (codes t);
       p_description := JUndef; p_why_it_fits_professionally := JUndef;
       p_why_it_fits_personally := JUndef |} in
  let rec1 := JObj [(codes "role_title", JStr (codes "Chef"))] in
  let rec2 := JObj [(codes "role_title", JStr (codes "Pilot"))] in
  let rec3 := JObj [(codes "role_title", JStr (codes "Baker"))] in
  save env user1 ([rec1] ++ rec2 :: [rec3]) empty_world
  = (Ok tt,
     grown empty_world (stamped Z.of_nat 0 [title_only "Chef"%string])
           (map InsertRecommendation
                ([title_only "Chef"%string] ++ [title_only "Pilot"%string]))).
Proof.
  cbv zeta.
  apply (save_stops_at_a_throwing_insert
           {| profile_reply := fun _ => StoreThrows NetworkError;
              select_fate := SelectAnswers;
              insert_fate := fun i =>
                match i with
                | 1%nat => InsertThrows NetworkError
                | _ => InsertStores (Z.of_nat i)
                end;
              model_outcome := fun _ => ModelRejects AbortError;
              model_latency := fun _ => 1200%Z |}
           user1 Z.of_nat
           [JObj [(codes "role_title", JStr (codes "Chef"))]]
           [{| p_user_id := user1;
               p_role_title := JStr (codes "Chef");
               p_description := JUndef;
               p_why_it_fits_professionally := JUndef;
               p_why_it_fits_personally := JUndef |}]
           (JObj [(codes "role_title", JStr (codes "Pilot"))])
           {| p_user_id := user1;
              p_role_title := JStr (codes "Pilot");
              p_description := JUndef;
              p_why_it_fits_professionally := JUndef;
              p_why_it_fits_personally := JUndef |}
           [JObj [(codes "role_title", JStr (codes "Baker"))]]
           NetworkError empty_world).
  - repeat constructor.
  - intros j Hj. cbn [List.length] in Hj.
    assert (j = 0%nat) as -> by lia. reflexivity.
  - reflexivity.
  - reflexivity.
Defined.

(** X9: a [null] element ends the save loop as well: reading its fields
    throws before anything is sent, so the rows of the elements before it
    are stored and no element after it reaches the store, while the
    response still carries the whole list. *)
Theorem save_stops_at_a_null_element
    env userId stamp before payloads after w :
  Forall2 (fun rec payload => payload_of userId rec = Ok payload)
          before payloads ->
  (forall j, (j < List.length before)%nat ->
             insert_fate env j = InsertStores (stamp j)) ->
  save env userId (before ++ JNull :: after) w
  = (Ok tt,
     grown w (stamped stamp 0 payloads) (map InsertRecommendation payloads)).
Proof.
  intros Hb Hf. unfold save, try_catch.
  rewrite (save_loop_prefix env userId stamp before payloads (JNull :: after)
             Hb)
    by (intros j Hj; apply Hf; exact Hj).
  reflexivity.
Qed.

Lemma save_stops_at_a_null_element_witness :
  let env := scenario full_profile (ModelRejects AbortError) in
  let chef := {| p_user_id := user1; p_role_title := JStr (codes "Chef");
                 p_description := JUndef;
                 p_why_it_fits_professionally := JUndef;
                 p_why_it_fits_personally := JUndef |} in
  let rec1 := JObj [(codes "role_title", JStr (codes "Chef"))] in
  let rec3 := JObj [(codes "role_title", JStr (codes "Baker"))] in
  save env user1 ([rec1] ++ JNull :: [rec3]) empty_world
  = (Ok tt,
     grown empty_world (stamped Z.of_nat 0 [chef])
           (map InsertRecommendation [chef])).
Proof.
  cbv zeta.
  apply (save_stops_at_a_null_element
           (scenario full_profile (ModelRejects AbortError))
           user1 Z.of_nat
           [JObj [(codes "role_title", JStr (codes "Chef"))]]
           [{| p_user_id := user1;
               p_role_title := JStr (codes "Chef");
               p_description := JUndef;
               p_why_it_fits_professionally := JUndef;
               p_why_it_fits_personally := JUndef |}]
           [JObj [(codes "role_title", JStr (codes "Baker"))]]
           empty_world).
  - repeat constructor.
  - intros j Hj. reflexivity.
Defined.

(** ** The rows of other users *)

(** Apart from the cache query, a run treats every table alike: the save
    loop and the model call answer, append and log the same on any
    world. *)
Lemma save_loop_uniform env userId recs :
  forall i,
  exists r added inserts,
    forall w, save_loop env userId i recs w = (r, grown w added inserts).
Proof.
  induction recs as [|rec rest IH]; intros i.
  - exists (Ok tt), [], []. intros w. cbn [save_loop ret].
    rewrite <- grown_nothing. reflexivity.
  - destruct (payload_of userId rec) as [payload|e] eqn:Ep.
    2:{ exists (Throw e), [], []. intros w. cbn [save_loop].
        unfold bind at 1, lift. rewrite Ep, <- grown_nothing. reflexivity. }
    destruct (IH (S i)) as (r & added & inserts & Hs).
    destruct (insert_fate env i) as [stamp|err|e] eqn:Ei.
    + exists r, (stored payload stamp :: added),
             (InsertRecommendation payload :: inserts).
      intros w. cbn [save_loop]. unfold bind at 1, lift. rewrite Ep.
      unfold bind, insert_recommendation, bind, log, lift, ret. rewrite Ei.
      match goal with
      | |- context [save_loop env userId (S i) rest ?w1] =>
          change w1 with (grown w [stored payload stamp]
                                [InsertRecommendation payload])
      end.
      rewrite Hs, grown_grown. reflexivity.
    + exists r, added, (InsertRecommendation payload :: inserts).
      intros w. cbn [save_loop]. unfold bind at 1, lift. rewrite Ep.
      unfold bind, insert_recommendation, bind, log, lift, ret. rewrite Ei.
      change {| role_recommendations := role_recommendations w;
                trace := trace w ++ [InsertRecommendation payload] |}
        with (logged w [InsertRecommendation payload]).
      rewrite logged_grown, Hs, grown_grown. reflexivity.
    + exists (Throw e), [], [InsertRecommendation payload].
      intros w. cbn [save_loop]. unfold bind at 1, lift. rewrite Ep.
      unfold bind, insert_recommendation, bind, log, lift, ret. rewrite Ei.
      change {| role_recommendations := role_recommendations w;
                trace := trace w ++ [InsertRecommendation payload] |}
        with (logged w [InsertRecommendation payload]).
      rewrite logged_grown. reflexivity.
Qed.

Lemma generate_uniform env userId messages :
  exists response added calls,
    forall w,
      generate env userId messages w = (Ok response, grown w added calls).
Proof.
  assert (Hnone : exists response added calls,
             forall w,
               (Ok (respond defaultRecommendations) : result Response,
                logged w [ChatCompletion messages])
               = (Ok response, grown w added calls)).
  { exists (respond defaultRecommendations), [], [ChatCompletion messages].
    intros w. rewrite logged_grown. reflexivity. }
  destruct (model_outcome env messages) as [e|response_body] eqn:Em.
  { destruct Hnone as (response & added & calls & H).
    exists response, added, calls. intros w. rewrite <- H.
    unfold generate, try_catch, bind, chat_completions, post, bind, log,
      lift, ret; cbn [abortSignal body_messages].
    rewrite Em. reflexivity. }
  destruct (truthy response_body) eqn:Et.
  2:{ destruct Hnone as (response & added & calls & H).
      exists response, added, calls. intros w. rewrite <- H.
      unfold generate, try_catch, bind, chat_completions, post, bind, log,
        lift, ret; cbn [abortSignal body_messages].
      rewrite Em, Et. reflexivity. }
  destruct (roleRecommendations_of response_body) as [recs|e] eqn:Er.
  2:{ destruct Hnone as (response & added & calls & H).
      exists response, added, calls. intros w. rewrite <- H.
      unfold generate, try_catch, bind, chat_completions, post, bind, log,
        lift, ret; cbn [abortSignal body_messages].
      rewrite Em, Et. cbn [negb]. rewrite Er. reflexivity. }
  destruct (save_loop_uniform env userId recs 0)
    as (r & added & inserts & Hs).
  exists (respond recs), added, (ChatCompletion messages :: inserts).
  intros w.
  unfold generate, try_catch, bind, chat_completions, post, bind, log,
    lift, ret; cbn [abortSignal body_messages].
  rewrite Em, Et. cbn [negb]. rewrite Er.
  unfold save, try_catch.
  change {| role_recommendations := role_recommendations w;
            trace := trace w ++ [ChatCompletion messages] |}
    with (logged w [ChatCompletion messages]).
  rewrite Hs, logged_grown, grown_grown.
  destruct r as [[]|e]; reflexivity.
Qed.

(** A run depends on the table through the answer of the cache query
    only. *)
Lemma POST_uniform env request userId cached :
  userId_of request = Ok userId ->
  exists response added calls,
    forall w,
      select_recent (role_recommendations w) userId = cached ->
      POST env request w = (response, grown w added calls).
Proof.
  intros Hu.
  assert (Hstop : forall response calls,
             exists response' added calls',
               forall w,
                 (response, logged w calls)
                 = (response' : Response, grown w added calls')).
  { intros response calls. exists response, [], calls. intros w.
    rewrite logged_grown. reflexivity. }
  destruct (truthy userId) eqn:Ht.
  2:{ exists bad_request, [], []. intros w _.
      unfold POST, handle, bind, lift. rewrite Hu, Ht.
      cbn [negb ret]. rewrite <- grown_nothing. reflexivity. }
  destruct (profile_reply env userId) as [e|data error] eqn:Hp.
  { destruct (Hstop (respond defaultRecommendations) [SelectProfile userId])
      as (response & added & calls & H).
    exists response, added, calls. intros w _. rewrite <- H.
    unfold POST, handle, bind, lift. rewrite Hu, Ht. cbn [negb].
    unfold select_profile, bind, log, lift, ret. rewrite Hp. reflexivity. }
  destruct (truthy error) eqn:He.
  { destruct (Hstop (respond defaultRecommendations) [SelectProfile userId])
      as (response & added & calls & H).
    exists response, added, calls. intros w _. rewrite <- H.
    unfold POST, handle, bind, lift. rewrite Hu, Ht. cbn [negb].
    unfold select_profile, bind, log, lift, ret. rewrite Hp, He.
    reflexivity. }
  destruct (get_prop_opt data "discovery_data") as [dd|e] eqn:Hd.
  2:{ destruct (Hstop (respond defaultRecommendations) [SelectProfile userId])
        as (response & added & calls & H).
      exists response, added, calls. intros w _. rewrite <- H.
      unfold POST, handle, bind, lift. rewrite Hu, Ht. cbn [negb].
      unfold select_profile, bind, log, lift, ret. rewrite Hp, He, Hd.
      reflexivity. }
  destruct (truthy dd) eqn:Hdt.
  2:{ destruct (Hstop (respond defaultRecommendations) [SelectProfile userId])
        as (response & added & calls & H).
      exists response, added, calls. intros w _. rewrite <- H.
      unfold POST, handle, bind, lift. rewrite Hu, Ht. cbn [negb].
      unfold select_profile, bind, log, lift, ret. rewrite Hp, He, Hd, Hdt.
      reflexivity. }
  assert (Hreads : forall w,
             POST env request w
             = match (existing <- select_recommendations env userId;;
                      let (existingRecommendations, recError) := existing in
                      if cache_hit existingRecommendations recError
                      then ret (respond (map format_row
                                             (rows_of existingRecommendations)))
                      else
                        (messages <- lift (prepare_messages dd);;
                         generate env userId messages))%M
                     (logged w [SelectProfile userId]) with
               | (Ok response, w') => (response, w')
               | (Throw _, w') => (respond defaultRecommendations, w')
               end).
  { intros w. unfold POST, handle, bind at 1 2, lift. rewrite Hu, Ht.
    cbn [negb]. unfold select_profile, bind at 1 2, log, lift, ret.
    rewrite Hp, He. unfold bind at 1. rewrite Hd, Hdt. reflexivity. }
  assert (Hmiss : exists response added calls,
             forall w,
               match (messages <- lift (prepare_messages dd);;
                      generate env userId messages)%M
                       (logged w [SelectProfile userId;
                                  SelectRecommendations userId]) with
               | (Ok response, w') => (response, w')
               | (Throw _, w') => (respond defaultRecommendations, w')
               end
               = (response, grown w added calls)).
  { destruct (prepare_messages dd) as [messages|e] eqn:Hm.
    - destruct (generate_uniform env userId messages)
        as (response & added & calls & Hg).
      exists response, added,
        ([SelectProfile userId; SelectRecommendations userId] ++ calls).
      intros w. unfold bind, lift. rewrite Hg, logged_grown, grown_grown.
      reflexivity.
    - exists (respond defaultRecommendations), [],
        [SelectProfile userId; SelectRecommendations userId].
      intros w. unfold bind, lift. rewrite logged_grown. reflexivity. }
  destruct (select_fate env) as [|err|e] eqn:Hs.
  - destruct (cache_hit (Some cached) JNull) eqn:Hh.
    + exists (respond (map format_row cached)), [],
        [SelectProfile userId; SelectRecommendations userId].
      intros w Hc. rewrite Hreads.
      unfold select_recommendations, bind, log, lift, ret. rewrite Hs.
      cbn [role_recommendations logged]. rewrite Hc, Hh. cbn [rows_of].
      f_equal. same_world.
    + destruct Hmiss as (response & added & calls & H).
      exists response, added, calls. intros w Hc. rewrite Hreads.
      unfold select_recommendations. unfold bind at 1 2, log, lift, ret.
      rewrite Hs. cbn [role_recommendations logged]. rewrite Hc, Hh.
      match goal with
      | |- context [bind _ _ ?w1] =>
          replace w1
            with (logged w [SelectProfile userId;
                            SelectRecommendations userId])
            by same_world
      end.
      apply H.
  - destruct Hmiss as (response & added & calls & H).
    exists response, added, calls. intros w Hc. rewrite Hreads.
    unfold select_recommendations. unfold bind at 1 2, log, lift, ret.
    rewrite Hs.
    assert (Hh : cache_hit None err = false)
      by (unfold cache_hit; apply andb_false_r).
    rewrite Hh.
    match goal with
    | |- context [bind _ _ ?w1] =>
        replace w1
          with (logged w [SelectProfile userId;
                          SelectRecommendations userId])
          by same_world
    end.
    apply H.
  - exists (respond defaultRecommendations), [],
      [SelectProfile userId; SelectRecommendations userId].
    intros w Hc. rewrite Hreads.
    unfold select_recommendations, bind, log, lift, ret. rewrite Hs.
    f_equal. same_world.
Qed.

(** X10: the rows of other users have no influence on a run.  On two
    tables that hold the same rows for the user of the request, in the
    same order, whatever rows of other users they hold, the handler gives
    the same response, makes the same calls and appends the same rows. *)
Theorem rows_of_other_users_are_not_read env request userId w w' :
  userId_of request = Ok userId ->
  rows_of_user (role_recommendations w) userId
  = rows_of_user (role_recommendations w') userId ->
  exists response added calls,
    POST env request w = (response, grown w added calls)
    /\ POST env request w' = (response, grown w' added calls).
Proof.
  intros Hu Hrows.
  destruct (POST_uniform env request userId
              (select_recent (role_recommendations w) userId) Hu)
    as (response & added & calls & H).
  exists response, added, calls. split.
  - apply H. reflexivity.
  - apply H. unfold select_recent. rewrite Hrows. reflexivity.
Qed.

Lemma rows_of_other_users_are_not_read_witness :
  let env := scenario full_profile (ModelRejects NetworkError) in
  let request := request_with "{'userId':'u1'}" in
  let without_others :=
    {| role_recommendations :=
         [ sample_row user1 10 "Chef"; sample_row user1 40 "Pilot";
           sample_row user1 30 "Baker"; sample_row user1 20 "Tailor" ];
       trace := [] |} in
  exists response added calls,
    POST env request stocked_world = (response, grown stocked_world added calls)
    /\ POST env request without_others
       = (response, grown without_others added calls).
Proof.
  cbv zeta.
  apply (rows_of_other_users_are_not_read
           (scenario full_profile (ModelRejects NetworkError))
           (request_with "{'userId':'u1'}") user1 stocked_world
           {| role_recommendations :=
                [ sample_row user1 10 "Chef"; sample_row user1 40 "Pilot";
                  sample_row user1 30 "Baker"; sample_row user1 20 "Tailor" ];
              trace := [] |});
    reflexivity.
Defined.

(** ** A generation followed by a second request *)

Lemma POST_reaches_generate
    env request w userId data error discoveryData messages :
  userId_of request = Ok userId ->
  truthy userId = true ->
  profile_reply env userId = StoreReturns data error ->
  truthy error = false ->
  get_prop_opt data "discovery_data" = Ok discoveryData ->
  truthy discoveryData = true ->
  select_fate env = SelectAnswers ->
  select_recent (role_recommendations w) userId = [] ->
  prepare_messages discoveryData = Ok messages ->
  POST env request w
  = match generate env userId messages
            (logged w [SelectProfile userId; SelectRecommendations userId])
    with
    | (Ok response, w') => (response, w')
    | (Throw _, w') => (respond defaultRecommendations, w')
    end.
Proof.
  intros Hu Ht Hp He Hd Hdt Hs Hr Hm.
  unfold POST, handle, bind, lift. rewrite Hu, Ht. cbn [negb].
  unfold select_profile, bind, log, lift, ret.
  rewrite Hp, He, Hd, Hdt. cbn [negb].
  unfold select_recommendations, bind, log, lift, ret.
  rewrite Hs. cbn [role_recommendations]. rewrite Hr.
  unfold cache_hit. cbn [truthy negb andb List.length Nat.ltb Nat.leb].
  rewrite Hm. unfold logged. cbn [role_recommendations trace].
  rewrite <- app_assoc. reflexivity.
Qed.

Lemma POST_cache_hit env request w userId data error discoveryData :
  userId_of request = Ok userId ->
  truthy userId = true ->
  profile_reply env userId = StoreReturns data error ->
  truthy error = false ->
  get_prop_opt data "discovery_data" = Ok discoveryData ->
  truthy discoveryData = true ->
  select_fate env = SelectAnswers ->
  select_recent (role_recommendations w) userId <> [] ->
  POST env request w
  = (respond (map format_row (select_recent (role_recommendations w) userId)),
     logged w [SelectProfile userId; SelectRecommendations userId]).
Proof.
  intros Hu Ht Hp He Hd Hdt Hs Hne.
  unfold POST, handle, bind, lift. rewrite Hu, Ht. cbn [negb].
  unfold select_profile, bind, log, lift, ret.
  rewrite Hp, He, Hd, Hdt. cbn [negb].
  unfold select_recommendations, bind, log, lift, ret.
  rewrite Hs. cbn [role_recommendations].
  destruct (select_recent (role_recommendations w) userId) as [|r rs] eqn:Er;
    [contradiction |].
  unfold cache_hit. cbn [truthy negb andb List.length Nat.ltb Nat.leb rows_of].
  unfold logged. cbn [role_recommendations trace].
  rewrite <- app_assoc. reflexivity.
Qed.

Lemma insert_desc_oldest r l :
  Forall (fun x => (created_at r < created_at x)%Z) l ->
  insert_desc r l = l ++ [r].
Proof.
  induction 1 as [|x l Hx Hl IH]; [reflexivity |].
  cbn [insert_desc app].
  destruct (created_at x <? created_at r)%Z eqn:E.
  - apply Z.ltb_lt in E. lia.
  - rewrite IH. reflexivity.
Qed.

(** Rows stamped in increasing order come back reversed. *)
Lemma order_desc_of_increasing l :
  StronglySorted (fun a b => (created_at a < created_at b)%Z) l ->
  order_desc l = rev l.
Proof.
  induction 1 as [|a l Hs IH Ha]; [reflexivity |].
  cbn [order_desc fold_right rev]. fold (order_desc l). rewrite IH.
  apply insert_desc_oldest. apply Forall_rev. exact Ha.
Qed.

Lemma stamped_in stamp payloads :
  forall i row,
    In row (stamped stamp i payloads) ->
    exists j p, (i <= j < i + List.length payloads)%nat
                /\ row = stored p (stamp j).
Proof.
  induction payloads as [|p rest IH]; intros i row Hin; [destruct Hin |].
  cbn [stamped] in Hin. destruct Hin as [<- | Hin].
  - exists i, p. cbn [List.length]. split; [lia | reflexivity].
  - destruct (IH (S i) row Hin) as (j & q & Hj & ->).
    exists j, q. cbn [List.length]. split; [lia | reflexivity].
Qed.

Lemma stamped_increasing stamp payloads :
  forall i,
    (forall a b, (i <= a)%nat -> (a < b)%nat ->
                 (b < i + List.length payloads)%nat ->
                 (stamp a < stamp b)%Z) ->
    StronglySorted (fun a b => (created_at a < created_at b)%Z)
                   (stamped stamp i payloads).
Proof.
  induction payloads as [|p rest IH]; intros i Hinc; [constructor |].
  cbn [stamped]. constructor.
  - apply IH. intros a b Ha Hab Hb. apply Hinc; cbn [List.length]; lia.
  - apply Forall_forall. intros row Hin.
    destruct (stamped_in stamp rest (S i) row Hin) as (j & q & Hj & ->).
    cbn [stored created_at]. apply Hinc; cbn [List.length]; lia.
Qed.

Lemma stamped_format_rows stamp payloads :
  forall i, map format_row (stamped stamp i payloads)
            = map cached_form payloads.
Proof.
  induction payloads as [|p rest IH]; intros i; [reflexivity |].
  cbn [stamped map]. rewrite IH. reflexivity.
Qed.

Lemma rows_of_user_stamped userId stamp recs payloads :
  Forall2 (fun rec payload => payload_of userId rec = Ok payload)
          recs payloads ->
  forall i, rows_of_user (stamped stamp i payloads) userId
            = stamped stamp i payloads.
Proof.
  induction 1 as [|rec p recs payloads Hp Hrest IH]; intros i; [reflexivity |].
  cbn [stamped]. unfold rows_of_user in *. cbn [filter stored user_id].
  rewrite (payload_of_user userId rec p Hp), JsVal_eqb_refl, IH.
  reflexivity.
Qed.

(** X11: a generation followed by a second request of the same user.
    When the user had no rows, every element of the parsed list is
    stored and the store stamps the rows in increasing order, the second
    request is answered from the cache, without a model call or an
    insertion, with the last three stored rows in the reverse of the
    order of the first response. *)
Theorem second_request_reads_back_newest_first
    env request w userId data error discoveryData messages response_body
    recs payloads stamp :
  userId_of request = Ok userId ->
  truthy userId = true ->
  profile_reply env userId = StoreReturns data error ->
  truthy error = false ->
  get_prop_opt data "discovery_data" = Ok discoveryData ->
  truthy discoveryData = true ->
  select_fate env = SelectAnswers ->
  rows_of_user (role_recommendations w) userId = [] ->
  prepare_messages discoveryData = Ok messages ->
  model_outcome env messages = ModelResponds response_body ->
  truthy response_body = true ->
  parse_reply response_body = Ok recs ->
  recs <> [] ->
  Forall2 (fun rec payload => payload_of userId rec = Ok payload)
          recs payloads ->
  (forall i, (i < List.length recs)%nat ->
             insert_fate env i = InsertStores (stamp i)) ->
  (forall a b, (a < b)%nat -> (b < List.length recs)%nat ->
               (stamp a < stamp b)%Z) ->
  let first := POST env request w in
  let second := POST env request (snd first) in
  fst first = respond recs
  /\ fst second = respond (firstn 3 (rev (map cached_form payloads)))
  /\ snd second
     = logged (snd first) [SelectProfile userId; SelectRecommendations userId].
Proof.
  intros Hu Ht Hp He Hd Hdt Hs Hnone Hm Hmo Hbt Hpr Hne Hpay Hf Hinc
         first second.
  assert (Hlen : List.length payloads = List.length recs)
    by (symmetry; exact (Forall2_length Hpay)).
  assert (Hfirst : first
                   = (respond recs,
                      grown (logged w [SelectProfile userId;
                                       SelectRecommendations userId])
                            (stamped stamp 0 payloads)
                            (ChatCompletion messages
                             :: map InsertRecommendation payloads))).
  { unfold first.
    rewrite (POST_reaches_generate env request w userId data error
               discoveryData messages Hu Ht Hp He Hd Hdt Hs)
      by (try assumption; unfold select_recent; rewrite Hnone; reflexivity).
    rewrite (generation_rows env userId messages _ response_body recs
               payloads stamp Hmo Hbt Hpr Hpay Hf).
    reflexivity. }
  assert (Hrows : rows_of_user (role_recommendations (snd first)) userId
                  = stamped stamp 0 payloads).
  { rewrite Hfirst. cbn [snd grown logged role_recommendations].
    unfold rows_of_user. rewrite filter_app.
    fold (rows_of_user (role_recommendations w) userId).
    fold (rows_of_user (stamped stamp 0 payloads) userId).
    rewrite Hnone, (rows_of_user_stamped userId stamp recs payloads Hpay).
    reflexivity. }
  assert (Hrecent : select_recent (role_recommendations (snd first)) userId
                    = firstn 3 (rev (stamped stamp 0 payloads))).
  { unfold select_recent. rewrite Hrows, order_desc_of_increasing;
      [reflexivity |].
    apply stamped_increasing. intros a b _ Hab Hb. apply Hinc; lia. }
  assert (Hsome : select_recent (role_recommendations (snd first)) userId
                  <> []).
  { rewrite Hrecent. intros Hnil.
    apply (f_equal (@List.length Row)) in Hnil.
    rewrite length_firstn, length_rev, stamped_length, Hlen in Hnil.
    destruct recs; [contradiction | cbn in Hnil; lia]. }
  split; [rewrite Hfirst; reflexivity |].
  unfold second.
  rewrite (POST_cache_hit env request (snd first) userId data error
             discoveryData Hu Ht Hp He Hd Hdt Hs Hsome).
  cbn [fst snd]. split; [| reflexivity].
  rewrite Hrecent, <- firstn_map, map_rev, stamped_format_rows. reflexivity.
Qed.

Lemma second_request_reads_back_newest_first_witness :
  let reply :=
    json_text "[{'role_title':'A'},{'role_title':'B'},{'role_title':'C'},{'role_title':'D'}]" in
  let env := scenario full_profile (ModelResponds (chat_response reply)) in
  let request := request_with "{'userId':'u1'}" in
  let rec_of t := JObj [(codes "role_title", JStr (codes t))] in
  let payload t :=
    {| p_user_id := user1; p_role_title := JStr (codes t);
       p_description := JUndef; p_why_it_fits_professionally := JUndef;
       p_why_it_fits_personally := JUndef |} in
  let recs := map rec_of ["A"; "B"; "C"; "D"]%string in
  let payloads := map payload ["A"; "B"; "C"; "D"]%string in
  let first := POST env request empty_world in
  let second := POST env request (snd first) in
  fst first = respond recs
  /\ fst second = respond (firstn 3 (rev (map cached_form payloads)))
  /\ snd second
     = logged (snd first) [SelectProfile user1; SelectRecommendations user1].
Proof.
  cbv zeta.
  apply (second_request_reads_back_newest_first
           (scenario full_profile
              (ModelResponds
                 (chat_response
                    (json_text "[{'role_title':'A'},{'role_title':'B'},{'role_title':'C'},{'role_title':'D'}]"))))
           (request_with "{'userId':'u1'}") empty_world user1
           (JObj [(codes "discovery_data", full_profile)]) JNull full_profile
           full_profile_messages
           (chat_response
              (json_text "[{'role_title':'A'},{'role_title':'B'},{'role_title':'C'},{'role_title':'D'}]"))
           (map (fun t => JObj [(codes "role_title", JStr (codes t))])
                ["A"; "B"; "C"; "D"]%string)
           (map (fun t =>
                   {| p_user_id := user1; p_role_title := JStr (codes t);
                      p_description := JUndef;
                      p_why_it_fits_professionally := JUndef;
                      p_why_it_fits_personally := JUndef |})
                ["A"; "B"; "C"; "D"]%string)
           Z.of_nat);
    try reflexivity.
  - discriminate.
  - repeat constructor.
  - intros a b Hab _. lia.
Defined.

Example second_response_is_reversed_and_cut :
  firstn 3 (rev (map cached_form
                     (map (fun t =>
                             {| p_user_id := user1;
                                p_role_title := JStr (codes t);
                                p_description := JUndef;
                                p_why_it_fits_professionally := JUndef;
                                p_why_it_fits_personally := JUndef |})
                          ["A"; "B"; "C"; "D"]%string)))
  = map (fun t => recommendation (JStr (codes t)) JNull JNull JNull)
        ["D"; "C"; "B"]%string.
Proof. reflexivity. Qed.

(** ** The prompt *)

Lemma facet_by_selected discoveryData name :
  exists info,
    facet discoveryData name
    = (sel <- selected_of discoveryData name;;
       Ok {| selected := js_or sel (JArr []); additional_info := info |}
      )%result.
Proof.
  unfold facet, selected_of, rbind.
  destruct (get_prop discoveryData name) as [f|e];
    [| exists JUndef; reflexivity].
  destruct f as [ | | b | m e | s | items | fields];
    try (exists JUndef; reflexivity);
    try (eexists; reflexivity).
  cbn [get_prop].
  destruct (lookup (codes "selected") fields);
    destruct (lookup (codes "additional_info") fields);
    eexists; reflexivity.
Qed.

(** The messages as a function of the three [selected] values alone. *)
Lemma prepare_messages_by_selected discoveryData :
  prepare_messages discoveryData
  = (s <- selected_of discoveryData "skills";;
     v <- selected_of discoveryData "values";;
     i <- selected_of discoveryData "interests";;
     skills_text <- js_join (js_or s (JArr [])) (codes ", ");;
     interests_text <- js_join (js_or i (JArr [])) (codes ", ");;
     values_text <- js_join (js_or v (JArr [])) (codes ", ");;
     Ok [ {| role := codes "system"; content := system_prompt |};
          {| role := codes "user";
             content := user_prompt skills_text interests_text values_text |} ]
    )%result.
Proof.
  unfold prepare_messages.
  destruct (facet_by_selected discoveryData "skills") as [i1 ->].
  destruct (facet_by_selected discoveryData "values") as [i2 ->].
  destruct (facet_by_selected discoveryData "interests") as [i3 ->].
  unfold rbind.
  destruct (selected_of discoveryData "skills"); [| reflexivity].
  destruct (selected_of discoveryData "values"); [| reflexivity].
  destruct (selected_of discoveryData "interests"); reflexivity.
Qed.

(** X12: the prompt depends on the [selected] lists only.  Two profiles
    with the same [selected] value in each of the three facets give the
    same messages, or both fail, whatever else they contain: the free
    text in [additional_info] never reaches the model. *)
Theorem prompt_depends_on_selected_only discoveryData discoveryData' :
  selected_of discoveryData "skills" = selected_of discoveryData' "skills" ->
  selected_of discoveryData "values" = selected_of discoveryData' "values" ->
  selected_of discoveryData "interests"
  = selected_of discoveryData' "interests" ->
  prepare_messages discoveryData = prepare_messages discoveryData'.
Proof.
  intros Hs Hv Hi. rewrite !prepare_messages_by_selected, Hs, Hv, Hi.
  reflexivity.
Qed.

Lemma prompt_depends_on_selected_only_witness :
  let with_info info :=
    JObj [(codes "skills",
           JObj [(codes "selected", JArr [JStr (codes "coding")]);
                 (codes "additional_info", JStr (codes info))]);
          (codes "values", JObj []);
          (codes "interests", JObj [])] in
  prepare_messages (with_info "ten years of Fortran"%string)
  = prepare_messages (with_info "none"%string).
Proof.
  cbv zeta.
  apply (prompt_depends_on_selected_only
           (JObj [(codes "skills",
                   JObj [(codes "selected", JArr [JStr (codes "coding")]);
                         (codes "additional_info",
                          JStr (codes "ten years of Fortran"))]);
                  (codes "values", JObj []);
                  (codes "interests", JObj [])])
           (JObj [(codes "skills",
                   JObj [(codes "selected", JArr [JStr (codes "coding")]);
                         (codes "additional_info", JStr (codes "none"))]);
                  (codes "values", JObj []);
                  (codes "interests", JObj [])]));
    reflexivity.
Defined.

Lemma sequence_ok {A} (l : list (result A)) :
  (exists values, sequence l = Ok values)
  <-> Forall (fun r => exists a, r = Ok a) l.
Proof.
  induction l as [|r l IH]; cbn [sequence].
  - split; [constructor | eexists; reflexivity].
  - unfold rbind. split.
    + intros [values H]. destruct r as [a|]; [| discriminate].
      destruct (sequence l) as [others|]; [| discriminate].
      constructor; [eexists; reflexivity | apply IH; eexists; reflexivity].
    + intros H. inversion H as [|? ? [a ->] Hl]; subst.
      apply IH in Hl. destruct Hl as [others ->]. eexists. reflexivity.
Qed.

(** [ToString] throws on the values that are not printable, and on no
    other. *)
Lemma to_string_printable v :
  (exists text, to_string v = Ok text) <-> printable v = true.
Proof.
  induction v as [ | | b | m e | s | items IH | fields IH]
    using JsVal_induction; cbn [to_string printable];
    try (split; [reflexivity | eexists; reflexivity]).
  - destruct b; split; try reflexivity; eexists; reflexivity.
  - unfold rbind. rewrite forallb_forall.
    match goal with |- context [sequence ?l] => set (texts := l) end.
    assert (Hel : Forall (fun r : result jsstring => exists a, r = Ok a) texts
                  <-> forall x, In x items -> printable x = true).
    { subst texts. rewrite Forall_map. rewrite Forall_forall in IH |- *.
      split; intros H x Hx; specialize (H x Hx).
      - apply (IH x Hx). destruct x; try exact H; eexists; reflexivity.
      - apply (IH x Hx) in H. destruct x; try exact H; eexists; reflexivity. }
    rewrite <- Hel, <- sequence_ok. unfold jsstring in *. split.
    + intros [text H]. destruct (sequence texts) as [parts|];
        [eexists; reflexivity | discriminate].
    + intros [parts ->]. eexists. reflexivity.
  - destruct (lookup (codes "toString") fields); split;
      try discriminate; try reflexivity.
    + intros [text H]. discriminate.
    + eexists. reflexivity.
Qed.

Lemma js_join_printable items sep :
  (exists text, js_join (JArr items) sep = Ok text)
  <-> forallb printable items = true.
Proof.
  cbn [js_join]. unfold rbind. rewrite forallb_forall.
  assert (Hel : forall x, (exists a, element_text x = Ok a)
                          <-> printable x = true).
  { intros x. rewrite <- to_string_printable.
    destruct x; cbn [element_text]; try reflexivity;
      split; intros _; eexists; reflexivity. }
  split.
  - intros [text H].
    destruct (sequence (map element_text items)) as [parts|] eqn:Es;
      [| discriminate].
    assert (Hall : Forall (fun r : result jsstring => exists a, r = Ok a)
                     (map element_text items))
      by (apply sequence_ok; eexists; exact Es).
    rewrite Forall_map, Forall_forall in Hall.
    intros x Hx. apply Hel, Hall, Hx.
  - intros H.
    assert (Hall : Forall (fun r : result jsstring => exists a, r = Ok a)
                     (map element_text items)).
    { rewrite Forall_map, Forall_forall. intros x Hx. apply Hel, H, Hx. }
    apply sequence_ok in Hall. destruct Hall as [parts ->].
    eexists. reflexivity.
Qed.

Lemma js_join_or_empty sel :
  (exists text, js_join (js_or sel (JArr [])) (codes ", ") = Ok text)
  <-> (truthy sel = false
       \/ exists items, sel = JArr items /\ forallb printable items = true).
Proof.
  unfold js_or. split.
  - intros [text H]. destruct (truthy sel) eqn:Et; [| left; reflexivity].
    right. destruct sel as [ | | b | m e | s | items | fields];
      try discriminate H.
    exists items. split; [reflexivity |].
    apply (js_join_printable items (codes ", ")). eexists. exact H.
  - intros [Hf | (items & -> & Hp)].
    + rewrite Hf. eexists. reflexivity.
    + cbn [truthy]. apply js_join_printable. exact Hp.
Qed.

(** X13: the prompt is built exactly when each of the three facets is
    present (reading [selected] from it does not throw) and its
    [selected] is falsy or an array that [join] can turn into text: one
    without an object that has an own [toString] property, at any depth
    of nested arrays.  In every other case building it throws. *)
Theorem prompt_is_built_iff_facets_are_usable discoveryData :
  (exists messages, prepare_messages discoveryData = Ok messages)
  <-> usable_facet discoveryData "skills"
      /\ usable_facet discoveryData "values"
      /\ usable_facet discoveryData "interests".
Proof.
  rewrite prepare_messages_by_selected. unfold usable_facet, rbind. split.
  - intros [messages H].
    destruct (selected_of discoveryData "skills") as [s|]; [| discriminate].
    destruct (selected_of discoveryData "values") as [v|]; [| discriminate].
    destruct (selected_of discoveryData "interests") as [i|];
      [| discriminate].
    destruct (js_join (js_or s (JArr [])) (codes ", ")) as [st|] eqn:Es;
      [| discriminate].
    destruct (js_join (js_or i (JArr [])) (codes ", ")) as [it|] eqn:Ei;
      [| discriminate].
    destruct (js_join (js_or v (JArr [])) (codes ", ")) as [vt|] eqn:Ev;
      [| discriminate].
    repeat split; eexists; (split; [reflexivity |]);
      apply js_join_or_empty; eauto.
  - intros ((s & -> & Hs) & (v & -> & Hv) & (i & -> & Hi)).
    apply js_join_or_empty in Hs, Hv, Hi.
    destruct Hs as [st ->], Hv as [vt ->], Hi as [it ->].
    eexists. reflexivity.
Qed.

Lemma join_of_string_tags names sep :
  js_join (string_tags names) sep = Ok (join_strings sep names).
Proof.
  unfold js_join, string_tags. rewrite map_map. cbn [element_text to_string].
  assert (H : sequence (map (fun s : jsstring => Ok s) names) = Ok names).
  { induction names as [|n names IH]; [reflexivity |].
    cbn [map sequence]. unfold rbind. rewrite IH. reflexivity. }
  rewrite H. reflexivity.
Qed.

Lemma js_join_rendered sel text :
  rendered sel text ->
  js_join (js_or sel (JArr [])) (codes ", ") = Ok text.
Proof.
  unfold js_or. intros [[Hf ->] | (names & -> & ->)].
  - rewrite Hf. reflexivity.
  - cbn [truthy string_tags]. apply join_of_string_tags.
Qed.

(** X14: the text of the prompt.  With [selected] values that are falsy
    or arrays of strings, the messages are the fixed system message and
    one user message: the skills, then the interests, then the values,
    each list joined by a comma and a blank, and empty for a [selected]
    that is missing. *)
Theorem prompt_lists_the_tags discoveryData s v i st vt it :
  selected_of discoveryData "skills" = Ok s ->
  selected_of discoveryData "values" = Ok v ->
  selected_of discoveryData "interests" = Ok i ->
  rendered s st -> rendered v vt -> rendered i it ->
  prepare_messages discoveryData
  = Ok [ {| role := codes "system"; content := system_prompt |};
         {| role := codes "user";
            content := codes "Skills: " ++ st
                       ++ 10%N :: codes "         Interests: " ++ it
                       ++ 10%N :: codes "         Values: " ++ vt |} ].
Proof.
  intros Hs Hv Hi Rs Rv Ri.
  rewrite prepare_messages_by_selected, Hs, Hv, Hi. unfold rbind.
  rewrite (js_join_rendered s st Rs), (js_join_rendered i it Ri),
    (js_join_rendered v vt Rv).
  reflexivity.
Qed.

Lemma prompt_lists_the_tags_witness :
  let discoveryData :=
    JObj [(codes "skills",
           JObj [(codes "selected",
                  string_tags [codes "coding"; codes "writing"])]);
          (codes "values", JObj [(codes "selected", JNull)]);
          (codes "interests", JObj [])] in
  prepare_messages discoveryData
  = Ok [ {| role := codes "system"; content := system_prompt |};
         {| role := codes "user";
            content := codes "Skills: " ++ codes "coding, writing"
                       ++ 10%N :: codes "         Interests: " ++ []
                       ++ 10%N :: codes "         Values: " ++ [] |} ].
Proof.
  cbv zeta.
  apply (prompt_lists_the_tags
           (JObj [(codes "skills",
                   JObj [(codes "selected",
                          string_tags [codes "coding"; codes "writing"])]);
                  (codes "values", JObj [(codes "selected", JNull)]);
                  (codes "interests", JObj [])])
           (string_tags [codes "coding"; codes "writing"]) JNull JUndef);
    try reflexivity.
  - right. exists [codes "coding"; codes "writing"]. split; reflexivity.
  - left. split; reflexivity.
  - left. split; reflexivity.
Defined.

(** ** Code fences *)

Lemma fence_close_match s r :
  rmatch re_fence_close s (fun rest => Some rest) = Some r ->
  s = 10%N :: codes "```" /\ r = [].
Proof.
  unfold re_fence_close.
  destruct s as [|a [|b [|c [|d [|x s]]]]]; cbn; try discriminate;
    repeat match goal with
           | |- context [if (?u =? ?v)%N then _ else _] =>
               destruct (N.eqb_spec u v); try discriminate
           end.
  intros [= <-]. subst. split; reflexivity.
Qed.

Lemma search_fence_close body :
  regex_search re_fence_close (body ++ 10%N :: codes "```")
  = Some (body, 10%N :: codes "```", []).
Proof.
  induction body as [|c body IH]; [reflexivity |].
  cbn [app regex_search]. rewrite IH.
  destruct (rmatch re_fence_close (c :: body ++ 10%N :: codes "```")
              (fun rest => Some rest)) as [r|] eqn:Em; [| reflexivity].
  apply fence_close_match in Em. destruct Em as [Em _].
  apply (f_equal (@List.length N)) in Em.
  cbn [List.length] in Em. rewrite length_app in Em. cbn in Em. lia.
Qed.

Lemma strip_fences_of_fence body :
  strip_fences (fence_json body) = body
  /\ strip_fences (fence_plain body) = body.
Proof.
  split.
  - unfold strip_fences.
    change (startsWith (fence_json body) (codes "```json")) with true.
    cbv iota.
    assert (H : replace (fence_json body) re_fence_json []
                = body ++ 10%N :: codes "```") by reflexivity.
    rewrite H. unfold replace. rewrite search_fence_close.
    cbn [app]. apply app_nil_r.
  - unfold strip_fences.
    change (startsWith (fence_plain body) (codes "```json")) with false.
    change (startsWith (fence_plain body) (codes "```")) with true.
    cbv iota.
    assert (H : replace (fence_plain body) re_fence []
                = body ++ 10%N :: codes "```") by reflexivity.
    rewrite H. unfold replace. rewrite search_fence_close.
    cbn [app]. apply app_nil_r.
Qed.

(** X15: a fenced block is unwrapped.  Whatever the body, the text made
    of the opening fence (with or without the [json] tag), a line break,
    the body, a line break and the closing fence is stripped back to the
    body. *)
Theorem strip_fences_unwraps_a_fenced_block body :
  strip_fences (fence_json body) = body
  /\ strip_fences (fence_plain body) = body.
Proof. apply strip_fences_of_fence. Qed.

(** ** The array pattern in a longer text *)

Lemma rchar_alone_rejects d k x :
  rmatch (RChar d) x k = None \/ exists t, x = d :: t.
Proof.
  destruct x as [|c t]; [left; reflexivity |].
  cbn [rmatch]. destruct (N.eqb_spec c d) as [-> | Hne]; eauto.
Qed.

Lemma array_end_needs_bracket x :
  Forall (fun c => c <> 93%N) x ->
  rmatch re_array_end x (fun rest => Some rest) = None.
Proof.
  intros Hx. unfold re_array_end.
  destruct (rchar_rejects 125 (RSeq (RStar is_js_ws) (RChar 93))
              (fun rest => Some rest) x) as [H | [t ->]]; [exact H |].
  rewrite rmatch_seq, rmatch_char, rmatch_seq, rmatch_star.
  apply (star_match_rejects is_js_ws 93).
  - intros y. apply rchar_alone_rejects.
  - apply Forall_inv_tail in Hx. exact Hx.
Qed.

Lemma star_match_all_none p s k :
  all_suffixes (fun x => k x = None) s -> star_match p s k = None.
Proof.
  induction s as [|c s IH]; cbn [all_suffixes star_match]; intros [H Hs];
    [exact H |].
  destruct (p c); [rewrite (IH Hs) |]; exact H.
Qed.

Lemma all_suffixes_heads (P : jsstring -> Prop) a b :
  (forall c rest, In c a -> P (c :: rest)) ->
  all_suffixes P b ->
  all_suffixes P (a ++ b).
Proof.
  intros Ha Hb. induction a as [|c a IH]; [exact Hb |].
  cbn [app all_suffixes]. split.
  - apply Ha. left. reflexivity.
  - apply IH. intros d rest Hd. apply Ha. right. exact Hd.
Qed.

Lemma all_suffixes_of_all (P : jsstring -> Prop) s :
  (forall x, Forall (fun c => In c s) x -> P x) -> all_suffixes P s.
Proof.
  induction s as [|c s IH]; intros H; cbn [all_suffixes].
  - split; [apply H; constructor | exact I].
  - split.
    + apply H. apply Forall_forall. intros d Hd. exact Hd.
    + apply IH. intros x Hx. apply H.
      eapply Forall_impl; [| exact Hx]. intros d Hd. right. exact Hd.
Qed.

Lemma all_suffixes_no_bracket post :
  Forall (fun c => c <> 93%N) post ->
  all_suffixes
    (fun x => rmatch re_array_end x (fun rest => Some rest) = None) post.
Proof.
  induction 1 as [|c post Hc Hp IH]; cbn [all_suffixes].
  - split; [reflexivity | exact I].
  - split; [| exact IH].
    apply array_end_needs_bracket. constructor; assumption.
Qed.

Lemma js_ws_not c d : is_js_ws c = true -> is_js_ws d = false -> c <> d.
Proof. intros Hc Hd ->. congruence. Qed.

(** The pattern at the start of a bracketed text, followed by a text in
    which no array ends. *)
Lemma array_pattern_at_start w1 mid w2 post :
  Forall (fun c => is_js_ws c = true) w1 ->
  Forall (fun c => is_js_ws c = true) w2 ->
  all_suffixes
    (fun x => rmatch re_array_end x (fun rest => Some rest) = None) post ->
  rmatch re_json_array (bracketed w1 mid w2 ++ post) (fun rest => Some rest)
  = Some post.
Proof.
  intros H1 H2 Hpost. unfold bracketed, re_json_array. cbn [app].
  rewrite rmatch_seq, rmatch_char, rmatch_seq, rmatch_star.
  rewrite <- app_assoc. cbn [app].
  apply star_match_stops; [exact H1 | | reflexivity].
  rewrite rmatch_seq, rmatch_char, rmatch_seq, rmatch_star.
  rewrite <- app_assoc. cbn [app].
  assert (Hend : rmatch re_array_end (125%N :: (w2 ++ [93%N]) ++ post)
                   (fun rest => Some rest) = Some post).
  { unfold re_array_end.
    rewrite rmatch_seq, rmatch_char, rmatch_seq, rmatch_star.
    rewrite <- app_assoc. cbn [app].
    apply star_match_stops; [exact H2 | apply rmatch_char | reflexivity]. }
  assert (Hnone : star_match any_char ((w2 ++ [93%N]) ++ post)
                    (fun s' => rmatch re_array_end s' (fun rest => Some rest))
                  = None).
  { apply star_match_all_none. rewrite <- app_assoc.
    apply all_suffixes_heads.
    - intros c rest Hc. rewrite Forall_forall in H2.
      destruct (rchar_rejects 125 (RSeq (RStar is_js_ws) (RChar 93))
                  (fun rest => Some rest) (c :: rest)) as [H | [t H]];
        [exact H |].
      injection H as -> _. specialize (H2 _ Hc). discriminate H2.
    - cbn [app all_suffixes]. split; [reflexivity | exact Hpost]. }
  change (RSeq (RChar 125) (RSeq (RStar is_js_ws) (RChar 93)))
    with re_array_end.
  induction mid as [|c mid IH].
  - cbn [app star_match any_char]. rewrite Hnone. exact Hend.
  - cbn [app star_match any_char]. rewrite IH. reflexivity.
Qed.

Lemma firstn_app_exact {A} (a b : list A) :
  firstn (List.length (a ++ b) - List.length b) (a ++ b) = a.
Proof.
  rewrite length_app, Nat.add_sub, firstn_app, Nat.sub_diag, firstn_all.
  cbn [firstn]. apply app_nil_r.
Qed.

Lemma search_array_after_prefix pre w1 mid w2 post :
  Forall (fun c => c <> 91%N) pre ->
  Forall (fun c => is_js_ws c = true) w1 ->
  Forall (fun c => is_js_ws c = true) w2 ->
  all_suffixes
    (fun x => rmatch re_array_end x (fun rest => Some rest) = None) post ->
  regex_search re_json_array (pre ++ bracketed w1 mid w2 ++ post)
  = Some (pre, bracketed w1 mid w2, post).
Proof.
  intros Hpre H1 H2 Hpost.
  induction Hpre as [|c pre Hc Hpre IH].
  - cbn [app].
    rewrite (regex_search_here _ _ _
               (array_pattern_at_start w1 mid w2 post H1 H2 Hpost)).
    rewrite firstn_app_exact. reflexivity.
  - cbn [app regex_search]. rewrite IH.
    destruct (rchar_rejects 91 (RSeq (RStar is_js_ws) (RSeq (RChar 123)
                (RSeq (RStar any_char) (RSeq (RChar 125)
                   (RSeq (RStar is_js_ws) (RChar 93))))))
                (fun rest => Some rest)
                (c :: pre ++ bracketed w1 mid w2 ++ post)) as [H | [t H]].
    + unfold re_json_array. rewrite H. reflexivity.
    + injection H as -> _. contradiction.
Qed.

(** X16: the array is taken out of the text around it.  When a text
    consists of words without an opening bracket, then a bracket, a
    brace, anything, a brace and a bracket (white space allowed between
    bracket and brace), then words without a closing bracket, the
    extraction step returns exactly the bracketed part. *)
Theorem extract_array_drops_the_prose pre w1 mid w2 post :
  Forall (fun c => c <> 91%N) pre ->
  Forall (fun c => is_js_ws c = true) w1 ->
  Forall (fun c => is_js_ws c = true) w2 ->
  Forall (fun c => c <> 93%N) post ->
  extract_array (pre ++ bracketed w1 mid w2 ++ post) = bracketed w1 mid w2.
Proof.
  intros Hpre H1 H2 Hpost. unfold extract_array, js_match.
  rewrite (search_array_after_prefix pre w1 mid w2 post Hpre H1 H2
             (all_suffixes_no_bracket post Hpost)).
  reflexivity.
Qed.

Lemma extract_array_drops_the_prose_witness :
  extract_array (codes "Here are the roles: "
                 ++ bracketed [32%N] (json_text "'role_title':'Chef'") []
                 ++ codes " Good luck {and} thanks!")
  = bracketed [32%N] (json_text "'role_title':'Chef'") [].
Proof.
  apply (extract_array_drops_the_prose
           (codes "Here are the roles: ") [32%N]
           (json_text "'role_title':'Chef'") []
           (codes " Good luck {and} thanks!")).
  - repeat constructor; discriminate.
  - repeat constructor.
  - constructor.
  - repeat constructor; discriminate.
Defined.

(** ** What the extraction returns *)

Lemma star_match_inv p s k r :
  star_match p s k = Some r ->
  exists w s', s = w ++ s' /\ Forall (fun c => p c = true) w
               /\ k s' = Some r.
Proof.
  induction s as [|c s IH]; cbn [star_match]; intros H.
  - exists [], []. auto.
  - destruct (p c) eqn:Ep.
    + destruct (star_match p s k) as [r'|] eqn:Es.
      * injection H as ->. destruct (IH eq_refl) as (w & s' & -> & Hw & Hk).
        exists (c :: w), s'. repeat split; auto.
      * exists [], (c :: s). auto.
    + exists [], (c :: s). auto.
Qed.

Lemma rmatch_char_inv d s k r :
  rmatch (RChar d) s k = Some r -> exists t, s = d :: t /\ k t = Some r.
Proof.
  destruct s as [|c t]; cbn [rmatch]; [discriminate |].
  destruct (N.eqb_spec c d) as [-> | Hne]; [| discriminate].
  intros H. eauto.
Qed.

Lemma star_any_none_inv s k :
  star_match any_char s k = None ->
  all_suffixes (fun x => k x = None) s.
Proof.
  induction s as [|c s IH]; cbn [star_match any_char all_suffixes]; intros H.
  - auto.
  - destruct (star_match any_char s k) as [r|] eqn:Es; [discriminate |].
    split; [exact H | apply IH; reflexivity].
Qed.

(** The greedy star stops at the last position where the rest of the
    pattern matches. *)
Lemma star_any_inv s k r :
  star_match any_char s k = Some r ->
  exists mid s',
    s = mid ++ s' /\ k s' = Some r
    /\ match s' with
       | [] => True
       | _ :: t => all_suffixes (fun x => k x = None) t
       end.
Proof.
  induction s as [|c s IH]; cbn [star_match any_char]; intros H.
  - exists [], []. cbn. auto.
  - destruct (star_match any_char s k) as [r'|] eqn:Es.
    + injection H as ->. destruct (IH eq_refl) as (mid & s' & -> & Hk & Hn).
      exists (c :: mid), s'. auto.
    + exists [], (c :: s). cbn [app]. repeat split; auto.
      apply star_any_none_inv. exact Es.
Qed.

Lemma all_suffixes_app_r (P : jsstring -> Prop) a b :
  all_suffixes P (a ++ b) -> all_suffixes P b.
Proof.
  induction a as [|c a IH]; [auto |].
  cbn [app all_suffixes]. intros [_ H]. apply IH, H.
Qed.

Lemma all_suffixes_tail (P : jsstring -> Prop) c s :
  all_suffixes P (c :: s) -> all_suffixes P s.
Proof. cbn [all_suffixes]. intros [_ H]. exact H. Qed.

Lemma array_pattern_inv s rest :
  rmatch re_json_array s (fun r => Some r) = Some rest ->
  exists w1 mid w2,
    s = bracketed w1 mid w2 ++ rest
    /\ Forall (fun c => is_js_ws c = true) w1
    /\ Forall (fun c => is_js_ws c = true) w2
    /\ all_suffixes
         (fun x => rmatch re_array_end x (fun r => Some r) = None) rest.
Proof.
  unfold re_json_array. rewrite rmatch_seq. intros H.
  apply rmatch_char_inv in H. destruct H as (s1 & -> & H).
  rewrite rmatch_seq, rmatch_star in H.
  apply star_match_inv in H. destruct H as (w1 & s2 & -> & H1 & H).
  rewrite rmatch_seq in H.
  apply rmatch_char_inv in H. destruct H as (s3 & -> & H).
  rewrite rmatch_seq, rmatch_star in H.
  change (RSeq (RChar 125) (RSeq (RStar is_js_ws) (RChar 93)))
    with re_array_end in H.
  apply star_any_inv in H. destruct H as (mid & s4 & -> & H & Hnone).
  unfold re_array_end in H at 1. rewrite rmatch_seq in H.
  apply rmatch_char_inv in H. destruct H as (s5 & -> & H).
  rewrite rmatch_seq, rmatch_star in H.
  apply star_match_inv in H. destruct H as (w2 & s6 & -> & H2 & H).
  apply rmatch_char_inv in H. destruct H as (s7 & -> & H).
  injection H as ->.
  exists w1, mid, w2.
  apply all_suffixes_app_r, all_suffixes_tail in Hnone.
  repeat split; auto.
  unfold bracketed. cbn [app].
  repeat (rewrite <- app_assoc; cbn [app]). reflexivity.
Qed.

Lemma regex_search_array_inv s :
  forall pre m post,
    regex_search re_json_array s = Some (pre, m, post) ->
    exists w1 mid w2,
      s = pre ++ m ++ post
      /\ m = bracketed w1 mid w2
      /\ Forall (fun c => is_js_ws c = true) w1
      /\ Forall (fun c => is_js_ws c = true) w2
      /\ all_suffixes
           (fun x => rmatch re_array_end x (fun r => Some r) = None) post.
Proof.
  assert (Hhere : forall s rest pre m post,
             rmatch re_json_array s (fun r => Some r) = Some rest ->
             Some ([], firstn (List.length s - List.length rest) s, rest)
             = Some (pre, m, post) ->
             exists w1 mid w2,
               s = pre ++ m ++ post
               /\ m = bracketed w1 mid w2
               /\ Forall (fun c => is_js_ws c = true) w1
               /\ Forall (fun c => is_js_ws c = true) w2
               /\ all_suffixes
                    (fun x => rmatch re_array_end x (fun r => Some r) = None)
                    post).
  { intros s0 rest pre m post Hm Heq.
    destruct (array_pattern_inv s0 rest Hm) as (w1 & mid & w2 & -> & H1 & H2 & Hn).
    rewrite firstn_app_exact in Heq. injection Heq as <- <- <-.
    exists w1, mid, w2. repeat split; auto. }
  induction s as [|c s IH]; intros pre m post H; cbn [regex_search] in H.
  - destruct (rmatch re_json_array [] (fun rest => Some rest)) as [rest|] eqn:Em;
      [| discriminate].
    exact (Hhere _ _ _ _ _ Em H).
  - destruct (rmatch re_json_array (c :: s) (fun rest => Some rest))
      as [rest|] eqn:Em.
    + exact (Hhere _ _ _ _ _ Em H).
    + destruct (regex_search re_json_array s) as [[[pre' m'] post']|] eqn:Es;
        [| discriminate].
      injection H as <- <- <-.
      destruct (IH pre' m' post' eq_refl) as (w1 & mid & w2 & -> & Hm & H1 & H2 & Hn).
      exists w1, mid, w2. repeat split; auto.
Qed.

Lemma extracted_text_shape s m :
  js_match s re_json_array = Some m ->
  exists w1 mid w2,
    m = bracketed w1 mid w2
    /\ Forall (fun c => is_js_ws c = true) w1
    /\ Forall (fun c => is_js_ws c = true) w2.
Proof.
  unfold js_match.
  destruct (regex_search re_json_array s) as [[[pre m'] post]|] eqn:Es;
    [| discriminate].
  intros [= <-].
  destruct (regex_search_array_inv s pre m' post Es)
    as (w1 & mid & w2 & _ & Hm & H1 & H2 & _).
  exists w1, mid, w2. auto.
Qed.

(** X17: what the extraction step returns when the pattern matches: a
    piece of the text that runs from an opening bracket and brace to a
    closing brace and bracket, chosen so that no closing brace and
    bracket is left in the text after it: of several arrays in a reply,
    everything from the start of the first to the end of the last is
    taken. *)
Theorem extracted_text_runs_to_the_last_array_end s m :
  js_match s re_json_array = Some m ->
  exists pre post w1 mid w2,
    s = pre ++ m ++ post
    /\ m = bracketed w1 mid w2
    /\ Forall (fun c => is_js_ws c = true) w1
    /\ Forall (fun c => is_js_ws c = true) w2
    /\ all_suffixes
         (fun x => rmatch re_array_end x (fun r => Some r) = None) post.
Proof.
  unfold js_match.
  destruct (regex_search re_json_array s) as [[[pre m'] post]|] eqn:Es;
    [| discriminate].
  intros [= <-].
  destruct (regex_search_array_inv s pre m' post Es)
    as (w1 & mid & w2 & H).
  exists pre, post, w1, mid, w2. exact H.
Qed.

Lemma extracted_text_runs_to_the_last_array_end_witness :
  let s := json_text "one [{'a':1}] two [{'b':2}] three" in
  js_match s re_json_array = Some (json_text "[{'a':1}] two [{'b':2}]")
  /\ exists pre post w1 mid w2,
       s = pre ++ json_text "[{'a':1}] two [{'b':2}]" ++ post
       /\ json_text "[{'a':1}] two [{'b':2}]" = bracketed w1 mid w2
       /\ Forall (fun c => is_js_ws c = true) w1
       /\ Forall (fun c => is_js_ws c = true) w2
       /\ all_suffixes
            (fun x => rmatch re_array_end x (fun r => Some r) = None) post.
Proof.
  split; [reflexivity |].
  apply (extracted_text_runs_to_the_last_array_end
           (json_text "one [{'a':1}] two [{'b':2}] three")
           (json_text "[{'a':1}] two [{'b':2}]")).
  reflexivity.
Defined.

(** X18: extracting twice is extracting once. *)
Theorem extract_array_is_idempotent s :
  extract_array (extract_array s) = extract_array s.
Proof.
  destruct (js_match s re_json_array) as [m|] eqn:Em.
  - assert (He : extract_array s = m)
      by (unfold extract_array; rewrite Em; reflexivity).
    rewrite He.
    destruct (extracted_text_shape s m Em)
      as (w1 & mid & w2 & -> & H1 & H2).
    assert (Hs := search_array_after_prefix [] w1 mid w2 []
                    (Forall_nil _) H1 H2 (conj eq_refl I)).
    cbn [app] in Hs. rewrite app_nil_r in Hs.
    unfold extract_array, js_match. rewrite Hs. reflexivity.
  - assert (He : extract_array s = s)
      by (unfold extract_array; rewrite Em; reflexivity).
    rewrite He. exact He.
Qed.

(* ================================================================== *)
(** * Properties of the sign-in callback *)
(* ================================================================== *)

Lemma get_prop_opt_total v k : exists x, get_prop_opt v k = Ok x.
Proof.
  destruct v as [ | | b | m e | s | items | fields]; cbn; eauto.
  destruct (lookup (codes k) fields); eauto.
Qed.

Lemma get_prop_of_truthy v k x :
  get_prop_opt v k = Ok x -> truthy x = true -> get_prop v k = Ok x.
Proof.
  destruct v; cbn [get_prop_opt]; intros H Ht; try exact H;
    injection H as <-; discriminate Ht.
Qed.

Lemma get_prop_truthy_ok v k : truthy v = true -> exists x, get_prop v k = Ok x.
Proof.
  destruct v as [ | | b | m e | s | items | fields]; cbn; intros H;
    try discriminate H; eauto.
  destruct (lookup (codes k) fields); eauto.
Qed.

(** The four ways the effect can go. *)
Lemma handleRedirect_cases env :
  fst (handleRedirect env mounted) = Ok tt
  /\ ((exists id rs dd,
         SignedIn env id /\ ProfileFlags env id rs dd
         /\ AuthCallbackPage env
            = redirected [GetSession; SelectFlags id;
                          RouterPush (stage_route rs dd)])
      \/ (exists id row error,
            SignedIn env id
            /\ flags_reply env id = StoreReturns row error
            /\ truthy error = true
            /\ AuthCallbackPage env
               = redirected [GetSession; SelectFlags id;
                             RouterPush "/dashboard"])
      \/ (exists id e,
            SignedIn env id
            /\ flags_reply env id = StoreThrows e
            /\ AuthCallbackPage env
               = redirected [GetSession; SelectFlags id; RouterPush "/"])
      \/ ((forall id, ~ SignedIn env id)
          /\ AuthCallbackPage env = redirected [GetSession; RouterPush "/"])).
Proof.
  unfold AuthCallbackPage, handleRedirect, try_catch_finally, page_bind,
    getSession, page_bind, page_log, page_lift, page_ret, setIsLoading,
    router_push, page_log, mounted, redirected.
  cbn [page_calls isLoading app].
  destruct (session_reply env) as [e|reply] eqn:Es.
  { split; [reflexivity |]. right. right. right. split; [| reflexivity].
    intros id (r & d & s & u & H & _). congruence. }
  destruct (get_prop reply "data") as [data|e] eqn:Ed.
  2:{ split; [reflexivity |]. right. right. right. split; [| reflexivity].
      intros id (r & d & s & u & H & H1 & _). congruence. }
  destruct (get_prop data "session") as [session|e] eqn:Ese.
  2:{ split; [reflexivity |]. right. right. right. split; [| reflexivity].
      intros id (r & d & s & u & H & H1 & H2 & _). congruence. }
  destruct (get_prop_opt session "user") as [user|e] eqn:Eu.
  2:{ split; [reflexivity |]. right. right. right. split; [| reflexivity].
      intros id (r & d & s & u & H & H1 & H2 & H3 & _). congruence. }
  destruct (truthy user) eqn:Et.
  2:{ split; [reflexivity |]. right. right. right. split; [| reflexivity].
      intros id (r & d & s & u & H & H1 & H2 & H3 & H4 & _). congruence. }
  rewrite (get_prop_of_truthy session "user" user Eu Et).
  destruct (get_prop_truthy_ok user "id" Et) as [id Eid]. rewrite Eid.
  assert (Hin : SignedIn env id).
  { exists reply, data, session, user. auto 10. }
  unfold select_flags, page_bind, page_log, page_lift, page_ret.
  cbn [page_calls isLoading app].
  destruct (flags_reply env id) as [e|row error] eqn:Ef.
  { split; [reflexivity |]. right. right. left. exists id, e. auto. }
  destruct (truthy error) eqn:Ee.
  { split; [reflexivity |]. right. left. exists id, row, error. auto. }
  destruct (get_prop_opt_total row "role_selected") as [rs Ers].
  destruct (get_prop_opt_total row "discovery_done") as [dd Edd].
  rewrite Ers.
  assert (Hfl : ProfileFlags env id rs dd).
  { exists row, error. auto. }
  unfold stage_route.
  destruct (truthy rs) eqn:Trs.
  { split; [reflexivity |]. left. exists id, rs, dd. rewrite Trs. auto. }
  rewrite Edd.
  destruct (truthy dd) eqn:Tdd.
  - split; [reflexivity |]. left. exists id, rs, dd. rewrite Trs, Tdd. auto.
  - split; [reflexivity |]. left. exists id, rs, dd. rewrite Trs, Tdd. auto.
Qed.

(** X19: the effect of the page never throws and never leaves the page
    waiting: whatever the session call and the profile query do, it
    calls [router.push] exactly once, with one of the four routes, and
    ends with [isLoading] false. *)
Theorem callback_always_redirects_once env :
  fst (handleRedirect env mounted) = Ok tt
  /\ isLoading (AuthCallbackPage env) = false
  /\ exists route,
       pushed_routes (page_calls (AuthCallbackPage env)) = [route]
       /\ In route ["/"; "/dashboard"; "/roles"; "/discovery"]%string.
Proof.
  destruct (handleRedirect_cases env) as [Hok H]. split; [exact Hok |].
  destruct H as [(id & rs & dd & _ & _ & ->)
                | [(id & row & error & _ & _ & _ & ->)
                  | [(id & e & _ & _ & ->) | [_ ->]]]];
    (split; [reflexivity |]); cbn [redirected page_calls pushed_routes].
  - exists (stage_route rs dd). split; [reflexivity |].
    unfold stage_route. destruct (truthy rs); [cbn; auto |].
    destruct (truthy dd); cbn; auto.
  - exists "/dashboard"%string. cbn. auto.
  - exists "/"%string. cbn. auto.
  - exists "/"%string. cbn. auto.
Qed.

Lemma signed_in_unique env id id' :
  SignedIn env id -> SignedIn env id' -> id = id'.
Proof.
  intros (r & d & s & u & H1 & H2 & H3 & H4 & _ & H6)
         (r' & d' & s' & u' & H1' & H2' & H3' & H4' & _ & H6').
  congruence.
Qed.

(** X20: a visitor without a session user is sent to the home page, and
    the profile table is not queried for them. *)
Theorem no_session_goes_home env :
  (forall id, ~ SignedIn env id) ->
  AuthCallbackPage env = redirected [GetSession; RouterPush "/"].
Proof.
  intros Hno.
  destruct (handleRedirect_cases env) as [_ H].
  destruct H as [(id & rs & dd & Hin & _)
                | [(id & row & error & Hin & _)
                  | [(id & e & Hin & _) | [_ H]]]];
    try (exfalso; exact (Hno id Hin)).
  exact H.
Qed.

Lemma no_session_goes_home_witness :
  let env := {| session_reply := SessionResolves no_session;
                flags_reply := fun _ => StoreReturns (flags_row true true)
                                                     JNull |} in
  AuthCallbackPage env = redirected [GetSession; RouterPush "/"].
Proof.
  cbv zeta.
  apply (no_session_goes_home
           {| session_reply := SessionResolves no_session;
              flags_reply := fun _ => StoreReturns (flags_row true true)
                                                   JNull |}).
  intros id (r & d & s & u & H1 & H2 & H3 & H4 & H5 & _).
  cbn in H1. injection H1 as <-.
  cbn in H2. injection H2 as <-.
  cbn in H3. injection H3 as <-.
  cbn in H4. injection H4 as <-.
  discriminate H5.
Defined.

(** X21: a signed-in user whose profile is read without error is sent
    by the two flags: to the dashboard when [role_selected] is truthy,
    whatever [discovery_done] says; else to the roles page when
    [discovery_done] is truthy; else to the discovery page.  The calls
    are the session call, one profile query for [session.user.id] and
    the redirect. *)
Theorem signed_in_user_goes_to_their_stage env id role_selected discovery_done :
  SignedIn env id ->
  ProfileFlags env id role_selected discovery_done ->
  AuthCallbackPage env
  = redirected [GetSession; SelectFlags id;
                RouterPush (if truthy role_selected then "/dashboard"
                            else if truthy discovery_done then "/roles"
                            else "/discovery")].
Proof.
  intros Hin (row & error & Hf & He & Hrs & Hdd).
  destruct (handleRedirect_cases env) as [_ H].
  destruct H as [(id' & rs & dd & Hin' & (row' & error' & Hf' & He' & Hrs' & Hdd') & H)
                | [(id' & row' & error' & Hin' & Hf' & He' & _)
                  | [(id' & e & Hin' & Hf' & _) | [Hno _]]]].
  - assert (id' = id) as -> by (eapply signed_in_unique; eassumption).
    rewrite Hf in Hf'. injection Hf' as <- <-.
    rewrite Hrs in Hrs'. injection Hrs' as <-.
    rewrite Hdd in Hdd'. injection Hdd' as <-.
    exact H.
  - assert (id' = id) as -> by (eapply signed_in_unique; eassumption).
    congruence.
  - assert (id' = id) as -> by (eapply signed_in_unique; eassumption).
    congruence.
  - exfalso. exact (Hno id Hin).
Qed.

Lemma signed_in_user_goes_to_their_stage_witness :
  AuthCallbackPage (signed_in (flags_row true false))
  = redirected [GetSession; SelectFlags (JStr (codes "u1"));
                RouterPush (if truthy (JBool false) then "/dashboard"
                            else if truthy (JBool true) then "/roles"
                            else "/discovery")].
Proof.
  apply (signed_in_user_goes_to_their_stage
           (signed_in (flags_row true false)) (JStr (codes "u1"))
           (JBool false) (JBool true)).
  - exists (session_of "u1"),
      (JObj [(codes "session",
              JObj [(codes "user", JObj [(codes "id", JStr (codes "u1"))])])]),
      (JObj [(codes "user", JObj [(codes "id", JStr (codes "u1"))])]),
      (JObj [(codes "id", JStr (codes "u1"))]).
    repeat split; reflexivity.
  - exists (flags_row true false), JNull. repeat split; reflexivity.
Defined.

(** X22: the failures of the profile query.  When the query reports an
    error the signed-in user is sent to the dashboard; when it throws,
    to the home page. *)
Theorem profile_query_failure_routes env id :
  SignedIn env id ->
  (forall row error,
      flags_reply env id = StoreReturns row error ->
      truthy error = true ->
      AuthCallbackPage env
      = redirected [GetSession; SelectFlags id; RouterPush "/dashboard"])
  /\ (forall e,
        flags_reply env id = StoreThrows e ->
        AuthCallbackPage env
        = redirected [GetSession; SelectFlags id; RouterPush "/"]).
Proof.
  intros Hin.
  destruct (handleRedirect_cases env) as [_ H].
  split.
  - intros row error Hf He.
    destruct H as [(id' & rs & dd & Hin' & (row' & error' & Hf' & He' & _) & _)
                  | [(id' & row' & error' & Hin' & _ & _ & H)
                    | [(id' & e & Hin' & Hf' & _) | [Hno _]]]];
      try (assert (id' = id) as -> by (eapply signed_in_unique; eassumption));
      try congruence.
    exfalso. exact (Hno id Hin).
  - intros e Hf.
    destruct H as [(id' & rs & dd & Hin' & (row' & error' & Hf' & He' & _) & _)
                  | [(id' & row' & error' & Hin' & Hf' & _)
                    | [(id' & e' & Hin' & _ & H) | [Hno _]]]];
      try (assert (id' = id) as -> by (eapply signed_in_unique; eassumption));
      try congruence.
    exfalso. exact (Hno id Hin).
Qed.

Lemma profile_query_failure_routes_witness :
  let env := {| session_reply := SessionResolves (session_of "u1");
                flags_reply := fun _ => StoreThrows NetworkError |} in
  AuthCallbackPage env
  = redirected [GetSession; SelectFlags (JStr (codes "u1")); RouterPush "/"].
Proof.
  cbv zeta.
  assert (Hin : SignedIn
                  {| session_reply := SessionResolves (session_of "u1");
                     flags_reply := fun _ => StoreThrows NetworkError |}
                  (JStr (codes "u1"))).
  { exists (session_of "u1"),
      (JObj [(codes "session",
              JObj [(codes "user", JObj [(codes "id", JStr (codes "u1"))])])]),
      (JObj [(codes "user", JObj [(codes "id", JStr (codes "u1"))])]),
      (JObj [(codes "id", JStr (codes "u1"))]).
    repeat split; reflexivity. }
  apply (proj2 (profile_query_failure_routes
                  {| session_reply := SessionResolves (session_of "u1");
                     flags_reply := fun _ => StoreThrows NetworkError |}
                  (JStr (codes "u1")) Hin)
               NetworkError).
  reflexivity.
Defined.

(** X23: the onboarding pages are reached only through a profile that
    was read.  When the page redirects to [/roles] or [/discovery], there
    was a session user, the profile query for that user answered without
    error, [role_selected] was falsy, and [discovery_done] was truthy
    exactly for [/roles]. *)
Theorem onboarding_routes_need_a_profile env route :
  pushed_routes (page_calls (AuthCallbackPage env)) = [route] ->
  route = "/roles"%string \/ route = "/discovery"%string ->
  exists id role_selected discovery_done,
    SignedIn env id
    /\ ProfileFlags env id role_selected discovery_done
    /\ truthy role_selected = false
    /\ (route = "/roles"%string <-> truthy discovery_done = true).
Proof.
  intros Hr Hroute.
  destruct (handleRedirect_cases env) as [_ H].
  destruct H as [(id & rs & dd & Hin & Hfl & H)
                | [(id & row & error & _ & _ & _ & H)
                  | [(id & e & _ & _ & H) | [_ H]]]];
    rewrite H in Hr; cbn [redirected page_calls pushed_routes] in Hr;
    injection Hr as <-;
    try (destruct Hroute as [Hx | Hx]; discriminate Hx).
  exists id, rs, dd. split; [exact Hin |]. split; [exact Hfl |].
  unfold stage_route in *. destruct (truthy rs).
  - destruct Hroute as [Hx | Hx]; discriminate Hx.
  - split; [reflexivity |]. destruct (truthy dd).
    + split; reflexivity.
    + split; intros Hx; discriminate Hx.
Qed.

Lemma onboarding_routes_need_a_profile_witness :
  exists id role_selected discovery_done,
    SignedIn (signed_in (flags_row false false)) id
    /\ ProfileFlags (signed_in (flags_row false false)) id
                    role_selected discovery_done
    /\ truthy role_selected = false
    /\ ("/discovery"%string = "/roles"%string
        <-> truthy discovery_done = true).
Proof.
  apply (onboarding_routes_need_a_profile
           (signed_in (flags_row false false)) "/discovery").
  - reflexivity.
  - right. reflexivity.
Defined.

(* ================================================================== *)
(** * Further compositions *)
(* ================================================================== *)

(** A request of a user whose rows are the rows just stored. *)
Lemma POST_after_store
    env request w userId data error discoveryData recs payloads stamp :
  userId_of request = Ok userId ->
  truthy userId = true ->
  profile_reply env userId = StoreReturns data error ->
  truthy error = false ->
  get_prop_opt data "discovery_data" = Ok discoveryData ->
  truthy discoveryData = true ->
  select_fate env = SelectAnswers ->
  recs <> [] ->
  Forall2 (fun rec payload => payload_of userId rec = Ok payload)
          recs payloads ->
  (forall a b, (a < b)%nat -> (b < List.length recs)%nat ->
               (stamp a < stamp b)%Z) ->
  rows_of_user (role_recommendations w) userId = stamped stamp 0 payloads ->
  POST env request w
  = (respond (firstn 3 (rev (map cached_form payloads))),
     logged w [SelectProfile userId; SelectRecommendations userId]).
Proof.
  intros Hu Ht Hp He Hd Hdt Hs Hne Hpay Hinc Hrows.
  assert (Hlen : List.length payloads = List.length recs)
    by (symmetry; exact (Forall2_length Hpay)).
  assert (Hrecent : select_recent (role_recommendations w) userId
                    = firstn 3 (rev (stamped stamp 0 payloads))).
  { unfold select_recent. rewrite Hrows, order_desc_of_increasing;
      [reflexivity |].
    apply stamped_increasing. intros a b _ Hab Hb. apply Hinc; lia. }
  assert (Hsome : select_recent (role_recommendations w) userId <> []).
  { rewrite Hrecent. intros Hnil.
    apply (f_equal (@List.length Row)) in Hnil.
    rewrite length_firstn, length_rev, stamped_length, Hlen in Hnil.
    destruct recs; [contradiction | cbn in Hnil; lia]. }
  rewrite (POST_cache_hit env request w userId data error discoveryData
             Hu Ht Hp He Hd Hdt Hs Hsome).
  rewrite Hrecent, <- firstn_map, map_rev, stamped_format_rows. reflexivity.
Qed.

Lemma rows_of_user_after_store w userId stamp recs payloads calls :
  rows_of_user (role_recommendations w) userId = [] ->
  Forall2 (fun rec payload => payload_of userId rec = Ok payload)
          recs payloads ->
  rows_of_user
    (role_recommendations (grown w (stamped stamp 0 payloads) calls)) userId
  = stamped stamp 0 payloads.
Proof.
  intros Hnone Hpay. cbn [grown role_recommendations].
  unfold rows_of_user. rewrite filter_app.
  fold (rows_of_user (role_recommendations w) userId).
  fold (rows_of_user (stamped stamp 0 payloads) userId).
  rewrite Hnone, (rows_of_user_stamped userId stamp recs payloads Hpay).
  reflexivity.
Qed.

(** The payloads of the fallback set. *)
Lemma fallback_payloads userId :
  exists payloads,
    Forall2 (fun rec payload => payload_of userId rec = Ok payload)
            defaultRecommendations payloads
    /\ map cached_form payloads = defaultRecommendations.
Proof.
  eexists. split.
  - repeat (apply Forall2_cons; [reflexivity |]). apply Forall2_nil.
  - reflexivity.
Qed.

(** X24: the stored fallback is served again.  When the reply cannot be
    parsed (its content is readable but is not JSON), the user had no
    rows and the store accepts the insertions with increasing stamps,
    the three fallback records are stored, and the next request of the
    user is answered from the cache with the fallback set in reverse
    order, without calling the model. *)
Theorem fallback_stored_after_parse_failure_is_served_again
    env request w userId data error discoveryData messages response_body
    e text stamp :
  userId_of request = Ok userId ->
  truthy userId = true ->
  profile_reply env userId = StoreReturns data error ->
  truthy error = false ->
  get_prop_opt data "discovery_data" = Ok discoveryData ->
  truthy discoveryData = true ->
  select_fate env = SelectAnswers ->
  rows_of_user (role_recommendations w) userId = [] ->
  prepare_messages discoveryData = Ok messages ->
  model_outcome env messages = ModelResponds response_body ->
  truthy response_body = true ->
  parse_reply response_body = Throw e ->
  response_content response_body = Ok text ->
  (forall i, (i < 3)%nat -> insert_fate env i = InsertStores (stamp i)) ->
  (forall a b, (a < b)%nat -> (b < 3)%nat -> (stamp a < stamp b)%Z) ->
  let first := POST env request w in
  let second := POST env request (snd first) in
  fst first = respond defaultRecommendations
  /\ fst second = respond (rev defaultRecommendations)
  /\ snd second
     = logged (snd first) [SelectProfile userId; SelectRecommendations userId].
Proof.
  intros Hu Ht Hp He Hd Hdt Hs Hnone Hm Hmo Hbt Hpr Hc Hf Hinc first second.
  destruct (fallback_payloads userId) as (payloads & Hpay & Hform).
  assert (Hfirst : first
                   = (respond defaultRecommendations,
                      grown (logged w [SelectProfile userId;
                                       SelectRecommendations userId])
                            (stamped stamp 0 payloads)
                            (ChatCompletion messages
                             :: map InsertRecommendation payloads))).
  { unfold first.
    rewrite (POST_reaches_generate env request w userId data error
               discoveryData messages Hu Ht Hp He Hd Hdt Hs)
      by (try assumption; unfold select_recent; rewrite Hnone; reflexivity).
    rewrite (parse_failure_saves_the_fallback env userId messages _
               response_body e text Hmo Hbt Hpr Hc).
    unfold save, try_catch. rewrite logged_grown.
    rewrite (save_loop_stores env userId stamp defaultRecommendations
               payloads Hpay)
      by (intros j Hj; apply Hf; exact Hj).
    rewrite grown_grown. reflexivity. }
  split; [rewrite Hfirst; reflexivity |].
  unfold second.
  rewrite (POST_after_store env request (snd first) userId data error
             discoveryData defaultRecommendations payloads stamp
             Hu Ht Hp He Hd Hdt Hs ltac:(discriminate) Hpay Hinc).
  - cbn [fst snd]. rewrite Hform. split; reflexivity.
  - rewrite Hfirst. cbn [snd].
    apply (rows_of_user_after_store _ userId stamp defaultRecommendations).
    + exact Hnone.
    + exact Hpay.
Qed.

Lemma fallback_stored_after_parse_failure_is_served_again_witness :
  let reply := chat_response (codes "Sorry, I cannot help with that.") in
  let env := scenario full_profile (ModelResponds reply) in
  let request := request_with "{'userId':'u1'}" in
  let first := POST env request empty_world in
  let second := POST env request (snd first) in
  fst first = respond defaultRecommendations
  /\ fst second = respond (rev defaultRecommendations)
  /\ snd second
     = logged (snd first) [SelectProfile user1; SelectRecommendations user1].
Proof.
  cbv zeta.
  apply (fallback_stored_after_parse_failure_is_served_again
           (scenario full_profile
              (ModelResponds
                 (chat_response (codes "Sorry, I cannot help with that."))))
           (request_with "{'userId':'u1'}") empty_world user1
           (JObj [(codes "discovery_data", full_profile)]) JNull full_profile
           full_profile_messages
           (chat_response (codes "Sorry, I cannot help with that."))
           SyntaxError
           (JStr (codes "Sorry, I cannot help with that."))
           Z.of_nat);
    try reflexivity.
  intros a b Hab _. lia.
Defined.

(** X25: a failing cache read.  When the query on the cache reports an
    error, the rows the user may have are ignored and the model is
    called; when the query throws, the response is the default set and
    the model is not called. *)
Theorem cache_read_failure env request w userId data error discoveryData :
  userId_of request = Ok userId ->
  truthy userId = true ->
  profile_reply env userId = StoreReturns data error ->
  truthy error = false ->
  get_prop_opt data "discovery_data" = Ok discoveryData ->
  truthy discoveryData = true ->
  (forall err messages,
      select_fate env = SelectFails err ->
      prepare_messages discoveryData = Ok messages ->
      exists recs added inserts,
        POST env request w
        = (respond recs,
           grown w added
                 ([SelectProfile userId; SelectRecommendations userId;
                   ChatCompletion messages] ++ inserts)))
  /\ (forall e,
        select_fate env = SelectThrows e ->
        POST env request w
        = (respond defaultRecommendations,
           logged w [SelectProfile userId; SelectRecommendations userId])).
Proof.
  intros Hu Ht Hp He Hd Hdt. split.
  - intros err messages Hs Hm.
    unfold POST, handle, bind, lift. rewrite Hu, Ht. cbn [negb].
    unfold select_profile, bind, log, lift, ret.
    rewrite Hp, He, Hd, Hdt. cbn [negb].
    unfold select_recommendations, bind, log, lift, ret.
    rewrite Hs. unfold cache_hit. rewrite andb_false_r, Hm.
    match goal with
    | |- context [generate env userId messages ?w1] =>
        change w1 with (logged (logged w [SelectProfile userId])
                               [SelectRecommendations userId])
    end.
    rewrite !logged_grown, grown_grown. cbn [app].
    destruct (generate_effect env userId messages
                (grown w [] [SelectProfile userId;
                             SelectRecommendations userId]))
      as (recs & added & inserts & Hg & _).
    rewrite Hg, grown_grown. cbn [app]. exists recs, added, inserts.
    reflexivity.
  - intros e Hs.
    unfold POST, handle, bind, lift. rewrite Hu, Ht. cbn [negb].
    unfold select_profile, bind, log, lift, ret.
    rewrite Hp, He, Hd, Hdt. cbn [negb].
    unfold select_recommendations, bind, log, lift, ret.
    rewrite Hs. unfold logged. cbn [role_recommendations trace].
    rewrite <- app_assoc. reflexivity.
Qed.

Lemma cache_read_failure_witness :
  let env := {| profile_reply := fun _ =>
                  StoreReturns (JObj [(codes "discovery_data", full_profile)])
                               JNull;
                select_fate := SelectThrows NetworkError;
                insert_fate := fun i => InsertStores (Z.of_nat i);
                model_outcome := fun _ => ModelRejects AbortError;
                model_latency := fun _ => 1200%Z |} in
  let request := request_with "{'userId':'u1'}" in
  POST env request stocked_world
  = (respond defaultRecommendations,
     logged stocked_world [SelectProfile user1; SelectRecommendations user1]).
Proof.
  cbv zeta.
  apply (proj2 (cache_read_failure
                  {| profile_reply := fun _ =>
                       StoreReturns
                         (JObj [(codes "discovery_data", full_profile)]) JNull;
                     select_fate := SelectThrows NetworkError;
                     insert_fate := fun i => InsertStores (Z.of_nat i);
                     model_outcome := fun _ => ModelRejects AbortError;
                     model_latency := fun _ => 1200%Z |}
                  (request_with "{'userId':'u1'}") stocked_world user1
                  (JObj [(codes "discovery_data", full_profile)]) JNull
                  full_profile eq_refl eq_refl eq_refl eq_refl eq_refl
                  eq_refl)
               NetworkError).
  reflexivity.
Defined.

(** ** A fenced reply, end to end *)

Lemma trim_fenced_json body : trim (fence_json body) = fence_json body.
Proof.
  unfold fence_json.
  change (codes "```json" ++ 10%N :: body ++ 10%N :: codes "```")
    with (96%N :: (96%N :: 96%N :: 106%N :: 115%N :: 111%N :: 110%N :: 10%N
                   :: body ++ 10%N :: 96%N :: 96%N :: 96%N :: [])).
  replace (96%N :: 96%N :: 96%N :: 106%N :: 115%N :: 111%N :: 110%N :: 10%N
           :: body ++ 10%N :: 96%N :: 96%N :: 96%N :: [])
    with (96%N :: (96%N :: 96%N :: 106%N :: 115%N :: 111%N :: 110%N :: 10%N
                   :: body ++ [10%N; 96%N; 96%N]) ++ [96%N]).
  2:{ cbn [app]. do 8 f_equal. rewrite <- app_assoc. reflexivity. }
  assert (H := trim_framed [] [] 96
                 (96%N :: 96%N :: 106%N :: 115%N :: 111%N :: 110%N :: 10%N
                  :: body ++ [10%N; 96%N; 96%N]) 96
                 (Forall_nil _) (Forall_nil _) eq_refl eq_refl).
  cbn [app] in H. rewrite app_nil_r in H. exact H.
Qed.

(** X26: a reply that is a fenced JSON array.  When the content of the
    reply is a [json] code fence around a text that runs from a bracket
    and a brace to a brace and a bracket and that parses to an array,
    the parse step returns the elements of that array. *)
Theorem fenced_array_is_parsed w1 mid w2 items :
  Forall (fun c => is_js_ws c = true) w1 ->
  Forall (fun c => is_js_ws c = true) w2 ->
  JSON_parse (bracketed w1 mid w2) = Some (JArr items) ->
  clean (fence_json (bracketed w1 mid w2)) = bracketed w1 mid w2
  /\ parse_reply (chat_response (fence_json (bracketed w1 mid w2)))
     = Ok items.
Proof.
  intros H1 H2 Hj.
  assert (Hs := search_array_after_prefix [] w1 mid w2 []
                  (Forall_nil _) H1 H2 (conj eq_refl I)).
  cbn [app] in Hs. rewrite app_nil_r in Hs.
  assert (Hc : extract_array (strip_fences (trim (fence_json
                                                    (bracketed w1 mid w2))))
               = bracketed w1 mid w2).
  { rewrite trim_fenced_json.
    rewrite (proj1 (strip_fences_of_fence (bracketed w1 mid w2))).
    unfold extract_array, js_match. rewrite Hs. reflexivity. }
  split; [exact Hc |].
  unfold parse_reply, rbind.
  change (response_content
            (chat_response (fence_json (bracketed w1 mid w2))))
    with (Ok (JStr (fence_json (bracketed w1 mid w2)))).
  cbn [js_trim]. rewrite Hc. unfold JSON_parse_throw. rewrite Hj.
  reflexivity.
Qed.

Lemma fenced_array_is_parsed_witness :
  parse_reply
    (chat_response
       (fence_json (bracketed [] (json_text "'role_title':'Chef'") [10%N])))
  = Ok [JObj [(codes "role_title", JStr (codes "Chef"))]].
Proof.
  apply (fenced_array_is_parsed [] (json_text "'role_title':'Chef'") [10%N]
           [JObj [(codes "role_title", JStr (codes "Chef"))]]).
  - constructor.
  - repeat constructor.
  - reflexivity.
Defined.

(** ** The timer *)



